(** * CameraRecorder (src/App.jsx): recording session, duration check, upload

    A shallow embedding of the web [CameraRecorder] component: its React
    state and refs, the browser objects it drives (media recorders, camera
    streams, timers, object URLs), its handlers as state transformers, and
    the event loop that dispatches clicks, timer firings and recorder
    notifications to them.

    The async handlers ([ensureStream], [start], [handleFilePick]) are
    given twice: in one piece, as a call goes when its promises settle
    before anything else happens, and cut at their awaits, with the page
    keeping the calls that wait while other events are handled ([happen]).

    JavaScript numbers are IEEE-754 binary64 values, taken here from the
    specification of floating-point arithmetic in the Standard Library
    ([SpecFloat], precision 53, maximal exponent 1024). *)

From Stdlib Require Import ZArith QArith Qabs Qround Lia.
From Stdlib Require Import Floats.SpecFloat.
From stdpp Require Import base gmap strings list pretty.

Local Open Scope Z_scope.

(** ** JavaScript numbers *)

Module JSNumber.

Definition prec : Z := 53.
Definition emax : Z := 1024.

Abbreviation number := spec_float.

(** A number is well formed when it is one of the binary64 values. *)
Definition wf (x : number) : bool := valid_binary prec emax x.

(** The Number closest to an integer (exact below 2^53). *)
Definition of_Z (z : Z) : number := binary_normalize prec emax z 0 false.

(** The Number a decimal literal [n / 10^k] denotes: the quotient of two
    exactly represented integers, correctly rounded. *)
Definition decimal (n : Z) (k : nat) : number :=
  SFdiv prec emax (of_Z n) (of_Z (10 ^ Z.of_nat k)).

Definition NaN : number := S754_nan.

(** [isFinite(x)] *)
Definition isFinite (x : number) : bool :=
  match x with
  | S754_nan | S754_infinity _ => false
  | S754_zero _ | S754_finite _ _ _ => true
  end.

Definition sub : number → number → number := SFsub prec emax.
Definition mul : number → number → number := SFmul prec emax.
Definition div : number → number → number := SFdiv prec emax.

(** [Math.abs(x)] *)
Definition abs : number → number := SFabs.

(** [x > y] and [x <= y]; both are false as soon as one side is NaN. *)
Definition gt (x y : number) : bool := SFltb y x.
Definition le (x y : number) : bool := SFleb x y.

(** [Math.max(x, y)]: NaN if either is NaN, and +0 is larger than -0. *)
Definition Math_max (x y : number) : number :=
  match x, y with
  | S754_nan, _ | _, S754_nan => S754_nan
  | _, _ =>
      if SFltb x y then y
      else if SFltb y x then x
      else match x with S754_zero true => y | _ => x end
  end.

(** The real number a Number stands for (0 for NaN and the infinities). *)
Definition to_Q (x : number) : Q :=
  match x with
  | S754_finite s m e =>
      match e with
      | Z0 => inject_Z (cond_Zopp s (Zpos m))
      | Zpos p => inject_Z (cond_Zopp s (Zpos m) * 2 ^ Zpos p)
      | Zneg p => Qmake (cond_Zopp s (Zpos m)) (2 ^ p)%positive
      end
  | _ => 0%Q
  end.

(** [x < 0] on the real value, as [toFixed] tests it: -0 is not below 0. *)
Definition negative (x : number) : bool :=
  match x with
  | S754_finite true _ _ => true
  | _ => false
  end.

(** The integer [n] for which [n / 100 - |x|] is closest to zero, the
    larger one when two are equally close (step 10.a of
    Number.prototype.toFixed with two fraction digits). *)
Definition hundredths (x : number) : Z :=
  match x with
  | S754_finite _ m e =>
      match e with
      | Z0 => 100 * Zpos m
      | Zpos p => 100 * Zpos m * 2 ^ Zpos p
      | Zneg p => (200 * Zpos m + 2 ^ Zpos p) / 2 ^ (Zpos p + 1)
      end
  | _ => 0
  end.

(** [|x| >= 10^21], where [toFixed] falls back on [Number::toString]. *)
Definition huge (x : number) : bool :=
  match x with
  | S754_finite _ m e =>
      match e with
      | Z0 => 10 ^ 21 <=? Zpos m
      | Zpos p => 10 ^ 21 <=? Zpos m * 2 ^ Zpos p
      | Zneg p => 10 ^ 21 * 2 ^ Zpos p <=? Zpos m
      end
  | _ => false
  end.

Fixpoint zeros (k : nat) : string :=
  match k with
  | O => EmptyString
  | S k' => "0" +:+ zeros k'
  end.

(** Steps 10.b to 10.d of [toFixed]: the decimal digits of [n], padded
    with zeros to three characters, with a point before the last two. *)
Definition fixed2_digits (n : Z) : string :=
  let m := pretty (Z.to_N n) in
  let k := String.length m in
  let m := if decide (k ≤ 2)%nat then zeros (3 - k) +:+ m else m in
  let k := String.length m in
  String.substring 0 (k - 2) m +:+ "." +:+ String.substring (k - 2) 2 m.

Section ToFixed.
(** [Number::toString], which only the branch for values of magnitude
    10^21 and above (and the non-finite ones) reaches. *)
Variable Number_toString : number → string.

(** [x.toFixed(2)] *)
Definition toFixed2 (x : number) : string :=
  if negb (isFinite x) then Number_toString x
  else if huge x then Number_toString x
  else (if negative x then "-" else EmptyString) +:+ fixed2_digits (hundredths x).
End ToFixed.

#[global] Arguments of_Z : simpl never.
#[global] Arguments decimal : simpl never.
#[global] Arguments sub : simpl never.
#[global] Arguments mul : simpl never.
#[global] Arguments div : simpl never.
#[global] Arguments abs : simpl never.
#[global] Arguments gt : simpl never.
#[global] Arguments le : simpl never.
#[global] Arguments Math_max : simpl never.
#[global] Arguments toFixed2 : simpl never.
#[global] Arguments fixed2_digits : simpl never.
#[global] Arguments hundredths : simpl never.

End JSNumber.

Import JSNumber.

(** ** Data *)

(** Browser objects are named by the order in which they were created. *)
Abbreviation StreamId := nat.
Abbreviation RecId := nat.
Abbreviation TimerId := positive.
Abbreviation Url := positive.

(** The values [status] takes: "idle", "ready", "countdown", "recording",
    "finished" and "error". *)
Inductive Status := Idle | Ready | Countdown | Recording | Finished | Error.

#[global] Instance Status_eq_dec : EqDecision Status.
Proof. solve_decision. Defined.

Record Blob := { blob_data : list N; blob_type : string }.
Record File := { file_name : string; file_blob : Blob }.

(** [MediaRecorder.state] *)
Inductive RecorderState := inactive | recording | paused.

#[global] Instance RecorderState_eq_dec : EqDecision RecorderState.
Proof. solve_decision. Defined.

(** A [MediaRecorder]; [rec_startedAt] remembers the [Date.now()] at which
    [start()] was called on it. *)
Record MediaRecorder := {
  rec_state : RecorderState;
  rec_stream : StreamId;
  rec_mimeType : string;
  rec_startedAt : Z
}.

(** A pending timer with the variables its callback closes over.  The
    component creates two kinds: the countdown interval of [start], whose
    callback owns [remaining] and [stream], and the deadline timeout of
    [beginRecording], whose callback is [() => stop()].  [due] is the time
    of the next firing. *)
Inductive Timer :=
  | Interval (due : Z) (remaining : Z) (stream : StreamId)
  | Timeout (due : Z).

Definition timer_due (t : Timer) : Z :=
  match t with Interval d _ _ => d | Timeout d => d end.

(** A callback handed to [requestAnimationFrame]: the closure [tick] of
    [beginRecording], over [rec] and [startedAt]. *)
Record Frame := { frame_rec : RecId; frame_startedAt : Z }.

(** The multipart body of one upload. *)
Record Request := { req_file : File; req_filename : string; req_source : string }.

(** What an observer of the component sees happen, in order. *)
Inductive Obs :=
  | ObsCountdown (n : Z)        (* setCountdown(n) *)
  | ObsBeginCapture             (* beginRecording is entered *)
  | ObsEncoder (r : RecId)      (* new MediaRecorder(...) returned r *)
  | ObsFetch (q : Request).     (* fetch(API_URL, ...) *)

(** The component's [useState] cells. *)
Record Hooks := mkHooks {
  status : Status;
  countdown : Z;
  secondsLeft : number;
  blobUrl : option Url;
  recordedBlob : option Blob;
  error : string;
  isSending : bool;
  selectedFile : option File;
  selectedDuration : option number;
  accuracy : option string
}.

(** The [<video>] element behind [videoRef]. *)
Record Video := { srcObject : option StreamId }.

(** The component's [useRef] cells ([.current] of each). *)
Record Refs := mkRefs {
  videoRef : option Video;
  recorderRef : option RecId;
  chunksRef : list Blob;
  streamRef : option StreamId;
  countdownTimerRef : option TimerId;
  stopTimerRef : option TimerId
}.

(** The browser around the component. *)
Record Browser := mkBrowser {
  now : Z;                          (* Date.now(), in milliseconds *)
  recorders : list MediaRecorder;   (* every MediaRecorder constructed *)
  streams : list (list bool);       (* per stream, which tracks are live *)
  timers : gmap TimerId Timer;      (* active setInterval / setTimeout ids *)
  nextTimer : TimerId;
  urls : gset Url;                  (* object URLs not yet revoked *)
  nextUrl : Url;
  frames : list Frame;              (* animation-frame callbacks requested *)
  stopping : list RecId;            (* recorders whose stop event is queued *)
  inflight : list Request;          (* fetches not yet settled *)
  log : list Obs
}.

Record World := mkWorld { hooks : Hooks; refs : Refs; browser : Browser }.

Definition API_URL : string := "https://taichi-1.onrender.com/analyze_video/".

(** The component as first rendered, in a fresh page at time [t0]. *)
Definition mount (t0 : Z) : World :=
  {| hooks := {| status := Idle; countdown := 5; secondsLeft := of_Z 60;
                 blobUrl := None; recordedBlob := None; error := EmptyString;
                 isSending := false; selectedFile := None;
                 selectedDuration := None; accuracy := None |};
     refs := {| videoRef := Some {| srcObject := None |}; recorderRef := None;
                chunksRef := []; streamRef := None;
                countdownTimerRef := None; stopTimerRef := None |};
     browser := {| now := t0; recorders := []; streams := []; timers := ∅;
                   nextTimer := 1%positive; urls := ∅; nextUrl := 1%positive;
                   frames := []; stopping := []; inflight := []; log := [] |} |}.

(** *** Field updates *)

Definition with_hooks (f : Hooks → Hooks) (w : World) : World :=
  {| hooks := f (hooks w); refs := refs w; browser := browser w |}.
Definition with_refs (f : Refs → Refs) (w : World) : World :=
  {| hooks := hooks w; refs := f (refs w); browser := browser w |}.
Definition with_browser (f : Browser → Browser) (w : World) : World :=
  {| hooks := hooks w; refs := refs w; browser := f (browser w) |}.

Definition put_status v := with_hooks (λ h,
  mkHooks v (countdown h) (secondsLeft h) (blobUrl h) (recordedBlob h)
    (error h) (isSending h) (selectedFile h) (selectedDuration h) (accuracy h)).
Definition put_countdown v := with_hooks (λ h,
  mkHooks (status h) v (secondsLeft h) (blobUrl h) (recordedBlob h)
    (error h) (isSending h) (selectedFile h) (selectedDuration h) (accuracy h)).
Definition put_secondsLeft v := with_hooks (λ h,
  mkHooks (status h) (countdown h) v (blobUrl h) (recordedBlob h)
    (error h) (isSending h) (selectedFile h) (selectedDuration h) (accuracy h)).
Definition put_blobUrl v := with_hooks (λ h,
  mkHooks (status h) (countdown h) (secondsLeft h) v (recordedBlob h)
    (error h) (isSending h) (selectedFile h) (selectedDuration h) (accuracy h)).
Definition put_recordedBlob v := with_hooks (λ h,
  mkHooks (status h) (countdown h) (secondsLeft h) (blobUrl h) v
    (error h) (isSending h) (selectedFile h) (selectedDuration h) (accuracy h)).
Definition put_error v := with_hooks (λ h,
  mkHooks (status h) (countdown h) (secondsLeft h) (blobUrl h) (recordedBlob h)
    v (isSending h) (selectedFile h) (selectedDuration h) (accuracy h)).
Definition put_isSending v := with_hooks (λ h,
  mkHooks (status h) (countdown h) (secondsLeft h) (blobUrl h) (recordedBlob h)
    (error h) v (selectedFile h) (selectedDuration h) (accuracy h)).
Definition put_selectedFile v := with_hooks (λ h,
  mkHooks (status h) (countdown h) (secondsLeft h) (blobUrl h) (recordedBlob h)
    (error h) (isSending h) v (selectedDuration h) (accuracy h)).
Definition put_selectedDuration v := with_hooks (λ h,
  mkHooks (status h) (countdown h) (secondsLeft h) (blobUrl h) (recordedBlob h)
    (error h) (isSending h) (selectedFile h) v (accuracy h)).
Definition put_accuracy v := with_hooks (λ h,
  mkHooks (status h) (countdown h) (secondsLeft h) (blobUrl h) (recordedBlob h)
    (error h) (isSending h) (selectedFile h) (selectedDuration h) v).

Definition put_videoRef v := with_refs (λ r,
  mkRefs v (recorderRef r) (chunksRef r) (streamRef r)
    (countdownTimerRef r) (stopTimerRef r)).
Definition put_recorderRef v := with_refs (λ r,
  mkRefs (videoRef r) v (chunksRef r) (streamRef r)
    (countdownTimerRef r) (stopTimerRef r)).
Definition put_chunksRef v := with_refs (λ r,
  mkRefs (videoRef r) (recorderRef r) v (streamRef r)
    (countdownTimerRef r) (stopTimerRef r)).
Definition put_streamRef v := with_refs (λ r,
  mkRefs (videoRef r) (recorderRef r) (chunksRef r) v
    (countdownTimerRef r) (stopTimerRef r)).
Definition put_countdownTimerRef v := with_refs (λ r,
  mkRefs (videoRef r) (recorderRef r) (chunksRef r) (streamRef r)
    v (stopTimerRef r)).
Definition put_stopTimerRef v := with_refs (λ r,
  mkRefs (videoRef r) (recorderRef r) (chunksRef r) (streamRef r)
    (countdownTimerRef r) v).

Definition put_now v := with_browser (λ b,
  mkBrowser v (recorders b) (streams b) (timers b) (nextTimer b) (urls b)
    (nextUrl b) (frames b) (stopping b) (inflight b) (log b)).
Definition put_recorders v := with_browser (λ b,
  mkBrowser (now b) v (streams b) (timers b) (nextTimer b) (urls b)
    (nextUrl b) (frames b) (stopping b) (inflight b) (log b)).
Definition put_streams v := with_browser (λ b,
  mkBrowser (now b) (recorders b) v (timers b) (nextTimer b) (urls b)
    (nextUrl b) (frames b) (stopping b) (inflight b) (log b)).
Definition put_timers v := with_browser (λ b,
  mkBrowser (now b) (recorders b) (streams b) v (nextTimer b) (urls b)
    (nextUrl b) (frames b) (stopping b) (inflight b) (log b)).
Definition put_nextTimer v := with_browser (λ b,
  mkBrowser (now b) (recorders b) (streams b) (timers b) v (urls b)
    (nextUrl b) (frames b) (stopping b) (inflight b) (log b)).
Definition put_urls v := with_browser (λ b,
  mkBrowser (now b) (recorders b) (streams b) (timers b) (nextTimer b) v
    (nextUrl b) (frames b) (stopping b) (inflight b) (log b)).
Definition put_nextUrl v := with_browser (λ b,
  mkBrowser (now b) (recorders b) (streams b) (timers b) (nextTimer b) (urls b)
    v (frames b) (stopping b) (inflight b) (log b)).
Definition put_frames v := with_browser (λ b,
  mkBrowser (now b) (recorders b) (streams b) (timers b) (nextTimer b) (urls b)
    (nextUrl b) v (stopping b) (inflight b) (log b)).
Definition put_stopping v := with_browser (λ b,
  mkBrowser (now b) (recorders b) (streams b) (timers b) (nextTimer b) (urls b)
    (nextUrl b) (frames b) v (inflight b) (log b)).
Definition put_inflight v := with_browser (λ b,
  mkBrowser (now b) (recorders b) (streams b) (timers b) (nextTimer b) (urls b)
    (nextUrl b) (frames b) (stopping b) v (log b)).
Definition put_log v := with_browser (λ b,
  mkBrowser (now b) (recorders b) (streams b) (timers b) (nextTimer b) (urls b)
    (nextUrl b) (frames b) (stopping b) (inflight b) v).

(** ** Handlers as computations

    A handler runs on the world and either returns or throws; what it
    throws is carried as [String(e)], the only use the component makes of
    an exception. *)

Inductive Result (A : Type) :=
  | Returned (a : A) (w : World)
  | Thrown (e : string) (w : World).
Arguments Returned {A} a w.
Arguments Thrown {A} e w.

Definition M (A : Type) : Type := World → Result A.

#[global] Instance M_ret : MRet M := λ A a w, Returned a w.
#[global] Instance M_bind : MBind M := λ A B f c w,
  match c w with
  | Returned a w' => f a w'
  | Thrown e w' => Thrown e w'
  end.

Definition throw {A} (e : string) : M A := λ w, Thrown e w.

(** [try { c } catch (e) { h e }] *)
Definition try_catch {A} (c : M A) (h : string → M A) : M A := λ w,
  match c w with
  | Returned a w' => Returned a w'
  | Thrown e w' => h e w'
  end.

(** [try { c } finally { f }] *)
Definition try_finally {A} (c : M A) (f : M unit) : M A := λ w,
  match c w with
  | Returned a w' => (f ;; mret a) w'
  | Thrown e w' => (f ;; throw e) w'
  end.

Definition gets {A} (f : World → A) : M A := λ w, Returned (f w) w.
Definition modify (f : World → World) : M unit := λ w, Returned tt (f w).

(** The world a handler leaves behind when the event loop called it: an
    exception that escapes it is reported and dropped. *)
Definition settle (c : M unit) (w : World) : World :=
  match c w with
  | Returned _ w' => w'
  | Thrown _ w' => w'
  end.

Definition observe (o : Obs) : M unit :=
  modify (λ w, put_log (log (browser w) ++ [o]) w).

(** *** React setters *)

Definition setStatus (v : Status) : M unit := modify (put_status v).
Definition setCountdown (n : Z) : M unit :=
  modify (put_countdown n) ;; observe (ObsCountdown n).
Definition setSecondsLeft (x : number) : M unit := modify (put_secondsLeft x).
Definition setBlobUrl (u : option Url) : M unit := modify (put_blobUrl u).
Definition setRecordedBlob (b : option Blob) : M unit := modify (put_recordedBlob b).
Definition setError (e : string) : M unit := modify (put_error e).
Definition setIsSending (b : bool) : M unit := modify (put_isSending b).
Definition setSelectedFile (f : option File) : M unit := modify (put_selectedFile f).
Definition setSelectedDuration (d : option number) : M unit :=
  modify (put_selectedDuration d).
Definition setAccuracy (a : option string) : M unit := modify (put_accuracy a).

(** *** Browser operations *)

(** [setInterval(cb, 1000)] for the countdown callback of [start]. *)
Definition setInterval (remaining : Z) (stream : StreamId) : M TimerId := λ w,
  let b := browser w in
  let id := nextTimer b in
  Returned id
    (put_nextTimer (Pos.succ id)
       (put_timers (<[id := Interval (now b + 1000) remaining stream]> (timers b)) w)).

(** [setTimeout(() => stop(), delay)] *)
Definition setTimeout (delay : Z) : M TimerId := λ w,
  let b := browser w in
  let id := nextTimer b in
  Returned id
    (put_nextTimer (Pos.succ id)
       (put_timers (<[id := Timeout (now b + delay)]> (timers b)) w)).

(** [clearTimeout(id)] and [clearInterval(id)]: one table, one operation. *)
Definition clearTimer (id : TimerId) : M unit :=
  modify (λ w, put_timers (delete id (timers (browser w))) w).

(** [URL.createObjectURL(blob)] *)
Definition createObjectURL : M Url := λ w,
  let b := browser w in
  let u := nextUrl b in
  Returned u (put_nextUrl (Pos.succ u) (put_urls ({[u]} ∪ urls b) w)).

(** [URL.revokeObjectURL(u)] *)
Definition revokeObjectURL (u : Url) : M unit :=
  modify (λ w, put_urls (urls (browser w) ∖ {[u]}) w).

(** [requestAnimationFrame(tick)] *)
Definition requestAnimationFrame (f : Frame) : M unit :=
  modify (λ w, put_frames (frames (browser w) ++ [f]) w).

(** What the camera does when asked for a stream: [getUserMedia] rejects,
    or it resolves with a stream of [tracks] live tracks, after which
    [video.play()] resolves ([play = None]) or rejects. *)
Inductive Acquire :=
  | AcqRejected (e : string)
  | AcqGranted (tracks : nat) (play : option string).

(** The media stack the page runs on. *)
Record Platform := {
  has_MediaRecorder : bool;              (* window.MediaRecorder *)
  isTypeSupported : string → bool;       (* MediaRecorder.isTypeSupported *)
  constructor_throws : option string;    (* new MediaRecorder(...) throws *)
  start_throws : option string;          (* rec.start() throws *)
  default_mimeType : string              (* rec.mimeType when none was asked *)
}.

(** [new MediaRecorder(stream, opts)] *)
Definition new_MediaRecorder (p : Platform) (stream : StreamId)
    (opts : option string) : M RecId :=
  match constructor_throws p with
  | Some e => throw e
  | None => λ w,
      let b := browser w in
      let r := length (recorders b) in
      let mime := default (default_mimeType p) opts in
      (observe (ObsEncoder r) ;; mret r)
        (put_recorders
           (recorders b ++ [{| rec_state := inactive; rec_stream := stream;
                               rec_mimeType := mime; rec_startedAt := 0 |}]) w)
  end.

Definition recorder (r : RecId) (w : World) : option MediaRecorder :=
  recorders (browser w) !! r.

Definition recorder_state (r : RecId) (w : World) : RecorderState :=
  from_option rec_state inactive (recorder r w).

Definition put_recorder_state (r : RecId) (st : RecorderState) (t : Z) (w : World) : World :=
  put_recorders
    (alter (λ R, {| rec_state := st; rec_stream := rec_stream R;
                    rec_mimeType := rec_mimeType R; rec_startedAt := t |})
       r (recorders (browser w))) w.

(** [rec.start()] *)
Definition MediaRecorder_start (p : Platform) (r : RecId) : M unit :=
  match start_throws p with
  | Some e => throw e
  | None => modify (λ w, put_recorder_state r recording (now (browser w)) w)
  end.

(** [rec.stop()]: inactivates the recorder at once and queues its final
    [dataavailable] and [stop] events; on a recorder that is already
    inactive it throws. *)
Definition MediaRecorder_stop (r : RecId) : M unit := λ w,
  match recorder r w with
  | Some R =>
      if decide (rec_state R = inactive)
      then Thrown "InvalidStateError: The MediaRecorder's state is 'inactive'." w
      else Returned tt
             (put_stopping (stopping (browser w) ++ [r])
                (put_recorder_state r inactive (rec_startedAt R) w))
  | None => Thrown "TypeError: not a MediaRecorder" w
  end.

(** [stream.getTracks().forEach((t) => t.stop())] *)
Definition stop_tracks (st : StreamId) : M unit :=
  modify (λ w, put_streams (alter (map (λ _, false)) st (streams (browser w))) w).

(** ** The component's functions *)

(** [pickSupportedMime()] *)
Definition pickSupportedMime (p : Platform) : option string :=
  let options :=
    [ "video/webm;codecs=vp9,opus";
      "video/webm;codecs=vp8,opus";
      "video/webm";
      "video/mp4" ] in
  List.find (λ type, has_MediaRecorder p && isTypeSupported p type) options.

(** [ensureStream()], run in one piece: its two promises ([getUserMedia]
    and [video.play()]) settle, with the camera's answer [acq], before
    anything else happens on the page.  The function cut at its awaits is
    [ensureStream_granted] and [ensureStream_ready] below. *)
Definition ensureStream (acq : Acquire) : M StreamId :=
  cur ← gets (λ w, streamRef (refs w));
  match cur with
  | Some stream => mret stream
  | None =>
      match acq with
      | AcqRejected e => throw e
      | AcqGranted tracks play =>
          stream ← (λ w, Returned (length (streams (browser w)))
                           (put_streams (streams (browser w) ++ [replicate tracks true]) w));
          modify (put_streamRef (Some stream)) ;;
          video ← gets (λ w, videoRef (refs w));
          match video with
          | Some _ =>
              modify (put_videoRef (Some {| srcObject := Some stream |})) ;;
              match play with
              | Some e => throw e
              | None => mret tt
              end
          | None => mret tt
          end ;;
          setStatus Ready ;;
          mret stream
      end
  end.

(** [stop()] *)
Definition stop : M unit :=
  try_catch
    (rec ← gets (λ w, recorderRef (refs w));
     match rec with
     | Some r =>
         st ← gets (recorder_state r);
         if decide (st = recording) then MediaRecorder_stop r else mret tt
     | None => mret tt
     end ;;
     t ← gets (λ w, stopTimerRef (refs w));
     match t with Some id => clearTimer id | None => mret tt end ;;
     c ← gets (λ w, countdownTimerRef (refs w));
     match c with Some id => clearTimer id | None => mret tt end)
    (λ _, mret tt).

(** [rec.ondataavailable] *)
Definition ondataavailable (data : option Blob) : M unit :=
  match data with
  | Some d =>
      if decide (0 < length (blob_data d))%nat
      then modify (λ w, put_chunksRef (chunksRef (refs w) ++ [d]) w)
      else mret tt
  | None => mret tt
  end.

(** [rec.onstop] *)
Definition onstop (r : RecId) : M unit :=
  chunks ← gets (λ w, chunksRef (refs w));
  mime ← gets (λ w, from_option rec_mimeType EmptyString (recorder r w));
  let blob := {| blob_data := concat (map blob_data chunks);
                 blob_type := if decide (mime = EmptyString) then "video/webm" else mime |} in
  url ← createObjectURL;
  setRecordedBlob (Some blob) ;;
  setBlobUrl (Some url) ;;
  setStatus Finished ;;
  setSecondsLeft (of_Z 60).

(** [tick], the animation-frame callback of [beginRecording] *)
Definition tick (f : Frame) : M unit :=
  t ← gets (λ w, now (browser w));
  let elapsed := div (of_Z (t - frame_startedAt f)) (of_Z 1000) in
  let left := Math_max (of_Z 0) (sub (of_Z 60) elapsed) in
  setSecondsLeft left ;;
  st ← gets (recorder_state (frame_rec f));
  if le left (of_Z 0) || negb (bool_decide (st = recording)) then mret tt
  else requestAnimationFrame f.

(** [beginRecording(stream)] *)
Definition beginRecording (p : Platform) (stream : StreamId) : M unit :=
  observe ObsBeginCapture ;;
  try_catch
    (let opts := pickSupportedMime p in
     rec ← new_MediaRecorder p stream opts;
     modify (put_recorderRef (Some rec)) ;;
     MediaRecorder_start p rec ;;
     setStatus Recording ;;
     setSecondsLeft (of_Z 60) ;;
     startedAt ← gets (λ w, now (browser w));
     requestAnimationFrame {| frame_rec := rec; frame_startedAt := startedAt |} ;;
     id ← setTimeout 60000;
     modify (put_stopTimerRef (Some id)))
    (λ e, setError e ;; setStatus Error).

(** The callback [start] hands to [setInterval]; [id] is the interval it
    runs for, whose entry in the timer table holds its [remaining]. *)
Definition countdown_callback (p : Platform) (id : TimerId) : M unit :=
  me ← gets (λ w, timers (browser w) !! id);
  match me with
  | Some (Interval due remaining stream) =>
      let remaining := remaining - 1 in
      modify (λ w, put_timers (<[id := Interval due remaining stream]> (timers (browser w))) w) ;;
      setCountdown remaining ;;
      if remaining <=? 0 then
        c ← gets (λ w, countdownTimerRef (refs w));
        match c with Some cid => clearTimer cid | None => mret tt end ;;
        beginRecording p stream
      else mret tt
  | _ => mret tt
  end.

(** [start()], in one piece: with [ensureStream] as above.  Cut at its
    await it is [start_enter], then [start_arm] or [start_catch] below. *)
Definition start (acq : Acquire) : M unit :=
  setError EmptyString ;;
  setBlobUrl None ;;
  setRecordedBlob None ;;
  setAccuracy None ;;
  try_catch
    (stream ← ensureStream acq;
     modify (put_chunksRef []) ;;
     setCountdown 5 ;;
     setStatus Countdown ;;
     id ← setInterval 5 stream;
     modify (put_countdownTimerRef (Some id)))
    (λ e, setError e ;; setStatus Error).

(** [cleanup()], as closed over the [blobUrl] of the render that made it. *)
Definition cleanup (blobUrl : option Url) : M unit :=
  try_catch
    (stop ;;
     s ← gets (λ w, streamRef (refs w));
     match s with
     | Some stream => stop_tracks stream ;; modify (put_streamRef None)
     | None => mret tt
     end ;;
     match blobUrl with Some u => revokeObjectURL u | None => mret tt end)
    (λ _, mret tt).

(** What probing a file's metadata comes to: [onloadedmetadata] with the
    element's duration, or [onerror]. *)
Inductive Probe := Loaded (duration : number) | Failed.

(** [validateDurationApprox60(file)] *)
Definition validateDurationApprox60 (file : File) (probe : Probe) : M number :=
  url ← createObjectURL;
  match probe with
  | Loaded d => revokeObjectURL url ;; mret d
  | Failed => revokeObjectURL url ;; mret NaN
  end.

(** The test [!isFinite(dur) || Math.abs(dur - 60) > 3] of [handleFilePick]. *)
Definition rejects (dur : number) : bool :=
  negb (isFinite dur) || gt (abs (sub dur (of_Z 60))) (of_Z 3).

(** The duration a probe resolves with. *)
Definition probe_duration (probe : Probe) : number :=
  match probe with Loaded d => d | Failed => NaN end.

Section Component.

Variable Number_toString : number → string.

(** The message [handleFilePick] reports for a duration it turns down. *)
Definition duration_message (dur : number) : string :=
  "Selected video must be ~60s. Detected "
  +:+ (if isFinite dur then toFixed2 Number_toString dur else "unknown")
  +:+ "s.".

(** [handleFilePick(e)], with [f = e.target.files?.[0]], in one piece: the
    probe settles before anything else happens on the page.  Cut at its
    await it is [handleFilePick_enter] and [handleFilePick_resume] below. *)
Definition handleFilePick (f : option File) (probe : Probe) : M unit :=
  setSelectedFile None ;;
  setSelectedDuration None ;;
  setError EmptyString ;;
  match f with
  | None => mret tt
  | Some f =>
      dur ← validateDurationApprox60 f probe;
      setSelectedDuration (Some dur) ;;
      if rejects dur then
        setError (duration_message dur)
      else setSelectedFile (Some f)
  end.

(** What the handler can tell about a response body: [res.json()] rejects;
    or it yields a value that is falsy or has no property [probabilities];
    or it yields an object whose [probabilities] multiplies as the Number
    [p] (for a JSON number, the number itself). *)
Inductive Body := Unparseable | NoProbabilities | Probabilities (p : number).

(** How [fetch] settles. *)
Inductive FetchOutcome :=
  | FetchRejected (e : string)
  | FetchResponse (status : Z) (statusText : string) (body : Body).

(** [res.ok] *)
Definition response_ok (status : Z) : bool := (200 <=? status) && (status <=? 299).

(** The form data [send] builds: the file under a name, and its source. *)
Definition request_of (file : File) (sourceLabel : string) : Request :=
  {| req_file := file;
     req_filename :=
       if decide (file_name file = EmptyString)
       then (if decide (sourceLabel = EmptyString) then "video" else sourceLabel) +:+ ".webm"
       else file_name file;
     req_source := if decide (sourceLabel = EmptyString) then "unknown" else sourceLabel |}.

(** [send], up to its first await: the request is on its way. *)
Definition send_request (file : File) (sourceLabel : string) : M unit :=
  setIsSending true ;;
  setError EmptyString ;;
  observe (ObsFetch (request_of file sourceLabel)).

(** [String(new Error(`Upload failed: ${res.status} ${res.statusText}`))] *)
Definition upload_failed (status : Z) (statusText : string) : string :=
  "Error: Upload failed: " +:+ pretty status +:+ " " +:+ statusText.

(** [send], from the point where [fetch] settles to the end of its [try]. *)
Definition send_response (o : FetchOutcome) : M unit :=
  match o with
  | FetchRejected e => throw e
  | FetchResponse status statusText body =>
      if negb (response_ok status) then
        throw (upload_failed status statusText)
      else
        match body with
        | Probabilities p =>
            setAccuracy (Some (toFixed2 Number_toString (mul p (of_Z 100))))
        | Unparseable | NoProbabilities => mret tt
        end
  end.

(** [send(file, sourceLabel)], whose [fetch] settles as [o]. *)
Definition send (file : File) (sourceLabel : string) (o : FetchOutcome) : M unit :=
  try_finally
    (try_catch
       (send_request file sourceLabel ;; send_response o)
       (λ e, setError e))
    (setIsSending false).

(** The rest of [send] once its [fetch] has settled, as the event loop
    resumes it: the [try] from the await on, its [catch], its [finally]. *)
Definition send_resume (o : FetchOutcome) : M unit :=
  try_finally
    (try_catch (send_response o) (λ e, setError e))
    (setIsSending false).

(** [`recorded-${Date.now()}.webm`] *)
Definition recorded_name (t : Z) : string := "recorded-" +:+ pretty t +:+ ".webm".

(** The file [sendRecorded] wraps around [recordedBlob]. *)
Definition recorded_file (w : World) : option File :=
  match recordedBlob (hooks w) with
  | Some blob =>
      Some {| file_name := recorded_name (now (browser w));
              file_blob :=
                {| blob_data := blob_data blob;
                   blob_type := if decide (blob_type blob = EmptyString)
                                then "video/webm" else blob_type blob |} |}
  | None => None
  end.

(** [sendRecorded()] *)
Definition sendRecorded (o : FetchOutcome) : M unit :=
  named ← gets recorded_file;
  match named with
  | Some file => send file "recorded" o
  | None => mret tt
  end.

(** [sendSelected()] *)
Definition sendSelected (o : FetchOutcome) : M unit :=
  f ← gets (λ w, selectedFile (hooks w));
  match f with
  | Some file => send file "uploaded" o
  | None => mret tt
  end.

(** ** The event loop *)

(** What can happen to a mounted component: the user operates a control,
    or the browser runs a callback, delivers an event or lets time pass. *)
Inductive Event :=
  | ClickOpen (acq : Acquire)                  (* onClick={ensureStream} *)
  | ClickStart (acq : Acquire)                 (* onClick={start} *)
  | ClickStop                                  (* onClick={stop} *)
  | ClickSendRecorded                          (* onClick={sendRecorded} *)
  | ClickSendSelected                          (* onClick={sendSelected} *)
  | PickFile (f : option File) (probe : Probe) (* onChange={handleFilePick} *)
  | FetchSettles (i : nat) (o : FetchOutcome)
  | TimerFires (id : TimerId) (p : Platform)
  | FrameFires (i : nat)
  | RecorderData (r : RecId) (data : option Blob)
  | RecorderStopped (r : RecId)                (* its stop event is delivered *)
  | RecorderEnds (r : RecId)                   (* it stops of its own accord *)
  | Cleanup (blobUrl : option Url)             (* cleanup() *)
  | TimePasses (dt : Z).

(** The [disabled] attribute of each control. *)
Definition disabled (ev : Event) (w : World) : bool :=
  let st := status (hooks w) in
  match ev with
  | ClickOpen _ => negb (bool_decide (st = Idle)) && negb (bool_decide (st = Ready))
  | ClickStart _ => negb (bool_decide (st = Ready)) && negb (bool_decide (st = Finished))
  | ClickStop => negb (bool_decide (st = Recording)) && negb (bool_decide (st = Countdown))
  | ClickSendRecorded =>
      negb (bool_decide (is_Some (recordedBlob (hooks w)))) || isSending (hooks w)
  | ClickSendSelected =>
      negb (bool_decide (is_Some (selectedFile (hooks w)))) || isSending (hooks w)
  | _ => false
  end.

(** Starting an upload from a click: [send] runs to its await. *)
Definition send_enter (file : option File) (sourceLabel : string) : M unit :=
  match file with
  | Some f =>
      send_request f sourceLabel ;;
      modify (λ w, put_inflight
                     (inflight (browser w) ++ [request_of f sourceLabel]) w)
  | None => mret tt
  end.

(** A timer fires no earlier than it is due.  A timeout leaves the table
    and runs [stop]; an interval is re-armed one second on and runs the
    countdown callback. *)
Definition fire (id : TimerId) (p : Platform) (w : World) : option World :=
  match timers (browser w) !! id with
  | Some (Timeout due) =>
      if due <=? now (browser w)
      then Some (settle (clearTimer id ;; stop) w)
      else None
  | Some (Interval due remaining stream) =>
      if due <=? now (browser w)
      then Some (settle
                   (modify (λ w, put_timers
                              (<[id := Interval (due + 1000) remaining stream]>
                                 (timers (browser w))) w) ;;
                    countdown_callback p id) w)
      else None
  | None => None
  end.

(** One event, handled in one piece: an async handler runs to its end,
    each of its promises settling before the next event.  [None] when the
    browser cannot produce the event in [w].  Time passes by any positive
    amount: a timer may fire later than it is due.  The event loop with
    calls that wait at their awaits is [happen] below. *)
Definition handle (ev : Event) (w : World) : option World :=
  match ev with
  | ClickOpen acq => Some (settle (ensureStream acq ;; mret tt) w)
  | ClickStart acq => Some (settle (start acq) w)
  | ClickStop => Some (settle stop w)
  | ClickSendRecorded => Some (settle (send_enter (recorded_file w) "recorded") w)
  | ClickSendSelected => Some (settle (send_enter (selectedFile (hooks w)) "uploaded") w)
  | PickFile f probe => Some (settle (handleFilePick f probe) w)
  | FetchSettles i o =>
      match inflight (browser w) !! i with
      | Some _ =>
          Some (settle (send_resume o) (put_inflight (delete i (inflight (browser w))) w))
      | None => None
      end
  | TimerFires id p => fire id p w
  | FrameFires i =>
      match frames (browser w) !! i with
      | Some f => Some (settle (tick f) (put_frames (delete i (frames (browser w))) w))
      | None => None
      end
  | RecorderData r data =>
      if bool_decide (recorder_state r w = recording) || bool_decide (r ∈ stopping (browser w))
      then Some (settle (ondataavailable data) w)
      else None
  | RecorderStopped r =>
      match stopping (browser w) with
      | r' :: rest =>
          if decide (r = r')
          then Some (settle (onstop r) (put_stopping rest w))
          else None
      | [] => None
      end
  | RecorderEnds r =>
      if decide (recorder_state r w = recording)
      then Some (settle (MediaRecorder_stop r) w)
      else None
  | Cleanup blobUrl => Some (settle (cleanup blobUrl) w)
  | TimePasses dt =>
      if 0 <? dt then Some (put_now (now (browser w) + dt) w) else None
  end.

(** An event reaches its handler only through an enabled control. *)
Definition step (ev : Event) (w : World) : option World :=
  if disabled ev w then None else handle ev w.

(** A run of the page: every event in turn, through the controls. *)
Fixpoint run (evs : list Event) (w : World) : option World :=
  match evs with
  | [] => Some w
  | ev :: evs' =>
      match step ev w with
      | Some w' => run evs' w'
      | None => None
      end
  end.

End Component.

#[global] Arguments rejects : simpl never.
#[global] Arguments duration_message : simpl never.
#[global] Arguments upload_failed : simpl never.
#[global] Arguments recorded_name : simpl never.

(** ** Properties of worlds *)

(** The worlds a mounted component can be in when nothing overtakes a
    promise. *)
Definition reachable (Number_toString : number → string) (w : World) : Prop :=
  ∃ t0 evs, run Number_toString evs (mount t0) = Some w.

(** The recorders that are recording in [w]. *)
Definition live_encoders (w : World) : list RecId :=
  filter (λ r, recorder_state r w = recording) (seq 0 (length (recorders (browser w)))).

(** No recorder is recording. *)
Definition idle_encoders (w : World) : Prop :=
  ∀ r, recorder_state r w ≠ recording.

(** No countdown interval is pending. *)
Definition no_interval (w : World) : Prop :=
  ∀ id due remaining stream,
    timers (browser w) !! id ≠ Some (Interval due remaining stream).

(** How the phases of a session exclude one another: a recorder that is
    recording is the one in [recorderRef], under status "recording", with no
    stop event queued; a pending countdown interval is the one in
    [countdownTimerRef], under status "countdown", with no recorder
    recording; a queued stop event is alone, under status "recording",
    with no recorder recording; status "recording" has the recorder of
    [recorderRef] either recording or stopped with its event queued. *)
Record Calm (w : World) : Prop := {
  calm_live : ∀ r, recorder_state r w = recording →
    recorderRef (refs w) = Some r ∧ status (hooks w) = Recording ∧
    stopping (browser w) = [];
  calm_interval : ∀ id due remaining stream,
    timers (browser w) !! id = Some (Interval due remaining stream) →
    status (hooks w) = Countdown ∧ countdownTimerRef (refs w) = Some id ∧
    stopping (browser w) = [] ∧ idle_encoders w;
  calm_stopping : ∀ r rest, stopping (browser w) = r :: rest →
    rest = [] ∧ status (hooks w) = Recording ∧ idle_encoders w;
  calm_session : status (hooks w) = Recording →
    ∃ r, recorderRef (refs w) = Some r ∧
         (recorder_state r w = recording ∨ stopping (browser w) = [r])
}.

(** Every recorder that is recording has its deadline pending, in
    [stopTimerRef], sixty seconds after it started. *)
Definition deadline_armed (w : World) : Prop :=
  ∀ r R, recorder r w = Some R → rec_state R = recording →
    ∃ id, stopTimerRef (refs w) = Some id ∧
          timers (browser w) !! id = Some (Timeout (rec_startedAt R + 60000)).

Definition Inv (w : World) : Prop := Calm w ∧ deadline_armed w.

(** The part of the world the session's phases are read from. *)
Definition core (w : World) :=
  (status (hooks w), recorderRef (refs w), stopTimerRef (refs w),
   countdownTimerRef (refs w), timers (browser w), recorders (browser w),
   stopping (browser w), now (browser w)).

(** [stop] in closed form: the recorder of [recorderRef] is stopped if it
    is recording, then the timers of the two refs are cleared. *)
Definition halt_encoder (w : World) : World :=
  match recorderRef (refs w) with
  | Some r =>
      if decide (recorder_state r w = recording)
      then put_stopping (stopping (browser w) ++ [r])
             (put_recorder_state r inactive
                (from_option rec_startedAt 0 (recorder r w)) w)
      else w
  | None => w
  end.

Definition clear_ref (ref : option TimerId) (w : World) : World :=
  match ref with
  | Some id => put_timers (delete id (timers (browser w))) w
  | None => w
  end.

(** How often beginRecording was entered, a recorder constructed, a
    request sent, according to a log. *)
Definition begins (l : list Obs) : nat :=
  length (List.filter (λ o, match o with ObsBeginCapture => true | _ => false end) l).

Definition encoders_made (l : list Obs) : nat :=
  length (List.filter (λ o, match o with ObsEncoder _ => true | _ => false end) l).

Definition fetches (l : list Obs) : nat :=
  length (List.filter (λ o, match o with ObsFetch _ => true | _ => false end) l).

(** The countdown values observed, in order. *)
Definition countdowns (l : list Obs) : list Z :=
  omap (λ o, match o with ObsCountdown n => Some n | _ => None end) l.

(** ** Closed forms

    What the handlers come to, written as updates of the world; the
    lemmas below show each handler equal to its closed form. *)

Definition world_of {A} (x : Result A) : World :=
  match x with Returned _ w => w | Thrown _ w => w end.

(** What a handler leaves untouched when it stays away from recorders and
    timers. *)
Definition same_session (w w' : World) : Prop :=
  recorderRef (refs w') = recorderRef (refs w) ∧
  stopTimerRef (refs w') = stopTimerRef (refs w) ∧
  countdownTimerRef (refs w') = countdownTimerRef (refs w) ∧
  timers (browser w') = timers (browser w) ∧
  recorders (browser w') = recorders (browser w) ∧
  stopping (browser w') = stopping (browser w) ∧
  now (browser w') = now (browser w) ∧
  nextTimer (browser w') = nextTimer (browser w) ∧
  log (browser w') = log (browser w).

(** The world [start] leaves when the camera is there: the countdown is
    armed. *)
Definition armed (s : StreamId) (w : World) : World :=
  put_countdownTimerRef (Some (nextTimer (browser w)))
    (put_nextTimer (Pos.succ (nextTimer (browser w)))
       (put_timers (<[nextTimer (browser w) := Interval (now (browser w) + 1000) 5 s]>
                      (timers (browser w)))
          (put_status Countdown
             (put_log (log (browser w) ++ [ObsCountdown 5])
                (put_countdown 5 (put_chunksRef [] w)))))).

Definition reset (w : World) : World :=
  put_accuracy None (put_recordedBlob None (put_blobUrl None (put_error EmptyString w))).

Definition capture_failed (e : string) (w : World) : World :=
  put_status Error (put_error e w).

(** The recorder [beginRecording] constructs, before it is started. *)
Definition constructed (p : Platform) (s : StreamId) (w : World) : World :=
  let r := length (recorders (browser w)) in
  put_recorderRef (Some r)
    (put_log (log (browser w) ++ [ObsBeginCapture; ObsEncoder r])
       (put_recorders
          (recorders (browser w)
             ++ [{| rec_state := inactive; rec_stream := s;
                    rec_mimeType := default (default_mimeType p) (pickSupportedMime p);
                    rec_startedAt := 0 |}]) w)).

(** The world a successful [beginRecording] leaves. *)
Definition capturing (p : Platform) (s : StreamId) (w : World) : World :=
  let r := length (recorders (browser w)) in
  let w1 := constructed p s w in
  put_stopTimerRef (Some (nextTimer (browser w)))
    (put_nextTimer (Pos.succ (nextTimer (browser w)))
       (put_timers (<[nextTimer (browser w) := Timeout (now (browser w) + 60000)]>
                      (timers (browser w)))
          (put_frames (frames (browser w)
                         ++ [{| frame_rec := r; frame_startedAt := now (browser w) |}])
             (put_secondsLeft (of_Z 60)
                (put_status Recording
                   (put_recorder_state r recording (now (browser w)) w1)))))).

(** One firing of the countdown interval [id], re-armed, in closed form. *)
Definition counted (id : TimerId) (due remaining : Z) (s : StreamId) (w : World) : World :=
  put_log (log (browser w) ++ [ObsCountdown (remaining - 1)])
    (put_countdown (remaining - 1)
       (put_timers (<[id := Interval (due + 1000) (remaining - 1) s]> (timers (browser w))) w)).

(** [cleanup] is [stop], then the release of the stream and of the URL. *)
Definition release (blobUrl : option Url) (w : World) : World :=
  let w1 :=
    match streamRef (refs w) with
    | Some s =>
        put_streamRef None
          (put_streams (alter (map (λ _, false)) s (streams (browser w))) w)
    | None => w
    end in
  match blobUrl with
  | Some u => put_urls (urls (browser w1) ∖ {[u]}) w1
  | None => w1
  end.

(** ** The binade of 60

    A binary64 value within 3 of 60 has exponent -47, where 60 itself is
    [m60 * 2^-47]. *)

Definition m60 : positive := 8444249301319680.

Definition near60 (s : bool) (m : positive) (e : Z) : Prop :=
  s = false ∧ e = -47 ∧ 57 * 2 ^ 47 ≤ Zpos m ≤ 63 * 2 ^ 47.

(** ** Scenarios *)

(** The file picker takes [f], probed at duration [dur], as the selected
    file. *)
Definition accepted (Number_toString : number → string) (f : File) (dur : number)
    (w : World) : Prop :=
  selectedFile (hooks (settle (handleFilePick Number_toString (Some f) (Loaded dur)) w))
  = Some f.

(** A file, a platform and a [Number::toString] to run examples with. *)
Definition clip : File :=
  {| file_name := "clip.webm";
     file_blob := {| blob_data := [1%N; 2%N; 3%N]; blob_type := "video/webm" |} |}.

Definition chrome : Platform :=
  {| has_MediaRecorder := true;
     isTypeSupported := λ type, bool_decide (type ≠ "video/mp4");
     constructor_throws := None;
     start_throws := None;
     default_mimeType := EmptyString |}.

Definition plain_toString (x : number) : string :=
  match x with
  | S754_nan => "NaN"
  | S754_infinity false => "Infinity"
  | S754_infinity true => "-Infinity"
  | _ => "1e+21"
  end.

Definition camera : Acquire := AcqGranted 2 None.

(** ** What [send] leaves alone, and runs of the page *)

(** Everything [send] leaves as it found it: the session, the artifact and
    its URL, the refs, and the browser apart from its log. *)
Definition untouched_by_send (w w' : World) : Prop :=
  status (hooks w') = status (hooks w) ∧
  recordedBlob (hooks w') = recordedBlob (hooks w) ∧
  blobUrl (hooks w') = blobUrl (hooks w) ∧
  countdown (hooks w') = countdown (hooks w) ∧
  secondsLeft (hooks w') = secondsLeft (hooks w) ∧
  selectedFile (hooks w') = selectedFile (hooks w) ∧
  refs w' = refs w ∧
  recorders (browser w') = recorders (browser w) ∧
  timers (browser w') = timers (browser w) ∧
  urls (browser w') = urls (browser w).

(** Five seconds, with the interval [id] firing at each. *)
Definition ticking (id : TimerId) : list Event :=
  concat (replicate 5 [TimePasses 1000; TimerFires id chrome]).

(** Stop pressed one second into the countdown. *)
Definition stop_in_countdown : list Event :=
  [ClickOpen camera; ClickStart camera; TimePasses 1000; TimerFires 1 chrome; ClickStop].

(** A recording that ends of its own accord fifty-eight seconds in, a new
    attempt started at once, and two seconds of its countdown: the deadline
    of the first recording, timer 2, is still pending and now due. *)
Definition stale_deadline : list Event :=
  [ClickOpen camera; ClickStart camera] ++ ticking 1
  ++ [TimePasses 58000; RecorderEnds 0%nat; RecorderStopped 0%nat; ClickStart camera;
      TimePasses 1000; TimerFires 3 chrome; TimePasses 1000].

(** Five seconds into the first recording's countdown and out of it. *)
Definition recording_world : World :=
  Eval vm_compute in
    default (mount 0)
      (run plain_toString ([ClickOpen camera; ClickStart camera] ++ ticking 1) (mount 0)).

(** One second into a countdown. *)
Definition countdown_world : World :=
  Eval vm_compute in
    default (mount 0)
      (run plain_toString
         [ClickOpen camera; ClickStart camera; TimePasses 1000; TimerFires 1 chrome]
         (mount 0)).

(** The world of [stale_deadline]. *)
Definition stale_world : World :=
  Eval vm_compute in default (mount 0) (run plain_toString stale_deadline (mount 0)).

(** A media stack without [MediaRecorder]: the constructor throws. *)
Definition no_recorder : Platform :=
  {| has_MediaRecorder := false;
     isTypeSupported := λ _, false;
     constructor_throws := Some "ReferenceError: MediaRecorder is not defined";
     start_throws := None;
     default_mimeType := EmptyString |}.

(** The countdown of a first attempt runs out on a stack without
    [MediaRecorder]. *)
Definition failed_capture : list Event :=
  [ClickOpen camera; ClickStart camera]
  ++ concat (replicate 5 [TimePasses 1000; TimerFires 1 no_recorder]).

Definition error_world : World :=
  Eval vm_compute in default (mount 0) (run plain_toString failed_capture (mount 0)).

(** What the page shows and offers is consistent: there is an artifact
    exactly in the status "finished", and its URL with it; a selected file
    has passed the duration check; at most one upload is in flight, and the
    sending flag is up exactly then; every object URL handed out is older
    than the next one. *)
Record Tidy (w : World) : Prop := {
  tidy_artifact : status (hooks w) = Finished ↔ is_Some (recordedBlob (hooks w));
  tidy_url : is_Some (recordedBlob (hooks w)) ↔ is_Some (blobUrl (hooks w));
  tidy_selected : ∀ f, selectedFile (hooks w) = Some f →
    ∃ d, selectedDuration (hooks w) = Some d ∧ rejects d = false;
  tidy_upload :
    (isSending (hooks w) = false ∧ inflight (browser w) = []) ∨
    (isSending (hooks w) = true ∧ ∃ q, inflight (browser w) = [q]);
  tidy_fresh : ∀ u, u ∈ urls (browser w) → (u < nextUrl (browser w))%positive
}.

(** The part of the world [Tidy] is read from. *)
Definition face (w : World) :=
  (status (hooks w), recordedBlob (hooks w), blobUrl (hooks w),
   selectedFile (hooks w), selectedDuration (hooks w),
   isSending (hooks w), inflight (browser w),
   urls (browser w), nextUrl (browser w)).

(** A whole session: camera, countdown, sixty seconds of recording with one
    chunk of data, the deadline, the recorder's stop event. *)
Definition whole_session : list Event :=
  [ClickOpen camera; ClickStart camera] ++ ticking 1
  ++ [TimePasses 60000;
      RecorderData 0%nat (Some {| blob_data := [7%N; 8%N]; blob_type := "video/webm" |});
      TimerFires 2 chrome; RecorderStopped 0%nat].

Definition finished_world : World :=
  Eval vm_compute in default (mount 0) (run plain_toString whole_session (mount 0)).

(** A file of fifty-eight seconds is picked, and sent. *)
Definition picked_world : World :=
  Eval vm_compute in
    default (mount 0)
      (run plain_toString [PickFile (Some clip) (Loaded (of_Z 58))] (mount 0)).




(** The types [pickSupportedMime] tries, in its order. *)
Definition mime_options : list string :=
  [ "video/webm;codecs=vp9,opus"; "video/webm;codecs=vp8,opus"; "video/webm"; "video/mp4" ].

(** The recorder's data events, delivered in order. *)
Definition deliver (ds : list (option Blob)) (w : World) : World :=
  foldl (λ w d, settle (ondataavailable d) w) w ds.

(** The bytes of the chunks a list of data events carries. *)
Definition bytes_of (ds : list (option Blob)) : list N :=
  concat (blob_data <$> omap id ds).

(** A camera whose preview refuses to play. *)
Definition no_autoplay : Acquire := AcqGranted 2 (Some "NotAllowedError: play() failed").

(** What the user still does after the capture failed. *)
Definition after_failure : list Event :=
  [PickFile (Some clip) (Loaded (of_Z 58)); ClickSendSelected; TimePasses 5000].

Definition error_world_later : World :=
  Eval vm_compute in default (mount 0) (run plain_toString after_failure error_world).

Definition cancelled_world : World :=
  Eval vm_compute in default (mount 0) (run plain_toString stop_in_countdown (mount 0)).

Definition cancelled_world_later : World :=
  Eval vm_compute in
    default (mount 0) (run plain_toString [TimePasses 5000; ClickStop] cancelled_world).

(** * The React Native variant of the component

    The first [CameraRecorder] of src/App.jsx serves the web and, through
    expo-camera, mobile.  Its web handlers run on the same state; the
    fields of the world that only the other variant has ([isSending], the
    selected file, the two timer refs) stay as [mount] sets them.  The
    handlers of the mobile branch drive expo-camera and are left out. *)

Module Expo.

(** [Platform.OS] *)
Inductive OS := web | ios | android.

#[global] Instance OS_eq_dec : EqDecision OS.
Proof. solve_decision. Defined.

(** [cleanup()], as closed over [blobUrl] *)
Definition cleanup (os : OS) (blobUrl : option Url) : M unit :=
  try_catch
    (if decide (os = web) then
       s ← gets (λ w, streamRef (refs w));
       match s with
       | Some stream => stop_tracks stream ;; modify (put_streamRef None)
       | None => mret tt
       end ;;
       match blobUrl with Some u => revokeObjectURL u | None => mret tt end
     else mret tt)
    (λ _, mret tt).

(** [stopWebRecording()] *)
Definition stopWebRecording : M unit :=
  try_catch
    (rec ← gets (λ w, recorderRef (refs w));
     match rec with
     | Some r =>
         st ← gets (recorder_state r);
         if decide (st = recording) then MediaRecorder_stop r else mret tt
     | None => mret tt
     end)
    (λ _, mret tt).

(** [beginWebRecording(stream)]: no options for the recorder, no [try],
    and the id of the deadline timer is dropped.  [ondataavailable],
    [onstop] and [tick] read as in the other variant. *)
Definition beginWebRecording (p : Platform) (stream : StreamId) : M unit :=
  observe ObsBeginCapture ;;
  rec ← new_MediaRecorder p stream None;
  modify (put_recorderRef (Some rec)) ;;
  MediaRecorder_start p rec ;;
  setStatus Recording ;;
  setSecondsLeft (of_Z 60) ;;
  startedAt ← gets (λ w, now (browser w));
  requestAnimationFrame {| frame_rec := rec; frame_startedAt := startedAt |} ;;
  _ ← setTimeout 60000;
  mret tt.

(** The callback [startWebRecording] hands to [setInterval]; it clears
    [timer], the interval it runs for. *)
Definition countdown_callback (p : Platform) (timer : TimerId) : M unit :=
  me ← gets (λ w, timers (browser w) !! timer);
  match me with
  | Some (Interval due remaining stream) =>
      let remaining := remaining - 1 in
      modify (λ w, put_timers (<[timer := Interval due remaining stream]>
                                 (timers (browser w))) w) ;;
      setCountdown remaining ;;
      if remaining <=? 0 then
        clearTimer timer ;;
        beginWebRecording p stream
      else mret tt
  | _ => mret tt
  end.

(** [startWebRecording()], on the web, where its [ensureStream()] is that
    of the other variant *)
Definition startWebRecording (acq : Acquire) : M unit :=
  try_catch
    (setError EmptyString ;;
     setBlobUrl None ;;
     setRecordedBlob None ;;
     stream ← ensureStream acq;
     modify (put_chunksRef []) ;;
     setCountdown 5 ;;
     setStatus Countdown ;;
     _ ← setInterval 5 stream;
     mret tt)
    (λ e, setError e ;; setStatus Error).

(** [ensureStream()]: [undefined] off the web; on the web, the same text
    as in the other variant. *)
Definition ensureStream (os : OS) (acq : Acquire) : M (option StreamId) :=
  if decide (os = web) then s ← ensureStream acq; mret (Some s)
  else mret None.

Section Send.
Variable Number_toString : number → string.

(** [send(file, sourceLabel)], whose [fetch] settles as [o].  Neither
    [res.ok] nor the status is looked at. *)
Definition send (file : File) (sourceLabel : string) (o : FetchOutcome) : M unit :=
  try_catch
    (match o with
     | FetchRejected e => throw e
     | FetchResponse _ _ body =>
         match body with
         | Probabilities p =>
             setAccuracy (Some (toFixed2 Number_toString (mul p (of_Z 100))))
         | Unparseable | NoProbabilities => mret tt
         end
     end)
    (λ e, setError e).

(** The file [sendWeb] wraps around [recordedBlob]: always "video/webm". *)
Definition web_file (w : World) : option File :=
  match recordedBlob (hooks w) with
  | Some blob =>
      Some {| file_name := recorded_name (now (browser w));
              file_blob := {| blob_data := blob_data blob; blob_type := "video/webm" |} |}
  | None => None
  end.

(** [sendWeb()] *)
Definition sendWeb (o : FetchOutcome) : M unit :=
  file ← gets web_file;
  match file with
  | Some f => send f "web" o
  | None => mret tt
  end.

End Send.

(** What can happen to the mounted web page.  No control is ever
    disabled. *)
Inductive Event :=
  | ClickOpen (acq : Acquire)                  (* onClick={ensureStream} *)
  | ClickStart (acq : Acquire)                 (* onClick={startWebRecording} *)
  | ClickStop                                  (* onClick={stopWebRecording} *)
  | TimerFires (id : TimerId) (p : Platform)
  | FrameFires (i : nat)
  | RecorderData (r : RecId) (data : option Blob)
  | RecorderStopped (r : RecId)
  | RecorderEnds (r : RecId)
  | Cleanup (blobUrl : option Url)
  | TimePasses (dt : Z).

(** A timer fires no earlier than it is due: the deadline runs
    [stopWebRecording], the interval its countdown callback. *)
Definition fire (id : TimerId) (p : Platform) (w : World) : option World :=
  match timers (browser w) !! id with
  | Some (Timeout due) =>
      if due <=? now (browser w)
      then Some (settle (clearTimer id ;; stopWebRecording) w)
      else None
  | Some (Interval due remaining stream) =>
      if due <=? now (browser w)
      then Some (settle
                   (modify (λ w, put_timers
                              (<[id := Interval (due + 1000) remaining stream]>
                                 (timers (browser w))) w) ;;
                    countdown_callback p id) w)
      else None
  | None => None
  end.

Definition handle (ev : Event) (w : World) : option World :=
  match ev with
  | ClickOpen acq => Some (settle (ensureStream web acq ;; mret tt) w)
  | ClickStart acq => Some (settle (startWebRecording acq) w)
  | ClickStop => Some (settle stopWebRecording w)
  | TimerFires id p => fire id p w
  | FrameFires i =>
      match frames (browser w) !! i with
      | Some f => Some (settle (tick f) (put_frames (delete i (frames (browser w))) w))
      | None => None
      end
  | RecorderData r data =>
      if bool_decide (recorder_state r w = recording) || bool_decide (r ∈ stopping (browser w))
      then Some (settle (ondataavailable data) w)
      else None
  | RecorderStopped r =>
      match stopping (browser w) with
      | r' :: rest =>
          if decide (r = r')
          then Some (settle (onstop r) (put_stopping rest w))
          else None
      | [] => None
      end
  | RecorderEnds r =>
      if decide (recorder_state r w = recording)
      then Some (settle (MediaRecorder_stop r) w)
      else None
  | Cleanup blobUrl => Some (settle (cleanup web blobUrl) w)
  | TimePasses dt =>
      if 0 <? dt then Some (put_now (now (browser w) + dt) w) else None
  end.

Fixpoint run (evs : list Event) (w : World) : option World :=
  match evs with
  | [] => Some w
  | ev :: evs' =>
      match handle ev w with
      | Some w' => run evs' w'
      | None => None
      end
  end.

End Expo.

(** Runs of the web page of this variant: into a recording; on from there
    with a second click on Start and its countdown; and up to the last
    second of a first countdown. *)
Definition expo_ticking (id : TimerId) (n : nat) : list Expo.Event :=
  concat (replicate n [Expo.TimePasses 1000; Expo.TimerFires id chrome]).

Definition expo_recording : list Expo.Event :=
  [Expo.ClickOpen camera; Expo.ClickStart camera] ++ expo_ticking 1 5.

Definition expo_recording_world : World :=
  Eval vm_compute in default (mount 0) (Expo.run expo_recording (mount 0)).

Definition expo_last_second_world : World :=
  Eval vm_compute in
    default (mount 0)
      (Expo.run ([Expo.ClickOpen camera; Expo.ClickStart camera] ++ expo_ticking 1 4
                 ++ [Expo.TimePasses 1000]) (mount 0)).

(** Every pending timer is older than the next one to be made. *)
Definition fresh_timers (w : World) : Prop :=
  ∀ id, is_Some (timers (browser w) !! id) → (id < nextTimer (browser w))%positive.

(** ** More of JavaScript's numbers: [Math.floor], [%], [toString],
    [padStart] *)

(** [Math.floor(x)]: the largest integer not above [x]; [x] itself when it
    is an integer, a zero, an infinity or NaN.  Below 2^53 in magnitude the
    integer is a Number. *)
Definition Math_floor (x : number) : number :=
  match x with
  | S754_finite s m (Zneg p) =>
      let n := cond_Zopp s (Zpos m) / 2 ^ Zpos p in
      if n =? 0 then S754_zero s else of_Z n
  | _ => x
  end.

(** [x % y] (Number::remainder): the remainder of the truncating division,
    with the sign of [x]; it is always a Number, so nothing is rounded. *)
Definition remainder (x y : number) : number :=
  match x, y with
  | S754_nan, _ | _, S754_nan => NaN
  | S754_infinity _, _ => NaN
  | _, S754_zero _ => NaN
  | _, S754_infinity _ => x
  | S754_zero _, _ => x
  | S754_finite sx mx ex, S754_finite sy my ey =>
      let e := Z.min ex ey in
      let r := (Zpos mx * 2 ^ (ex - e)) mod (Zpos my * 2 ^ (ey - e)) in
      if r =? 0 then S754_zero sx
      else binary_normalize prec emax (cond_Zopp sx r) e false
  end.

(** The integer a Number is, if it is one. *)
Definition integer_value (x : number) : option Z :=
  match x with
  | S754_zero _ => Some 0
  | S754_finite s m e =>
      match e with
      | Zneg p =>
          if Zpos m mod 2 ^ Zpos p =? 0
          then Some (cond_Zopp s (Zpos m / 2 ^ Zpos p))
          else None
      | _ => Some (cond_Zopp s (Zpos m * 2 ^ e))
      end
  | _ => None
  end.

(** [s.padStart(2, "0")] *)
Definition padStart2 (s : string) : string :=
  if decide (2 ≤ String.length s)%nat then s else zeros (2 - String.length s) +:+ s.

Section FormatSeconds.
(** [Number::toString] for the numbers that are neither integers of
    magnitude below 2^53 nor NaN nor infinite. *)
Variable Number_toString : number → string.

(** [x.toString()]: an integer below 2^53 in magnitude prints as its
    decimal digits; from there on the digits are the shortest that read
    back as the same Number, which is left to [Number_toString]. *)
Definition toString (x : number) : string :=
  match x with
  | S754_nan => "NaN"
  | S754_infinity false => "Infinity"
  | S754_infinity true => "-Infinity"
  | _ =>
      match integer_value x with
      | Some n => if Z.abs n <? 2 ^ 53 then pretty n else Number_toString x
      | None => Number_toString x
      end
  end.

(** [formatSeconds(total)] *)
Definition formatSeconds (total : number) : string :=
  let m := padStart2 (toString (Math_floor (div total (of_Z 60)))) in
  let s := padStart2 (toString (Math_floor (remainder total (of_Z 60)))) in
  m +:+ ":" +:+ s.

End FormatSeconds.

(** What [tick] sets [secondsLeft] to, [dt] milliseconds after the
    recording started. *)
Definition left_after (dt : Z) : number :=
  Math_max (of_Z 0) (sub (of_Z 60) (div (of_Z dt) (of_Z 1000))).

(** A Number that is not below zero, by its shape. *)
Inductive nonneg_form : number → Prop :=
  | nonneg_zero : nonneg_form (S754_zero false)
  | nonneg_infinity : nonneg_form (S754_infinity false)
  | nonneg_finite m e : nonneg_form (S754_finite false m e).

(** A Number that is not above zero, by its shape. *)
Inductive nonpos_form : number → Prop :=
  | nonpos_zero : nonpos_form (S754_zero true)
  | nonpos_infinity : nonpos_form (S754_infinity true)
  | nonpos_finite m e : nonpos_form (S754_finite true m e).

(** What [secondsLeft] may be: a Number from 0 to 60. *)
Definition upto_60 (x : number) : Prop :=
  wf x = true ∧ isFinite x = true ∧ negative x = false ∧ (to_Q x <= 60)%Q.

#[global] Arguments Math_floor : simpl never.
#[global] Arguments remainder : simpl never.
#[global] Arguments toString : simpl never.
#[global] Arguments formatSeconds : simpl never.
#[global] Arguments left_after : simpl never.

#[global] Instance number_eq_dec : EqDecision number.
Proof. solve_decision. Defined.

(** [x] lies between [A / 2048] and [B / 2048], and is not a negative
    zero. *)
Definition within (A B : Z) (x : number) : Prop :=
  match x with
  | S754_zero false => A ≤ 0 ≤ B
  | S754_finite false p e => e ≤ -11 ∧ A * 2 ^ (-11 - e) ≤ Zpos p ≤ B * 2 ^ (-11 - e)
  | _ => False
  end.

(** What the recording badge reads once [tick] has run [dt] milliseconds
    after the start: the whole seconds left of the minute. *)
Definition badge_after (dt : Z) : string :=
  if dt =? 0 then "01:00"
  else if dt <? 60000 then "00:" +:+ padStart2 (pretty (59 - (dt - 1) / 1000))
  else "00:00".

(** Two and a half seconds into a recording, and the callback waiting for
    the next animation frame. *)
Definition mid_recording_world : World :=
  Eval vm_compute in
    default (mount 0)
      (run plain_toString
         ([ClickOpen camera; ClickStart camera] ++ ticking 1 ++ [TimePasses 2500]) (mount 0)).

Definition first_frame : Frame := {| frame_rec := 0%nat; frame_startedAt := 5000 |}.




(** * The page and its promises

    [ensureStream], [start] and [handleFilePick] are async functions: a
    call runs to its first [await] and goes on when the promise it waits
    for settles, after whatever else has happened on the page in between.
    [ensureStream acq], [start acq] and [handleFilePick f probe] above are
    these functions run in one piece, as a call goes when nothing comes
    between its start and the settling of its promises.  Here they are cut
    at their awaits, and the event loop keeps the calls that wait. *)

(** [ensureStream], from [getUserMedia]'s stream of [tracks] tracks up to
    [await videoRef.current.play()]; the flag tells whether there is a
    video element to play. *)
Definition ensureStream_granted (tracks : nat) : M (StreamId * bool) :=
  stream ← (λ w, Returned (length (streams (browser w)))
                   (put_streams (streams (browser w) ++ [replicate tracks true]) w));
  modify (put_streamRef (Some stream)) ;;
  video ← gets (λ w, videoRef (refs w));
  match video with
  | Some _ =>
      modify (put_videoRef (Some {| srcObject := Some stream |})) ;;
      mret (stream, true)
  | None => mret (stream, false)
  end.

(** [ensureStream], once [play()] has resolved or there was nothing to
    play. *)
Definition ensureStream_ready (stream : StreamId) : M StreamId :=
  setStatus Ready ;;
  mret stream.

(** [start], up to [await ensureStream()]. *)
Definition start_enter : M unit :=
  setError EmptyString ;;
  setBlobUrl None ;;
  setRecordedBlob None ;;
  setAccuracy None.

(** [start], from the stream [ensureStream] returned to the end of its
    [try]. *)
Definition start_arm (stream : StreamId) : M unit :=
  modify (put_chunksRef []) ;;
  setCountdown 5 ;;
  setStatus Countdown ;;
  id ← setInterval 5 stream;
  modify (put_countdownTimerRef (Some id)).

(** The [catch] of [start]. *)
Definition start_catch (e : string) : M unit :=
  setError e ;;
  setStatus Error.

(** Who called [ensureStream]: the Open Camera button, or [start]. *)
Inductive Caller := ByOpen | ByStart.

#[global] Instance Caller_eq_dec : EqDecision Caller.
Proof. solve_decision. Defined.

(** What the caller does with the stream [ensureStream] returns, and with
    what it throws: the button drops both; [start] goes on in its [try],
    or to its [catch]. *)
Definition returned (by_whom : Caller) (stream : StreamId) : M unit :=
  match by_whom with
  | ByOpen => mret tt
  | ByStart => try_catch (start_arm stream) start_catch
  end.

Definition rejected (by_whom : Caller) (e : string) : M unit :=
  match by_whom with
  | ByOpen => throw e
  | ByStart => start_catch e
  end.

(** [handleFilePick], up to [await validateDurationApprox60(f)]: the
    promise's executor has made the object URL and set it as the source of
    a video element. *)
Definition handleFilePick_enter (f : option File) : M (option (File * Url)) :=
  setSelectedFile None ;;
  setSelectedDuration None ;;
  setError EmptyString ;;
  match f with
  | None => mret None
  | Some f => url ← createObjectURL; mret (Some (f, url))
  end.

Section Page.

Variable Number_toString : number → string.

(** [handleFilePick], from the settling of the probe on: [onloadedmetadata]
    or [onerror] revokes the URL and resolves the promise. *)
Definition handleFilePick_resume (f : File) (url : Url) (probe : Probe) : M unit :=
  revokeObjectURL url ;;
  let dur := probe_duration probe in
  setSelectedDuration (Some dur) ;;
  if rejects dur then
    setError (duration_message Number_toString dur)
  else setSelectedFile (Some f).

(** A call suspended at an [await], with what its promise settles to. *)
Inductive Await :=
  | AwaitMedia (acq : Acquire) (by_whom : Caller)       (* await getUserMedia(...) *)
  | AwaitPlay (stream : StreamId) (play : option string) (by_whom : Caller)
                                                        (* await video.play() *)
  | AwaitProbe (f : File) (url : Url) (probe : Probe).  (* await validateDuration... *)

(** The page: the component and the browser, and the calls that wait. *)
Record Page := { world : World; awaiting : list Await }.

(** A page on which no call waits. *)
Definition at_rest (w : World) : Page := {| world := w; awaiting := [] |}.

(** What happens on the page: an event of the component, or the promise
    of the [i]-th waiting call settles. *)
Inductive Happening :=
  | Does (ev : Event)
  | Settles (i : nat).

(** A waiting call goes on to its next [await] or to its end. *)
Definition resume (a : Await) (w : World) : World * list Await :=
  match a with
  | AwaitMedia (AcqRejected e) by_whom => (settle (rejected by_whom e) w, [])
  | AwaitMedia (AcqGranted tracks play) by_whom =>
      match ensureStream_granted tracks w with
      | Returned (stream, true) w' => (w', [AwaitPlay stream play by_whom])
      | Returned (stream, false) w' =>
          (settle (s ← ensureStream_ready stream; returned by_whom s) w', [])
      | Thrown _ w' => (w', [])
      end
  | AwaitPlay stream None by_whom =>
      (settle (s ← ensureStream_ready stream; returned by_whom s) w, [])
  | AwaitPlay _ (Some e) by_whom => (settle (rejected by_whom e) w, [])
  | AwaitProbe f url probe => (settle (handleFilePick_resume f url probe) w, [])
  end.

(** One happening.  A click on Open Camera or Start that finds a stream in
    [streamRef] goes through in one piece: [ensureStream] returns at once,
    and what follows an [await] of a settled promise runs before any other
    event.  Otherwise the call waits for [getUserMedia].  A picked file
    waits for its probe. *)
Definition happen (h : Happening) (p : Page) : option Page :=
  match h with
  | Does ev =>
      if disabled ev (world p) then None
      else
        match ev with
        | ClickOpen acq =>
            match streamRef (refs (world p)) with
            | Some _ => Some p
            | None =>
                Some {| world := world p;
                        awaiting := awaiting p ++ [AwaitMedia acq ByOpen] |}
            end
        | ClickStart acq =>
            let w := settle start_enter (world p) in
            match streamRef (refs w) with
            | Some s =>
                Some {| world := settle (returned ByStart s) w; awaiting := awaiting p |}
            | None =>
                Some {| world := w; awaiting := awaiting p ++ [AwaitMedia acq ByStart] |}
            end
        | PickFile f probe =>
            match handleFilePick_enter f (world p) with
            | Returned (Some (f, url)) w =>
                Some {| world := w; awaiting := awaiting p ++ [AwaitProbe f url probe] |}
            | Returned None w | Thrown _ w =>
                Some {| world := w; awaiting := awaiting p |}
            end
        | _ =>
            match handle Number_toString ev (world p) with
            | Some w => Some {| world := w; awaiting := awaiting p |}
            | None => None
            end
        end
  | Settles i =>
      match awaiting p !! i with
      | Some a =>
          let '(w, more) := resume a (world p) in
          Some {| world := w; awaiting := delete i (awaiting p) ++ more |}
      | None => None
      end
  end.

(** What happens on the page, in turn. *)
Fixpoint drive (hs : list Happening) (p : Page) : option Page :=
  match hs with
  | [] => Some p
  | h :: hs' =>
      match happen h p with
      | Some p' => drive hs' p'
      | None => None
      end
  end.

(** Nothing overtakes a promise: every event of the component finds no
    call waiting. *)
Fixpoint unhurried (hs : list Happening) (p : Page) : bool :=
  match hs with
  | [] => true
  | h :: hs' =>
      match h with
      | Does _ => bool_decide (awaiting p = [])
      | Settles _ => true
      end
      && match happen h p with
         | Some p' => unhurried hs' p'
         | None => true
         end
  end.

(** A waiting call, gone on to its end. *)
Definition finish (a : Await) (w : World) : World :=
  match resume a w with
  | (w', a' :: _) => fst (resume a' w')
  | (w', []) => w'
  end.

(** The page once every waiting call has gone on to its end, in order. *)
Definition settled (p : Page) : World :=
  foldl (λ w a, finish a w) (world p) (awaiting p).

End Page.

(** A run is on time when time never passes the moment a pending timer is
    due: the timer fires first. *)
Fixpoint on_time (Number_toString : number → string) (evs : list Event) (w : World) : bool :=
  match evs with
  | [] => true
  | ev :: evs' =>
      match ev with
      | TimePasses dt =>
          bool_decide (map_Forall (λ _ t, now (browser w) + dt ≤ timer_due t)
                         (timers (browser w)))
      | _ => true
      end
      && match step Number_toString ev w with
         | Some w' => on_time Number_toString evs' w'
         | None => true
         end
  end.

(** Two clicks on Open Camera before the camera answers; the first call
    resolves, Start is clicked and a recording begins; one second into it
    the second call resolves, and Start is clicked again. *)
Definition second_request : list Happening :=
  [Does (ClickOpen camera); Does (ClickOpen camera); Settles 0; Settles 1;
   Does (ClickStart camera)]
  ++ (Does <$> ticking 1)
  ++ [Does (TimePasses 1000); Settles 0; Settles 0; Does (ClickStart camera)]
  ++ (Does <$> ticking 3).

Definition late_ready_page : Page :=
  Eval vm_compute in
    default (at_rest (mount 0))
      (drive plain_toString
         ([Does (ClickOpen camera); Does (ClickOpen camera); Settles 0; Settles 1;
           Does (ClickStart camera)]
          ++ (Does <$> ticking 1)
          ++ [Does (TimePasses 1000); Settles 0])
         (at_rest (mount 0))).

(** [n] seconds of a countdown: each second the interval [id] fires. *)
Definition counting_down (n : nat) (p : Platform) (id : TimerId) : list Event :=
  concat (replicate n [TimePasses 1000; TimerFires id p]).

(** The countdown interval [id] is pending in [w] with [remaining] to go,
    due in a second, beside the timers [others], and [countdownTimerRef]
    names it. *)
Definition Counting (id : TimerId) (s : StreamId) (remaining : Z)
    (others : gmap TimerId Timer) (w : World) : Prop :=
  timers (browser w) = <[id := Interval (now (browser w) + 1000) remaining s]> others ∧
  countdownTimerRef (refs w) = Some id ∧
  status (hooks w) = Countdown.

(** A recording that ends of its own accord fifty-eight seconds in: its
    stop event is delivered, and its deadline, timer 2, stays pending. *)
Definition ended_early_world : World :=
  Eval vm_compute in
    default (mount 0)
      (run plain_toString
         ([ClickOpen camera; ClickStart camera] ++ ticking 1
          ++ [TimePasses 58000; RecorderEnds 0%nat; RecorderStopped 0%nat]) (mount 0)).

(** Open Camera, and the camera's answer before anything else. *)
Definition opened : list Happening := [Does (ClickOpen camera); Settles 0; Settles 0].

(** * Facts about JavaScript numbers *)

Lemma digits2_pos_bounds (m : positive) :
  2 ^ (Zpos (digits2_pos m) - 1) ≤ Zpos m < 2 ^ Zpos (digits2_pos m).
Proof.
  induction m as [m IH | m IH |]; simpl digits2_pos.
  - rewrite Pos2Z.inj_succ.
    replace (Z.succ (Zpos (digits2_pos m)) - 1) with (Z.succ (Zpos (digits2_pos m) - 1)) by lia.
    rewrite !Z.pow_succ_r by lia. lia.
  - rewrite Pos2Z.inj_succ.
    replace (Z.succ (Zpos (digits2_pos m)) - 1) with (Z.succ (Zpos (digits2_pos m) - 1)) by lia.
    rewrite !Z.pow_succ_r by lia. lia.
  - simpl. lia.
Qed.

Lemma iter_xO_value (m d : positive) :
  Zpos (Pos.iter xO m d) = Zpos m * 2 ^ Zpos d.
Proof.
  induction d as [| d IH] using Pos.peano_ind.
  - simpl. lia.
  - rewrite Pos.iter_succ, Pos2Z.inj_succ, Z.pow_succ_r by lia.
    rewrite Pos2Z.inj_xO, IH. lia.
Qed.

Lemma iter_xO_digits (m d : positive) :
  digits2_pos (Pos.iter xO m d) = (digits2_pos m + d)%positive.
Proof.
  induction d as [| d IH] using Pos.peano_ind.
  - simpl. lia.
  - rewrite Pos.iter_succ. simpl. rewrite IH. lia.
Qed.

Lemma pow2_xO (p : positive) : 2 ^ Zpos p~0 = 2 ^ Zpos p * 2 ^ Zpos p.
Proof. rewrite <- Z.pow_add_r by lia. f_equal. lia. Qed.

Lemma pow2_xI (p : positive) : 2 ^ Zpos p~1 = 2 * (2 ^ Zpos p * 2 ^ Zpos p).
Proof.
  rewrite <- Z.pow_add_r, <- Z.pow_succ_r by lia. f_equal. lia.
Qed.

Lemma shr_1_m (mrs : shr_record) :
  0 ≤ shr_m mrs → shr_m (shr_1 mrs) = shr_m mrs / 2.
Proof.
  destruct mrs as [m r s]; simpl. intros Hm.
  destruct m as [| [p | p |] | p]; cbn [shr_m shr_1]; try lia; try reflexivity.
  - apply Z.div_unique with 1; lia.
  - apply Z.div_unique with 0; lia.
Qed.

Lemma iter_shr_1_m (p : positive) (mrs : shr_record) :
  0 ≤ shr_m mrs → shr_m (SpecFloat.iter_pos shr_1 p mrs) = shr_m mrs / 2 ^ Zpos p.
Proof.
  revert mrs. induction p as [p IH | p IH |]; intros mrs Hm; simpl SpecFloat.iter_pos.
  - assert (H1 : 0 ≤ shr_m (shr_1 mrs)) by (rewrite shr_1_m by done; apply Z.div_pos; lia).
    assert (H2 : 0 ≤ shr_m (SpecFloat.iter_pos shr_1 p (shr_1 mrs)))
      by (rewrite IH by done; apply Z.div_pos; [lia | apply Z.pow_pos_nonneg; lia]).
    rewrite IH, IH, shr_1_m by done.
    rewrite !Z.div_div by (try apply Z.pow_pos_nonneg; lia).
    f_equal. rewrite pow2_xI. lia.
  - assert (H2 : 0 ≤ shr_m (SpecFloat.iter_pos shr_1 p mrs))
      by (rewrite IH by done; apply Z.div_pos; [lia | apply Z.pow_pos_nonneg; lia]).
    rewrite IH, IH by done.
    rewrite !Z.div_div by (try apply Z.pow_pos_nonneg; lia).
    f_equal. rewrite pow2_xO. lia.
  - rewrite shr_1_m by done. reflexivity.
Qed.

Lemma Zdigits2_bounds (m : Z) :
  0 < m → 2 ^ (Zdigits2 m - 1) ≤ m < 2 ^ Zdigits2 m ∧ 0 < Zdigits2 m.
Proof.
  destruct m as [| p | p]; try lia. intros _. simpl Zdigits2.
  split; [apply digits2_pos_bounds | lia].
Qed.

Lemma fexp_eq (e : Z) : fexp prec emax e = Z.max (e - 53) (-1074).
Proof. reflexivity. Qed.

Lemma shr_m_of_loc (m : Z) (l : location) : shr_m (shr_record_of_loc m l) = m.
Proof. by destruct l as [| []]. Qed.

Lemma round_nearest_even_ge (m : Z) (l : location) : m ≤ round_nearest_even m l.
Proof. destruct l as [| []]; simpl; try lia. destruct (Z.even m); lia. Qed.

Lemma shr_fexp_positive (m e : Z) (l : location) :
  0 < m → (-1074 ≤ e ∨ -1074 ≤ Zdigits2 m + e - 53) →
  ∃ mrs' e', shr_fexp prec emax m e l = (mrs', e') ∧
             0 < shr_m mrs' ∧ e ≤ e' ∧ Zdigits2 m + e - 53 ≤ e'.
Proof.
  intros Hm Hr. unfold shr_fexp. rewrite fexp_eq.
  destruct (Zdigits2_bounds m Hm) as [[Hlo Hhi] Hd].
  destruct (Z.max (Zdigits2 m + e - 53) (-1074) - e) as [| n | n] eqn:Hn; simpl shr.
  - eexists _, _. split; [done |]. rewrite shr_m_of_loc. lia.
  - eexists _, _. split; [done |].
    rewrite iter_shr_1_m by (rewrite shr_m_of_loc; lia). rewrite shr_m_of_loc.
    assert (Hnd : Zpos n ≤ Zdigits2 m - 1) by lia.
    split; [| lia].
    apply Z.div_str_pos. split; [apply Z.pow_pos_nonneg; lia |].
    etransitivity; [| exact Hlo]. apply Z.pow_le_mono_r; lia.
  - eexists _, _. split; [done |]. rewrite shr_m_of_loc. lia.
Qed.

Lemma binary_round_aux_normal (s : bool) (m e : Z) (l : location) :
  0 < m → -1074 ≤ Zdigits2 m + e - 53 →
  binary_round_aux prec emax s m e l = S754_infinity s ∨
  ∃ m' e', binary_round_aux prec emax s m e l = S754_finite s m' e' ∧
           Zdigits2 m + e - 53 ≤ e'.
Proof.
  intros Hm Hr. unfold binary_round_aux.
  destruct (shr_fexp_positive m e l Hm (or_intror Hr)) as (mrs1 & e1 & -> & Hm1 & He1 & Hf1).
  pose proof (round_nearest_even_ge (shr_m mrs1) (loc_of_shr_record mrs1)) as Hrne.
  destruct (shr_fexp_positive (round_nearest_even (shr_m mrs1) (loc_of_shr_record mrs1))
              e1 loc_Exact) as (mrs2 & e2 & -> & Hm2 & He2 & Hf2); [lia | lia |].
  destruct (shr_m mrs2) as [| m' | m'] eqn:Hm'; try lia.
  destruct (e2 <=? emax - prec); [right | by left].
  exists m', e2. split; [done | lia].
Qed.

Lemma shl_align_spec (mx : positive) (ex ex' : Z) :
  ∃ mz ez, shl_align mx ex ex' = (mz, ez) ∧
           ez = Z.min ex ex' ∧ Zpos mz = Zpos mx * 2 ^ (ex - ez) ∧
           Zpos (digits2_pos mz) + ez = Zpos (digits2_pos mx) + ex.
Proof.
  unfold shl_align. destruct (ex' - ex) as [| d | d] eqn:Hd.
  - exists mx, ex. rewrite Z.sub_diag, Z.pow_0_r, Z.mul_1_r. split_and!; try done; lia.
  - exists mx, ex. rewrite Z.sub_diag, Z.pow_0_r, Z.mul_1_r. split_and!; try done; lia.
  - eexists _, _. split; [done |]. split; [lia |].
    rewrite iter_xO_value, iter_xO_digits, Pos2Z.inj_add.
    replace (ex - ex') with (Zpos d) by lia. split; [reflexivity | lia].
Qed.

Lemma binary_round_normal (s : bool) (mx : positive) (ex : Z) :
  -1074 ≤ Zpos (digits2_pos mx) + ex - 53 →
  binary_round prec emax s mx ex = S754_infinity s ∨
  ∃ m' e', binary_round prec emax s mx ex = S754_finite s m' e' ∧
           Zpos (digits2_pos mx) + ex - 53 ≤ e'.
Proof.
  intros Hr. unfold binary_round.
  destruct (shl_align_spec mx ex (fexp prec emax (Zpos (digits2_pos mx) + ex)))
    as (mz & ez & -> & Hez & Hmz & Hdz).
  destruct (binary_round_aux_normal s (Zpos mz) ez loc_Exact) as [H | (m' & e' & H & He)];
    [lia | simpl Zdigits2; lia | by left |].
  right. exists m', e'. split; [done |]. simpl Zdigits2 in He. lia.
Qed.

(** When the mantissa fits, rounding is exact. *)
Lemma binary_round_exact (s : bool) (mx : positive) (ex : Z) :
  Zpos (digits2_pos mx) ≤ 53 →
  -1074 ≤ Zpos (digits2_pos mx) + ex - 53 ≤ 971 →
  ∃ mz, binary_round prec emax s mx ex
        = S754_finite s mz (Zpos (digits2_pos mx) + ex - 53) ∧
        Zpos mz = Zpos mx * 2 ^ (53 - Zpos (digits2_pos mx)) ∧
        digits2_pos mz = 53%positive.
Proof.
  intros Hd Hr. unfold binary_round.
  destruct (shl_align_spec mx ex (fexp prec emax (Zpos (digits2_pos mx) + ex)))
    as (mz & ez & -> & Hez & Hmz & Hdz).
  rewrite fexp_eq in Hez.
  assert (Hez' : ez = Zpos (digits2_pos mx) + ex - 53) by lia.
  assert (Hdz' : digits2_pos mz = 53%positive) by lia.
  exists mz. split; [| split; [rewrite Hmz; f_equal; f_equal; lia | done]].
  unfold binary_round_aux, shr_fexp.
  cbn [shr_m loc_of_shr_record round_nearest_even shr_record_of_loc Zdigits2].
  rewrite Hdz', fexp_eq.
  replace (Z.max (53 + ez - 53) (-1074) - ez) with 0 by lia.
  cbn [shr shr_m loc_of_shr_record round_nearest_even shr_record_of_loc Zdigits2].
  rewrite Hdz', fexp_eq.
  replace (Z.max (53 + ez - 53) (-1074) - ez) with 0 by lia.
  cbn [shr shr_m].
  replace (ez <=? emax - prec) with true; [by rewrite Hez' |].
  symmetry. apply Z.leb_le. unfold emax, prec. lia.
Qed.

(** ** The tolerance test of [handleFilePick] *)

Lemma of_Z_60 : of_Z 60 = S754_finite false m60 (-47).
Proof. reflexivity. Qed.

Lemma of_Z_3 : of_Z 3 = S754_finite false 6755399441055744 (-51).
Proof. reflexivity. Qed.

Lemma bounded_inv (m : positive) (e : Z) :
  bounded prec emax m e = true →
  Zpos (digits2_pos m) ≤ 53 ∧ -1074 ≤ e ≤ 971 ∧
  (Zpos (digits2_pos m) = 53 ∨ e = -1074).
Proof.
  unfold bounded, canonical_mantissa. rewrite fexp_eq.
  intros [H1 H2]%andb_prop. apply Z.eqb_eq in H1. apply Z.leb_le in H2.
  unfold emax, prec in H2. lia.
Qed.

Lemma gt_three_far (s : bool) (m : positive) (e : Z) :
  -50 ≤ e → gt (abs (S754_finite s m e)) (of_Z 3) = true.
Proof.
  intros He. rewrite of_Z_3. unfold gt, abs, SFltb. cbn [SFabs SFcompare].
  destruct (Z.compare_spec (-51) e); try lia; try reflexivity.
Qed.

Lemma gt_three_round (s : bool) (mx : positive) (ex : Z) :
  3 ≤ Zpos (digits2_pos mx) + ex →
  gt (abs (binary_round prec emax s mx ex)) (of_Z 3) = true.
Proof.
  intros H. destruct (binary_round_normal s mx ex) as [-> | (m' & e' & -> & He)]; [lia | done |].
  apply gt_three_far. lia.
Qed.

Lemma digits2_pos_ge (m : positive) (k : Z) :
  0 ≤ k → 2 ^ k ≤ Zpos m → k + 1 ≤ Zpos (digits2_pos m).
Proof.
  intros Hk H. destruct (digits2_pos_bounds m) as [_ Hhi].
  destruct (Z.le_gt_cases (k + 1) (Zpos (digits2_pos m))) as [|Hlt]; [done |].
  assert (2 ^ Zpos (digits2_pos m) ≤ 2 ^ k) by (apply Z.pow_le_mono_r; lia). lia.
Qed.

Lemma digits2_pos_le (m : positive) (k : Z) :
  0 ≤ k → Zpos m < 2 ^ k → Zpos (digits2_pos m) ≤ k.
Proof.
  intros Hk H. destruct (digits2_pos_bounds m) as [Hlo _].
  destruct (Z.le_gt_cases (Zpos (digits2_pos m)) k) as [|Hlt]; [done |].
  assert (2 ^ k ≤ 2 ^ (Zpos (digits2_pos m) - 1)) by (apply Z.pow_le_mono_r; lia). lia.
Qed.

Lemma pow2_split (a b : Z) : 0 ≤ a → 0 ≤ b → 2 ^ (a + b) = 2 ^ a * 2 ^ b.
Proof. intros. apply Z.pow_add_r; lia. Qed.

(** The subtraction [d - 60], for a finite [d], before rounding. *)
Lemma sub_60_finite (s : bool) (m : positive) (e : Z) :
  sub (S754_finite s m e) (of_Z 60)
  = binary_normalize prec emax
      (cond_Zopp s (Zpos m * 2 ^ (e - Z.min e (-47))) - Zpos m60 * 2 ^ (-47 - Z.min e (-47)))
      (Z.min e (-47)) false.
Proof.
  rewrite of_Z_60. unfold sub. cbn [SFsub].
  destruct (shl_align_spec m e (Z.min e (-47))) as (mz & ez & -> & Hez & Hmz & _).
  destruct (shl_align_spec m60 (-47) (Z.min e (-47))) as (mz' & ez' & -> & Hez' & Hmz' & _).
  cbn [fst cond_Zopp]. rewrite Hmz, Hmz'.
  replace ez with (Z.min e (-47)) by lia. replace ez' with (Z.min e (-47)) by lia.
  reflexivity.
Qed.

Lemma gt_three_normalize (z ez : Z) :
  2 ^ (2 - ez) ≤ Z.abs z → ez ≤ 0 →
  gt (abs (binary_normalize prec emax z ez false)) (of_Z 3) = true.
Proof.
  intros Hz Hez.
  assert (0 < 2 ^ (2 - ez)) by (apply Z.pow_pos_nonneg; lia).
  destruct z as [| p | p]; cbn [binary_normalize]; try lia.
  - apply gt_three_round. pose proof (digits2_pos_ge p (2 - ez)). lia.
  - apply gt_three_round. pose proof (digits2_pos_ge p (2 - ez)). lia.
Qed.

Lemma tolerance_finite (s : bool) (m : positive) (e : Z) :
  bounded prec emax m e = true →
  gt (abs (sub (S754_finite s m e) (of_Z 60))) (of_Z 3) = false ↔ near60 s m e.
Proof.
  intros (Hd & He & Hc)%bounded_inv. rewrite sub_60_finite.
  destruct (digits2_pos_bounds m) as [Hlo Hhi].
  assert (Hm53 : Zpos m < 2 ^ 53).
  { eapply Z.lt_le_trans; [exact Hhi |]. apply Z.pow_le_mono_r; lia. }
  assert (H60 : Zpos m60 = 60 * 2 ^ 47) by reflexivity.
  destruct (decide (near60 s m e)) as [Hn | Hn].
  - split; [done | intros _]. destruct Hn as (-> & -> & Hr).
    change (Z.min (-47) (-47)) with (-47). change (-47 - -47) with 0.
    rewrite Z.pow_0_r, !Z.mul_1_r. cbn [cond_Zopp].
    destruct (Zpos m - Zpos m60) as [| z | z] eqn:Hz; cbn [binary_normalize]; [done | |].
    + assert (Hzd : Zpos (digits2_pos z) ≤ 49) by (apply digits2_pos_le; lia).
      destruct (binary_round_exact false z (-47)) as (mz & -> & Hmz & Hdz); [lia | |].
      { pose proof (Pos2Z.is_pos (digits2_pos z)). lia. }
      rewrite of_Z_3. unfold gt, abs, SFltb. cbn [SFabs SFcompare].
      destruct (Z.compare_spec (-51) (Zpos (digits2_pos z) + -47 - 53)) as [Heq | | ];
        [| lia | done].
      rewrite Pos.compare_cont_spec. cbn [Pos.switch_Eq].
      replace (Zpos (digits2_pos z)) with 49 in Hmz by lia.
      destruct (Pos.compare_spec 6755399441055744 mz) as [ | Hlt | ]; [done | | done].
      apply Pos2Z.pos_lt_pos in Hlt. change (2 ^ (53 - 49)) with 16 in Hmz. lia.
    + assert (Hzd : Zpos (digits2_pos z) ≤ 49) by (apply digits2_pos_le; lia).
      destruct (binary_round_exact true z (-47)) as (mz & -> & Hmz & Hdz); [lia | |].
      { pose proof (Pos2Z.is_pos (digits2_pos z)). lia. }
      rewrite of_Z_3. unfold gt, abs, SFltb. cbn [SFabs SFcompare].
      destruct (Z.compare_spec (-51) (Zpos (digits2_pos z) + -47 - 53)) as [Heq | | ];
        [| lia | done].
      rewrite Pos.compare_cont_spec. cbn [Pos.switch_Eq].
      replace (Zpos (digits2_pos z)) with 49 in Hmz by lia.
      destruct (Pos.compare_spec 6755399441055744 mz) as [ | Hlt | ]; [done | | done].
      apply Pos2Z.pos_lt_pos in Hlt. change (2 ^ (53 - 49)) with 16 in Hmz. lia.
  - split; [| done]. intros Habs. exfalso.
    enough (gt (abs (binary_normalize prec emax
               (cond_Zopp s (Zpos m * 2 ^ (e - Z.min e (-47)))
                - Zpos m60 * 2 ^ (-47 - Z.min e (-47))) (Z.min e (-47)) false)) (of_Z 3) = true)
      by congruence.
    clear Habs.
    destruct (Z.lt_trichotomy e (-47)) as [Hlt | [-> | Hgt]].
    + (* below the binade of 60: d < 32 *)
      replace (Z.min e (-47)) with e by lia. rewrite Z.sub_diag, Z.pow_0_r, Z.mul_1_r.
      apply gt_three_normalize; [| lia].
      assert (Hk : 2 ^ (-47 - e) * 2 ^ 47 * 2 ^ 2 = 2 ^ (2 - e)).
      { rewrite <- !pow2_split by lia. f_equal. lia. }
      assert (2 ≤ 2 ^ (-47 - e)).
      { change 2 with (2 ^ 1) at 1. apply Z.pow_le_mono_r; lia. }
      destruct s; cbn [cond_Zopp]; nia.
    + (* in the binade of 60 *)
      change (Z.min (-47) (-47)) with (-47). change (-47 - -47) with 0.
      rewrite Z.pow_0_r, !Z.mul_1_r.
      assert (Hm52 : 2 ^ 52 ≤ Zpos m).
      { destruct Hc as [Hc | Hc]; [| lia]. by rewrite Hc in Hlo. }
      destruct s; cbn [cond_Zopp].
      * apply gt_three_normalize; [| lia]. change (2 - -47) with 49. lia.
      * destruct (Zpos m - Zpos m60) as [| z | z] eqn:Hz; cbn [binary_normalize].
        { exfalso. apply Hn. unfold near60. lia. }
        { assert (Hzd : Zpos (digits2_pos z) ≤ 52) by (apply digits2_pos_le; lia).
          destruct (binary_round_exact false z (-47)) as (mz & -> & Hmz & Hdz); [lia | |].
          { pose proof (Pos2Z.is_pos (digits2_pos z)). lia. }
          assert (3 * 2 ^ 47 < Zpos z) by (unfold near60 in Hn; lia).
          pose proof (digits2_pos_ge z 48). 
          rewrite of_Z_3. unfold gt, abs, SFltb. cbn [SFabs SFcompare].
          destruct (Z.compare_spec (-51) (Zpos (digits2_pos z) + -47 - 53)) as [Heq | | ];
            [| done | lia].
          rewrite Pos.compare_cont_spec. cbn [Pos.switch_Eq].
          replace (Zpos (digits2_pos z)) with 49 in Hmz by lia.
          destruct (Pos.compare_spec 6755399441055744 mz) as [ Heq' | | Hlt ]; [ | done | ].
          - subst mz. change (2 ^ (53 - 49)) with 16 in Hmz. lia.
          - apply Pos2Z.pos_lt_pos in Hlt. change (2 ^ (53 - 49)) with 16 in Hmz. lia. }
        { assert (Hzd : Zpos (digits2_pos z) ≤ 52) by (apply digits2_pos_le; lia).
          destruct (binary_round_exact true z (-47)) as (mz & -> & Hmz & Hdz); [lia | |].
          { pose proof (Pos2Z.is_pos (digits2_pos z)). lia. }
          assert (3 * 2 ^ 47 < Zpos z) by (unfold near60 in Hn; lia).
          pose proof (digits2_pos_ge z 48). 
          rewrite of_Z_3. unfold gt, abs, SFltb. cbn [SFabs SFcompare].
          destruct (Z.compare_spec (-51) (Zpos (digits2_pos z) + -47 - 53)) as [Heq | | ];
            [| done | lia].
          rewrite Pos.compare_cont_spec. cbn [Pos.switch_Eq].
          replace (Zpos (digits2_pos z)) with 49 in Hmz by lia.
          destruct (Pos.compare_spec 6755399441055744 mz) as [ Heq' | | Hlt ]; [ | done | ].
          - subst mz. change (2 ^ (53 - 49)) with 16 in Hmz. lia.
          - apply Pos2Z.pos_lt_pos in Hlt. change (2 ^ (53 - 49)) with 16 in Hmz. lia. }
    + (* above the binade of 60: d >= 64 *)
      replace (Z.min e (-47)) with (-47) by lia. change (-47 - -47) with 0.
      rewrite Z.pow_0_r, Z.mul_1_r.
      apply gt_three_normalize; [| lia]. change (2 - -47) with 49.
      assert (Hm52 : 2 ^ 52 ≤ Zpos m).
      { destruct Hc as [Hc | Hc]; [| lia]. by rewrite Hc in Hlo. }
      assert (2 ≤ 2 ^ (e - -47)).
      { change 2 with (2 ^ 1) at 1. apply Z.pow_le_mono_r; lia. }
      destruct s; cbn [cond_Zopp]; nia.
Qed.

Lemma Qabs_within (a : Z) (b : positive) :
  (Qabs ((a # b) - 60) <= 3)%Q ↔ 57 * Zpos b ≤ a ≤ 63 * Zpos b.
Proof.
  rewrite Qabs_Qle_condition. unfold Qle, Qminus, Qplus, Qopp. simpl. lia.
Qed.

Lemma near60_real (s : bool) (m : positive) (e : Z) :
  bounded prec emax m e = true →
  near60 s m e ↔ (Qabs (to_Q (S754_finite s m e) - 60) <= 3)%Q.
Proof.
  intros (Hd & He & Hc)%bounded_inv. unfold near60, to_Q.
  destruct (digits2_pos_bounds m) as [Hlo Hhi].
  assert (Hm53 : Zpos m < 2 ^ 53).
  { eapply Z.lt_le_trans; [exact Hhi |]. apply Z.pow_le_mono_r; lia. }
  assert (Hm52 : e ≠ -1074 → 2 ^ 52 ≤ Zpos m).
  { intros. destruct Hc as [Hc | Hc]; [| lia]. by rewrite Hc in Hlo. }
  destruct e as [| p | p].
  - unfold inject_Z. rewrite Qabs_within. destruct s; cbn [cond_Zopp]; lia.
  - unfold inject_Z. rewrite Qabs_within.
    assert (0 < 2 ^ Zpos p) by (apply Z.pow_pos_nonneg; lia).
    destruct s; cbn [cond_Zopp]; nia.
  - rewrite Qabs_within, Pos2Z.inj_pow.
    assert (0 < 2 ^ Zpos p) by (apply Z.pow_pos_nonneg; lia).
    destruct s; cbn [cond_Zopp]; [lia |].
    destruct (Z.lt_trichotomy (Zpos p) 47) as [Hlt | [Heq | Hgt]].
    + assert (2 * 2 ^ Zpos p ≤ 2 ^ 47).
      { rewrite <- Z.pow_succ_r by lia. apply Z.pow_le_mono_r; lia. }
      lia.
    + rewrite Heq. split; [lia |]. intros. split_and!; try done; lia.
    + assert (2 * 2 ^ 47 ≤ 2 ^ Zpos p).
      { change (2 * 2 ^ 47) with (2 ^ 48). apply Z.pow_le_mono_r; lia. }
      lia.
Qed.

(** The test of [handleFilePick] passes exactly the finite durations
    whose real value lies within 3 of 60. *)
Lemma tolerance_real (d : number) :
  wf d = true →
  negb (isFinite d) || gt (abs (sub d (of_Z 60))) (of_Z 3) = false
  ↔ isFinite d = true ∧ (Qabs (to_Q d - 60) <= 3)%Q.
Proof.
  intros Hwf. destruct d as [s | s | | s m e]; cbn [isFinite negb orb].
  - split; [by destruct s | intros [_ H]; exfalso]. revert H. unfold to_Q.
    rewrite Qabs_Qle_condition. unfold Qle, Qminus, Qplus, Qopp. simpl. lia.
  - split; [done | by intros [? _]].
  - split; [done | by intros [? _]].
  - rewrite tolerance_finite by done. rewrite near60_real by done. tauto.
Qed.

(** ** [toFixed(2)] *)

Lemma Zdigits2_nonneg (m : Z) : 0 ≤ Zdigits2 m.
Proof. destruct m; simpl; lia. Qed.

Lemma Zdigits2_upper (m : Z) : 0 ≤ m → m < 2 ^ Zdigits2 m.
Proof.
  intros Hm. destruct (decide (m = 0)) as [-> | Hne]; [simpl; lia |].
  apply Zdigits2_bounds; lia.
Qed.

Lemma Zdigits2_le (m k : Z) : 0 ≤ m → 0 ≤ k → m < 2 ^ k → Zdigits2 m ≤ k.
Proof.
  intros Hm Hk H. destruct m as [| p | p]; simpl; try lia.
  by apply digits2_pos_le.
Qed.

Lemma shr_fexp_upper (m e : Z) (l : location) :
  0 ≤ m →
  ∃ mrs' e', shr_fexp prec emax m e l = (mrs', e') ∧
             0 ≤ shr_m mrs' < 2 ^ 53 ∧
             e' = Z.max e (fexp prec emax (Zdigits2 m + e)).
Proof.
  intros Hm. unfold shr_fexp. rewrite fexp_eq.
  pose proof (Zdigits2_upper m Hm) as Hhi. pose proof (Zdigits2_nonneg m) as Hd.
  destruct (Z.max (Zdigits2 m + e - 53) (-1074) - e) as [| n | n] eqn:Hn; simpl shr.
  - eexists _, _. split; [done |]. rewrite shr_m_of_loc. split; [| lia].
    split; [done |]. eapply Z.lt_le_trans; [exact Hhi |]. apply Z.pow_le_mono_r; lia.
  - eexists _, _. split; [done |].
    rewrite iter_shr_1_m by (rewrite shr_m_of_loc; lia). rewrite shr_m_of_loc.
    assert (0 < 2 ^ Zpos n) by (apply Z.pow_pos_nonneg; lia).
    split; [| lia]. split; [apply Z.div_pos; lia |].
    apply Z.div_lt_upper_bound; [done |].
    rewrite <- pow2_split by lia.
    eapply Z.lt_le_trans; [exact Hhi |]. apply Z.pow_le_mono_r; lia.
  - eexists _, _. split; [done |]. rewrite shr_m_of_loc. split; [| lia].
    split; [done |]. eapply Z.lt_le_trans; [exact Hhi |]. apply Z.pow_le_mono_r; lia.
Qed.

Lemma round_nearest_even_le (m : Z) (l : location) : round_nearest_even m l ≤ m + 1.
Proof. destruct l as [| []]; simpl; try lia. destruct (Z.even m); lia. Qed.

Lemma binary_round_aux_upper (s : bool) (m e : Z) (l : location) :
  0 ≤ m →
  ∃ m' e', 0 ≤ m' < 2 ^ 53 ∧
           e' ≤ Z.max (Z.max e (Zdigits2 m + e - 53)) (-1074) + 1 ∧
           binary_round_aux prec emax s m e l
           = match m' with
             | Z0 => S754_zero s
             | Zpos p => if e' <=? emax - prec then S754_finite s p e' else S754_infinity s
             | Zneg _ => S754_nan
             end.
Proof.
  intros Hm. unfold binary_round_aux.
  destruct (shr_fexp_upper m e l Hm) as (mrs1 & e1 & -> & Hm1 & He1).
  pose proof (round_nearest_even_ge (shr_m mrs1) (loc_of_shr_record mrs1)) as Hge.
  pose proof (round_nearest_even_le (shr_m mrs1) (loc_of_shr_record mrs1)) as Hle.
  destruct (shr_fexp_upper (round_nearest_even (shr_m mrs1) (loc_of_shr_record mrs1))
              e1 loc_Exact) as (mrs2 & e2 & -> & Hm2 & He2); [lia |].
  exists (shr_m mrs2), e2. split; [done |]. split; [| done].
  rewrite fexp_eq in He1, He2.
  assert (Zdigits2 (round_nearest_even (shr_m mrs1) (loc_of_shr_record mrs1)) ≤ 54).
  { apply Zdigits2_le; [lia | lia |]. change (2 ^ 54) with (2 * 2 ^ 53). lia. }
  lia.
Qed.

Lemma of_Z_100 : of_Z 100 = S754_finite false 7036874417766400 (-46).
Proof. reflexivity. Qed.

(** A probability times 100 is a finite number of small magnitude, and
    not a negative one. *)
Lemma mul_100_small (p : number) :
  wf p = true → isFinite p = true → (0 <= to_Q p)%Q → (to_Q p <= 1)%Q →
  isFinite (mul p (of_Z 100)) = true ∧
  huge (mul p (of_Z 100)) = false ∧
  negative (mul p (of_Z 100)) = false.
Proof.
  intros Hwf Hfin H0 H1. rewrite of_Z_100.
  destruct p as [s | s | | s m e]; try done.
  cbn [wf valid_binary] in Hwf. apply bounded_inv in Hwf as (Hd & He & Hc).
  destruct (digits2_pos_bounds m) as [Hlo Hhi].
  assert (Hs : s = false).
  { destruct s; [exfalso | done]. revert H0. unfold to_Q, Qle.
    destruct e as [| q | q]; simpl; intros; try lia.
    all: pose proof (Z.pow_pos_nonneg 2 (Zpos q)); nia. }
  subst s.
  assert (Hde : Zpos (digits2_pos m) + e ≤ 1).
  { revert H1. unfold to_Q, Qle, inject_Z. destruct e as [| q | q]; cbn [cond_Zopp Qnum Qden].
    - intros. assert (Zpos m < 2 ^ 1) by (simpl; lia).
      pose proof (digits2_pos_le m 1). lia.
    - intros. assert (2 ≤ 2 ^ Zpos q).
      { change 2 with (2 ^ 1) at 1. apply Z.pow_le_mono_r; lia. }
      nia.
    - rewrite Pos2Z.inj_pow. intros.
      assert (Zpos m < 2 ^ (Zpos q + 1)) by (rewrite pow2_split by lia; lia).
      pose proof (digits2_pos_le m (Zpos q + 1)). lia. }
  unfold mul. cbn [SFmul xorb].
  destruct (binary_round_aux_upper false (Zpos (m * 7036874417766400)) (e + -46) loc_Exact)
    as (m' & e' & Hm' & He' & ->); [lia |].
  assert (Hdp : Zdigits2 (Zpos (m * 7036874417766400)) ≤ Zpos (digits2_pos m) + 53).
  { apply Zdigits2_le; [lia | lia |]. rewrite Pos2Z.inj_mul, pow2_split by lia.
    assert (7036874417766400 < 2 ^ 53) by reflexivity. nia. }
  assert (He44 : e' ≤ -44) by lia.
  destruct m' as [| q | q]; [done | | lia].
  replace (e' <=? emax - prec) with true
    by (symmetry; apply Z.leb_le; unfold emax, prec; lia).
  split; [done |]. split; [| done].
  destruct e' as [| r | r]; try lia. cbn [huge].
  apply Z.leb_gt. assert (0 < 2 ^ Zpos r) by (apply Z.pow_pos_nonneg; lia).
  assert (2 ^ 53 < 10 ^ 21) by reflexivity. nia.
Qed.

(** [hundredths x] is the integer nearest to [100 |x|], the larger of the
    two when [100 |x|] lies half way. *)
Lemma hundredths_nearest (x : number) :
  ((2 * hundredths x - 1 # 200) <= to_Q (abs x))%Q ∧
  (to_Q (abs x) < (2 * hundredths x + 1 # 200))%Q.
Proof.
  unfold abs, hundredths. destruct x as [s | s | | s m e]; try done.
  cbn [SFabs to_Q cond_Zopp]. destruct e as [| p | p].
  - unfold Qle, Qlt, inject_Z. cbn [Qnum Qden]. lia.
  - unfold Qle, Qlt, inject_Z. cbn [Qnum Qden]. lia.
  - unfold Qle, Qlt. cbn [Qnum Qden]. rewrite Pos2Z.inj_pow.
    assert (HD : 0 < 2 ^ Zpos p) by (apply Z.pow_pos_nonneg; lia).
    replace (2 ^ (Zpos p + 1)) with (2 * 2 ^ Zpos p) by (rewrite pow2_split by lia; lia).
    pose proof (Z.div_mod (200 * Zpos m + 2 ^ Zpos p) (2 * 2 ^ Zpos p)) as Hdm.
    pose proof (Z.mod_pos_bound (200 * Zpos m + 2 ^ Zpos p) (2 * 2 ^ Zpos p)) as Hmod.
    nia.
Qed.

(** * The recording session *)

(** ** Running handlers *)

Ltac mrun :=
  cbv beta iota zeta delta
    [settle mbind M_bind mret M_ret gets modify throw try_catch try_finally observe
     setStatus setCountdown setSecondsLeft setBlobUrl setRecordedBlob setError
     setIsSending setSelectedFile setSelectedDuration setAccuracy
     setInterval setTimeout clearTimer createObjectURL revokeObjectURL
     requestAnimationFrame stop_tracks new_MediaRecorder MediaRecorder_start
     MediaRecorder_stop
     ensureStream stop ondataavailable onstop tick beginRecording countdown_callback
     start cleanup validateDurationApprox60 handleFilePick send_request send_response
     send send_resume sendRecorded sendSelected send_enter].

Ltac innermost t k :=
  lazymatch t with
  | context [match ?c with _ => _ end] => innermost c k
  | _ => k t
  end.

Ltac branch :=
  match goal with
  | |- context [match ?c with _ => _ end] =>
      innermost c ltac:(fun d => destruct d eqn:?)
  end.

Ltac frame := mrun; repeat (branch; mrun); reflexivity.

(** ** [stop] *)

Ltac by_refs w :=
  destruct (stopTimerRef (refs w)) eqn:?; mrun; cbn;
  destruct (countdownTimerRef (refs w)) eqn:?; mrun; cbn; done.

Lemma stop_eq w :
  settle stop w
  = clear_ref (countdownTimerRef (refs w))
      (clear_ref (stopTimerRef (refs w)) (halt_encoder w)).
Proof.
  mrun. unfold halt_encoder.
  destruct (recorderRef (refs w)) as [r|] eqn:Hr; mrun.
  - destruct (decide (recorder_state r w = recording)) as [Hrec | Hrec]; mrun.
    + unfold recorder_state in Hrec. destruct (recorder r w) as [R|] eqn:HR; [| done].
      cbn in Hrec. cbn [from_option]. rewrite Hrec.
      destruct (decide (recording = inactive)); [done |]. mrun. cbn. by_refs w.
    + by_refs w.
  - by_refs w.
Qed.

Lemma stop_returns w : stop w = Returned tt (settle stop w).
Proof.
  unfold settle. unfold stop at 1 2. unfold try_catch.
  cbv beta iota zeta delta [mret M_ret].
  match goal with |- context [match ?c with Returned a w' => _ | Thrown _ _ => _ end] =>
    destruct c as [[] ?|] end; done.
Qed.

Lemma recorder_put_recorder_state r' r st t w :
  recorder r' (put_recorder_state r st t w)
  = if decide (r' = r)
    then (λ R, {| rec_state := st; rec_stream := rec_stream R;
                  rec_mimeType := rec_mimeType R; rec_startedAt := t |}) <$> recorder r w
    else recorder r' w.
Proof.
  unfold recorder, put_recorder_state. cbn. case_decide as H.
  - subst. apply list_lookup_alter_eq.
  - by apply list_lookup_alter_ne.
Qed.

Lemma recorder_state_put_recorder_state r' r st t w :
  recorder_state r' (put_recorder_state r st t w)
  = if decide (r' = r)
    then match recorder r w with Some _ => st | None => inactive end
    else recorder_state r' w.
Proof.
  unfold recorder_state. rewrite recorder_put_recorder_state.
  case_decide; [| done]. by destruct (recorder r w).
Qed.

Lemma idle_ext w w' :
  recorders (browser w') = recorders (browser w) → idle_encoders w → idle_encoders w'.
Proof. intros H Hi r. unfold recorder_state, recorder. rewrite H. apply Hi. Qed.

Lemma idle_armed w : idle_encoders w → deadline_armed w.
Proof.
  intros Hi r R HR Hrec. exfalso. apply (Hi r). unfold recorder_state. by rewrite HR.
Qed.

Lemma Calm_idle w : Calm w → status (hooks w) ≠ Recording → idle_encoders w.
Proof. intros HC Hs r Hr. by destruct (calm_live w HC r Hr) as (_ & ? & _). Qed.

Lemma Calm_not_stopping w :
  Calm w → status (hooks w) ≠ Recording → stopping (browser w) = [].
Proof.
  intros HC Hs. destruct (stopping (browser w)) as [| r rest] eqn:Hq; [done |].
  by destruct (calm_stopping w HC r rest Hq) as (_ & ? & _).
Qed.

Lemma Calm_no_interval w : Calm w → status (hooks w) ≠ Countdown → no_interval w.
Proof.
  intros HC Hs id d r s Hi. by destruct (calm_interval w HC _ _ _ _ Hi) as (? & _).
Qed.

Lemma idle_halt_encoder w : Calm w → idle_encoders (halt_encoder w).
Proof.
  intros HC r' Hr'. unfold halt_encoder in Hr'.
  assert (Hlive : ∀ r, recorder_state r w = recording → recorderRef (refs w) = Some r).
  { intros r Hr. by destruct (calm_live w HC r Hr) as (? & _). }
  destruct (recorderRef (refs w)) as [r|] eqn:Href.
  - destruct (decide (recorder_state r w = recording)) as [Hrec | Hrec].
    + change (recorder_state r' (put_stopping ?a ?w)) with (recorder_state r' w) in Hr'.
      rewrite recorder_state_put_recorder_state in Hr'. case_decide as Heq.
      * by destruct (recorder r w).
      * apply Heq. specialize (Hlive r' Hr'). congruence.
    + specialize (Hlive r' Hr'). congruence.
  - specialize (Hlive r' Hr'). congruence.
Qed.

Lemma clear_ref_frame o w :
  hooks (clear_ref o w) = hooks w ∧ refs (clear_ref o w) = refs w ∧
  recorders (browser (clear_ref o w)) = recorders (browser w) ∧
  stopping (browser (clear_ref o w)) = stopping (browser w) ∧
  now (browser (clear_ref o w)) = now (browser w).
Proof. by destruct o. Qed.

Lemma clear_ref_timers o w id t :
  timers (browser (clear_ref o w)) !! id = Some t →
  timers (browser w) !! id = Some t ∧ o ≠ Some id.
Proof.
  destruct o as [c|]; cbn; [| done].
  intros [? ?]%lookup_delete_Some. split; [done | congruence].
Qed.

Lemma halt_encoder_frame w :
  hooks (halt_encoder w) = hooks w ∧ refs (halt_encoder w) = refs w ∧
  timers (browser (halt_encoder w)) = timers (browser w) ∧
  now (browser (halt_encoder w)) = now (browser w).
Proof. unfold halt_encoder. repeat case_match; done. Qed.

Lemma halt_encoder_stopping w :
  Calm w →
  (stopping (browser (halt_encoder w)) = stopping (browser w) ∧
   ∀ r, recorderRef (refs w) = Some r → recorder_state r w ≠ recording) ∨
  (status (hooks w) = Recording ∧
   ∃ r, recorderRef (refs w) = Some r ∧ stopping (browser (halt_encoder w)) = [r]).
Proof.
  intros HC. unfold halt_encoder.
  destruct (recorderRef (refs w)) as [r|] eqn:Href; [| by left].
  destruct (decide (recorder_state r w = recording)) as [Hrec |]; [| left; split; [done |]].
  - right. destruct (calm_live w HC r Hrec) as (_ & ? & Hq).
    split; [done |]. exists r. split; [done |]. cbn. by rewrite Hq.
  - by intros ? [= <-].
Qed.

(** [stop] leaves a calm world calm, with no recorder recording and no
    countdown pending. *)
Lemma Calm_stop w :
  Calm w →
  Calm (settle stop w) ∧ idle_encoders (settle stop w) ∧ no_interval (settle stop w) ∧
  hooks (settle stop w) = hooks w ∧ refs (settle stop w) = refs w ∧
  now (browser (settle stop w)) = now (browser w).
Proof.
  intros HC. rewrite stop_eq.
  set (w1 := halt_encoder w). set (w2 := clear_ref (stopTimerRef (refs w)) w1).
  set (w3 := clear_ref (countdownTimerRef (refs w)) w2).
  destruct (halt_encoder_frame w) as (Hh1 & Hr1 & Ht1 & Hn1).
  destruct (clear_ref_frame (stopTimerRef (refs w)) w1) as (Hh2 & Hr2 & Hrc2 & Hs2 & Hn2).
  destruct (clear_ref_frame (countdownTimerRef (refs w)) w2) as (Hh3 & Hr3 & Hrc3 & Hs3 & Hn3).
  fold w1 in Hh1, Hr1, Ht1, Hn1. fold w2 in Hh2, Hr2, Hrc2, Hs2, Hn2, Hh3, Hr3, Hrc3, Hs3, Hn3.
  fold w3 in Hh3, Hr3, Hrc3, Hs3, Hn3.
  assert (Hidle : idle_encoders w3).
  { apply (idle_ext w1); [congruence |]. by apply idle_halt_encoder. }
  assert (Htm : ∀ id t, timers (browser w3) !! id = Some t →
                        timers (browser w) !! id = Some t ∧
                        countdownTimerRef (refs w) ≠ Some id).
  { intros id t [[H _]%clear_ref_timers Hc]%clear_ref_timers. fold w1 in H.
    rewrite Ht1 in H. done. }
  assert (Hni : no_interval w3).
  { intros id d r s [Hi Hc]%Htm. by destruct (calm_interval w HC _ _ _ _ Hi) as (_ & ? & _). }
  split_and!; [split | done | done | congruence | congruence | congruence].
  - intros r Hrec. by destruct (Hidle r).
  - intros id d r s Hi. by destruct (Hni _ _ _ _ Hi).
  - intros r rest Hq. rewrite Hs3, Hs2 in Hq. rewrite Hh3, Hh2, Hh1.
    destruct (halt_encoder_stopping w HC) as [[Heq _] | (Hst & r0 & _ & Heq)]; fold w1 in Heq.
    + rewrite Heq in Hq. destruct (calm_stopping w HC r rest Hq) as (? & ? & _). done.
    + rewrite Heq in Hq. injection Hq as <- <-. done.
  - rewrite Hh3, Hh2, Hh1, Hr3, Hr2, Hr1, Hs3, Hs2. intros Hst.
    destruct (calm_session w HC Hst) as (r & Href & Hor). exists r. split; [done |]. right.
    destruct (halt_encoder_stopping w HC) as [[Heq Hnot] | (_ & r0 & Href0 & Heq)];
      fold w1 in Heq.
    + rewrite Heq. destruct Hor as [Hrec | Hq]; [| done]. by destruct (Hnot r Href).
    + rewrite Heq. congruence.
Qed.

(** ** Handlers that leave the session alone *)

Lemma Calm_core w w' : core w = core w' → Calm w → Calm w'.
Proof.
  unfold core. intros [= Hs Hr Ht Hc Htm Hrec Hst Hn] HC.
  assert (Hrs : ∀ r, recorder_state r w' = recorder_state r w)
    by (intros; unfold recorder_state, recorder; by rewrite Hrec).
  assert (Hid : idle_encoders w → idle_encoders w').
  { intros H r. rewrite Hrs. apply H. }
  split.
  - intros r Hrec'. rewrite Hrs in Hrec'. rewrite <- Hr, <- Hs, <- Hst.
    by apply (calm_live w HC).
  - intros id due rem st Hi. rewrite <- Htm in Hi. rewrite <- Hs, <- Hc, <- Hst.
    destruct (calm_interval w HC _ _ _ _ Hi) as (? & ? & ? & ?). eauto.
  - intros r rest Hq. rewrite <- Hst in Hq. rewrite <- Hs.
    destruct (calm_stopping w HC _ _ Hq) as (? & ? & ?). eauto.
  - rewrite <- Hs, <- Hr, <- Hst. intros H. destruct (calm_session w HC H) as (r & ? & ?).
    exists r. by rewrite Hrs.
Qed.

Lemma armed_core w w' : core w = core w' → deadline_armed w → deadline_armed w'.
Proof.
  unfold core. intros [= Hs Hr Ht Hc Htm Hrec Hst Hn] HA r R HR Hlive.
  unfold recorder in HR. rewrite <- Hrec in HR. rewrite <- Ht, <- Htm. by apply (HA r R).
Qed.

Lemma Inv_core w w' : core w = core w' → Inv w → Inv w'.
Proof. intros H [? ?]. split; [by eapply Calm_core | by eapply armed_core]. Qed.

Section Frames.
Variable ts : number → string.

Lemma core_data w data : core (settle (ondataavailable data) w) = core w.
Proof. destruct data; frame. Qed.

Lemma core_tick w f fs' : core (settle (tick f) (put_frames fs' w)) = core w.
Proof. frame. Qed.

Lemma core_pick w f probe : core (settle (handleFilePick ts f probe) w) = core w.
Proof. destruct f, probe; frame. Qed.

Lemma core_send_resume w o i : core (settle (send_resume ts o) (put_inflight i w)) = core w.
Proof. destruct o as [e | c t []]; frame. Qed.

Lemma core_send_enter w f l : core (settle (send_enter f l) w) = core w.
Proof. destruct f; frame. Qed.
End Frames.

(** ** [ensureStream] and [start] *)

Lemma ensureStream_frame acq w :
  let w' := world_of (ensureStream acq w) in
  same_session w w' ∧
  (status (hooks w') = status (hooks w) ∨ status (hooks w') = Ready).
Proof.
  unfold same_session. mrun. repeat (branch; mrun); cbn; auto 12.
Qed.

Lemma ensureStream_held acq w s :
  streamRef (refs w) = Some s → ensureStream acq w = Returned s w.
Proof. intros H. mrun. by rewrite H. Qed.

Lemma start_eq acq w :
  settle (start acq) w
  = match ensureStream acq (reset w) with
    | Returned s w1 => armed s w1
    | Thrown e w1 => put_status Error (put_error e w1)
    end.
Proof.
  unfold start, reset. cbv beta iota zeta delta
    [settle mbind M_bind mret M_ret gets modify throw try_catch observe
     setStatus setCountdown setError setBlobUrl setRecordedBlob setAccuracy setInterval].
  destruct (ensureStream acq _) as [s w1 | e w1]; reflexivity.
Qed.

(** ** [beginRecording] and the countdown callback *)

Lemma beginRecording_eq p s w :
  settle (beginRecording p s) w
  = match constructor_throws p with
    | Some e => capture_failed e (put_log (log (browser w) ++ [ObsBeginCapture]) w)
    | None =>
        match start_throws p with
        | Some e => capture_failed e (constructed p s w)
        | None => capturing p s w
        end
    end.
Proof.
  mrun. destruct (constructor_throws p) as [e|]; mrun; [reflexivity |].
  destruct (start_throws p) as [e|]; mrun; cbn.
  - unfold capture_failed, constructed. cbn. by rewrite <- app_assoc.
  - unfold capturing, constructed. cbn. by rewrite <- app_assoc.
Qed.

Lemma beginRecording_returns p s w :
  beginRecording p s w = Returned tt (settle (beginRecording p s) w).
Proof.
  mrun. destruct (constructor_throws p) as [e|]; mrun; [reflexivity |].
  destruct (start_throws p) as [e|]; mrun; reflexivity.
Qed.

Lemma fire_interval_eq p id due remaining s w :
  timers (browser w) !! id = Some (Interval due remaining s) →
  due ≤ now (browser w) →
  fire id p w
  = Some (if remaining - 1 <=? 0
          then settle (beginRecording p s)
                 (clear_ref (countdownTimerRef (refs w)) (counted id due remaining s w))
          else counted id due remaining s w).
Proof.
  intros Hi Hdue. unfold fire. rewrite Hi.
  destruct (Z.leb_spec due (now (browser w))); [| lia]. f_equal.
  unfold countdown_callback.
  cbv beta iota zeta delta
    [settle mbind M_bind mret M_ret gets modify observe setCountdown clearTimer].
  cbn [timers browser put_timers with_browser]. rewrite lookup_insert_eq.
  cbv beta iota zeta.
  match goal with |- context [(if _ then _ else _) ?W] =>
    replace W with (counted id due remaining s w)
      by (unfold counted; cbn; by rewrite insert_insert_eq) end.
  destruct (remaining - 1 <=? 0) eqn:Hrem; [| reflexivity].
  unfold clear_ref.
  replace (countdownTimerRef (refs (counted id due remaining s w)))
    with (countdownTimerRef (refs w)) by reflexivity.
  destruct (countdownTimerRef (refs w)) as [c|]; reflexivity.
Qed.

Lemma fire_timeout_eq p id due w :
  timers (browser w) !! id = Some (Timeout due) →
  due ≤ now (browser w) →
  fire id p w = Some (settle stop (clear_ref (Some id) w)).
Proof.
  intros Hi Hdue. unfold fire. rewrite Hi.
  destruct (Z.leb_spec due (now (browser w))); [| lia]. f_equal.
Qed.

(** ** The session invariant, event by event *)

Lemma Calm_quiet w :
  idle_encoders w → no_interval w → stopping (browser w) = [] →
  status (hooks w) ≠ Recording →
  Calm w.
Proof.
  intros Hidle Hni Hq Hs. split; [| | | done].
  - intros r Hr. by destruct (Hidle r).
  - intros id d r s Hi. by destruct (Hni _ _ _ _ Hi).
  - intros r rest Hq'. congruence.
Qed.

Lemma Calm_clear_ref o w : Calm w → Calm (clear_ref o w).
Proof.
  intros HC. destruct (clear_ref_frame o w) as (Hh & Hr & Hrc & Hs & Hn).
  assert (Hrs : ∀ r, recorder_state r (clear_ref o w) = recorder_state r w)
    by (intros; unfold recorder_state, recorder; by rewrite Hrc).
  split.
  - intros r Hrec. rewrite Hrs in Hrec. rewrite Hh, Hr, Hs. by apply (calm_live w HC).
  - intros id d r s [Hi _]%clear_ref_timers. rewrite Hh, Hr, Hs.
    destruct (calm_interval w HC _ _ _ _ Hi) as (? & ? & ? & ?).
    split_and!; try done. by apply (idle_ext w).
  - intros r rest Hq. rewrite Hs in Hq. rewrite Hh.
    destruct (calm_stopping w HC _ _ Hq) as (? & ? & ?).
    split_and!; try done. by apply (idle_ext w).
  - rewrite Hh, Hr, Hs. intros H. destruct (calm_session w HC H) as (r & ? & ?).
    exists r. by rewrite Hrs.
Qed.

Lemma Inv_fire_timeout w id :
  Calm w → Inv (settle stop (clear_ref (Some id) w)).
Proof.
  intros HC. destruct (Calm_stop (clear_ref (Some id) w)) as (? & ? & _).
  { by apply Calm_clear_ref. }
  split; [done | by apply idle_armed].
Qed.

Lemma recorder_constructed r' p s w :
  recorder r' (constructed p s w)
  = if decide (r' = length (recorders (browser w)))
    then Some {| rec_state := inactive; rec_stream := s;
                 rec_mimeType := default (default_mimeType p) (pickSupportedMime p);
                 rec_startedAt := 0 |}
    else recorder r' w.
Proof.
  unfold recorder, constructed. cbn. case_decide as H.
  - subst. by rewrite list_lookup_middle.
  - destruct (decide (r' < length (recorders (browser w)))%nat).
    + by rewrite lookup_app_l.
    + rewrite !lookup_ge_None_2; [done | lia |]. rewrite length_app. cbn. lia.
Qed.

Lemma recorder_capturing r' p s w :
  recorder r' (capturing p s w)
  = if decide (r' = length (recorders (browser w)))
    then Some {| rec_state := recording; rec_stream := s;
                 rec_mimeType := default (default_mimeType p) (pickSupportedMime p);
                 rec_startedAt := now (browser w) |}
    else recorder r' w.
Proof.
  change (recorder r' (capturing p s w))
    with (recorder r' (put_recorder_state (length (recorders (browser w))) recording
                         (now (browser w)) (constructed p s w))).
  rewrite recorder_put_recorder_state, !recorder_constructed.
  case_decide; [| done]. subst. by rewrite decide_True.
Qed.

Lemma idle_constructed p s w : idle_encoders w → idle_encoders (constructed p s w).
Proof.
  intros Hi r. unfold recorder_state. rewrite recorder_constructed.
  case_decide; [done | apply Hi].
Qed.

(** [beginRecording], entered with no recorder recording, no countdown
    pending and no stop event queued. *)
Lemma Inv_beginRecording p s w :
  idle_encoders w → no_interval w → stopping (browser w) = [] →
  Inv (settle (beginRecording p s) w).
Proof.
  intros Hidle Hni Hq. rewrite beginRecording_eq.
  destruct (constructor_throws p) as [e|]; [| destruct (start_throws p) as [e|]].
  - split; [| by apply idle_armed]. by apply Calm_quiet.
  - pose proof (idle_constructed p s w Hidle).
    split; [| by apply idle_armed]. by apply Calm_quiet.
  - set (r := length (recorders (browser w))).
    assert (Hst : ∀ r', recorder_state r' (capturing p s w) = recording → r' = r).
    { intros r'. unfold recorder_state. rewrite recorder_capturing.
      case_decide; [done |]. intros H'. by destruct (Hidle r'). }
    assert (Htm : ∀ id t, timers (browser (capturing p s w)) !! id = Some t →
              (id = nextTimer (browser w) ∧ t = Timeout (now (browser w) + 60000)) ∨
              timers (browser w) !! id = Some t).
    { intros id t. cbn. intros [[-> <-] | [_ ?]]%lookup_insert_Some; auto. }
    split; [split |].
    + intros r' ->%Hst. split_and!; done.
    + intros id d rem st [[_ [=]] | Hi]%Htm. by destruct (Hni _ _ _ _ Hi).
    + intros r' rest. cbn. congruence.
    + intros _. exists r. split; [done |]. left.
      unfold recorder_state. rewrite recorder_capturing. by rewrite decide_True.
    + intros r' R HR Hrec.
      assert (r' = r) as -> by (apply Hst; unfold recorder_state; by rewrite HR).
      rewrite recorder_capturing, decide_True in HR by done. injection HR as <-.
      exists (nextTimer (browser w)). split; [done |]. cbn. apply lookup_insert_eq.
Qed.

Lemma Inv_fire_interval p id due remaining s w w' :
  Inv w → timers (browser w) !! id = Some (Interval due remaining s) →
  fire id p w = Some w' → Inv w'.
Proof.
  intros [HC HA] Hi Hf.
  destruct (calm_interval w HC _ _ _ _ Hi) as (Hst & Href & Hq & Hidle).
  assert (Hdue : due ≤ now (browser w)).
  { unfold fire in Hf. rewrite Hi in Hf. destruct (Z.leb_spec due (now (browser w))); done. }
  rewrite (fire_interval_eq p id due remaining s w Hi Hdue) in Hf. injection Hf as <-.
  assert (Hothers : ∀ id' t, id' ≠ id → timers (browser w) !! id' = Some t →
                             ∀ d r s', t ≠ Interval d r s').
  { intros id' t Hne Hi' d r s' ->.
    destruct (calm_interval w HC _ _ _ _ Hi') as (_ & ? & _). congruence. }
  destruct (remaining - 1 <=? 0).
  - rewrite Href. apply Inv_beginRecording.
    + by apply (idle_ext w).
    + intros id' d r s'. cbn. intros [Hne Hi']%lookup_delete_Some.
      rewrite lookup_insert_ne in Hi' by done. by eapply Hothers.
    + done.
  - split; [| apply idle_armed; by apply (idle_ext w)]. split.
    + intros r Hr. by destruct (Hidle r).
    + intros id' d r s'. cbn. intros [[<- _] | [Hne Hi']]%lookup_insert_Some.
      * split_and!; try done.
      * exfalso. by eapply Hothers.
    + cbn. intros r rest. congruence.
    + cbn. congruence.
Qed.

Lemma Inv_fire p id w w' : Inv w → fire id p w = Some w' → Inv w'.
Proof.
  intros HI Hf. destruct (timers (browser w) !! id) as [[due rem s | due]|] eqn:Hi.
  - by eapply Inv_fire_interval.
  - unfold fire in Hf. rewrite Hi in Hf.
    destruct (due <=? now (browser w)); [| done]. injection Hf as <-.
    change (settle (clearTimer id ;; stop) w) with (settle stop (clear_ref (Some id) w)).
    apply Inv_fire_timeout, HI.
  - unfold fire in Hf. by rewrite Hi in Hf.
Qed.

Lemma Calm_start acq w :
  Calm w → status (hooks w) ≠ Recording → status (hooks w) ≠ Countdown →
  Inv (settle (start acq) w).
Proof.
  intros HC Hs1 Hs2. rewrite start_eq.
  pose proof (Calm_idle w HC Hs1) as Hidle.
  pose proof (Calm_not_stopping w HC Hs1) as Hq.
  pose proof (Calm_no_interval w HC Hs2) as Hni.
  destruct (ensureStream_frame acq (reset w))
    as ((Hr & Ht & Hc & Htm & Hrc & Hsp & Hn & Hnt & Hl) & _).
  cbn in Hr, Ht, Hc, Htm, Hrc, Hsp, Hn, Hnt, Hl.
  destruct (ensureStream acq (reset w)) as [s w1 | e w1]; cbn in *.
  - assert (Hidle' : idle_encoders (armed s w1)) by (by apply (idle_ext w)).
    split; [| by apply idle_armed]. split.
    + intros r Hrec. by destruct (Hidle' r).
    + intros id d r s'. cbn. rewrite Htm.
      intros [[<- _] | [_ Hi]]%lookup_insert_Some; [| by destruct (Hni _ _ _ _ Hi)].
      split_and!; try done. congruence.
    + cbn. intros r rest. congruence.
    + cbn. congruence.
  - assert (Hidle' : idle_encoders (put_status Error (put_error e w1)))
      by (by apply (idle_ext w)).
    split; [| by apply idle_armed]. apply Calm_quiet; try done.
    + intros id d r s. cbn. rewrite Htm. apply Hni.
    + cbn. congruence.
Qed.

Lemma Calm_open acq w :
  Calm w → status (hooks w) ≠ Recording → status (hooks w) ≠ Countdown →
  Inv (settle (ensureStream acq ;; mret tt) w).
Proof.
  intros HC Hs1 Hs2.
  pose proof (Calm_idle w HC Hs1) as Hidle.
  pose proof (Calm_not_stopping w HC Hs1) as Hq.
  pose proof (Calm_no_interval w HC Hs2) as Hni.
  destruct (ensureStream_frame acq w)
    as ((Hr & Ht & Hc & Htm & Hrc & Hsp & Hn & Hnt & Hl) & Hst).
  replace (settle (ensureStream acq ;; mret tt) w) with (world_of (ensureStream acq w)).
  2:{ cbv beta iota zeta delta [settle mbind M_bind mret M_ret].
      by destruct (ensureStream acq w). }
  cbn in Hr, Ht, Hc, Htm, Hrc, Hsp, Hn, Hnt, Hl, Hst.
  generalize dependent (world_of (ensureStream acq w)). intros w' Hr Ht Hc Htm Hrc Hsp Hn Hnt Hl Hst.
  assert (Hidle' : idle_encoders w') by (by apply (idle_ext w)).
  split; [| by apply idle_armed]. apply Calm_quiet; try done.
  - intros id d r s. rewrite Htm. apply Hni.
  - congruence.
  - destruct Hst as [-> | ->]; done.
Qed.

Lemma Inv_stopped w r rest :
  Calm w → stopping (browser w) = r :: rest →
  Inv (settle (onstop r) (put_stopping rest w)).
Proof.
  intros HC Hq. destruct (calm_stopping w HC r rest Hq) as (-> & Hst & Hidle).
  assert (Hni : no_interval w) by (apply Calm_no_interval; [done | congruence]).
  remember (settle (onstop r) (put_stopping [] w)) as w' eqn:Hw'.
  assert (Hcore : status (hooks w') = Finished ∧ timers (browser w') = timers (browser w) ∧
                  recorders (browser w') = recorders (browser w) ∧
                  stopping (browser w') = [] ∧ now (browser w') = now (browser w)).
  { subst w'. mrun. cbn. done. }
  clear Hw'.
  destruct Hcore as (Hs' & Htm & Hrc & Hq' & Hn).
  assert (Hidle' : idle_encoders w') by (by apply (idle_ext w)).
  split; [| by apply idle_armed]. apply Calm_quiet; try done.
  - intros id d r' s. rewrite Htm. apply Hni.
  - congruence.
Qed.

Lemma MediaRecorder_stop_live r w :
  recorder_state r w = recording → recorderRef (refs w) = Some r →
  settle (MediaRecorder_stop r) w = halt_encoder w.
Proof.
  intros Hrec Href. unfold halt_encoder. rewrite Href, decide_True by done.
  mrun. unfold recorder_state in Hrec.
  destruct (recorder r w) as [R|]; [| done]. cbn in Hrec. rewrite Hrec.
  by destruct (decide (recording = inactive)).
Qed.

Lemma Inv_ends w r :
  Calm w → recorder_state r w = recording → Inv (settle (MediaRecorder_stop r) w).
Proof.
  intros HC Hrec. destruct (calm_live w HC r Hrec) as (Href & Hst & Hq).
  rewrite MediaRecorder_stop_live by done.
  pose proof (idle_halt_encoder w HC) as Hidle.
  destruct (halt_encoder_frame w) as (Hh & Hr & Htm & Hn).
  assert (Hq' : stopping (browser (halt_encoder w)) = [r]).
  { unfold halt_encoder. rewrite Href, decide_True by done. cbn. by rewrite Hq. }
  assert (Hni : no_interval w) by (apply Calm_no_interval; [done | congruence]).
  split; [| by apply idle_armed]. split.
  - intros r' Hr'. by destruct (Hidle r').
  - intros id d r' s. rewrite Htm. intros Hi. by destruct (Hni _ _ _ _ Hi).
  - rewrite Hq', Hh. intros r' rest [= <- <-]. done.
  - rewrite Hh, Hr, Hq'. intros _. exists r. auto.
Qed.

Lemma cleanup_eq b w : settle (cleanup b) w = release b (settle stop w).
Proof.
  unfold settle at 1. unfold cleanup, release, try_catch.
  cbv beta iota zeta delta [mbind M_bind mret M_ret gets modify stop_tracks revokeObjectURL].
  rewrite stop_returns. generalize (settle stop w). intros w1.
  destruct (streamRef (refs w1)) as [s|]; destruct b as [u|]; reflexivity.
Qed.

Lemma cleanup_returns b w : cleanup b w = Returned tt (settle (cleanup b) w).
Proof.
  unfold settle. unfold cleanup at 1 2. unfold try_catch.
  cbv beta iota zeta delta [mret M_ret].
  match goal with |- context [match ?c with Returned a w' => _ | Thrown _ _ => _ end] =>
    destruct c as [[] ?|] end; done.
Qed.

Lemma core_release b w : core (release b w) = core w.
Proof. unfold release. destruct (streamRef (refs w)), b; reflexivity. Qed.

Lemma Inv_cleanup b w : Calm w → Inv (settle (cleanup b) w).
Proof.
  intros HC. rewrite cleanup_eq. destruct (Calm_stop w HC) as (HC' & Hidle & _).
  apply (Inv_core (settle stop w)); [by rewrite core_release |].
  split; [done | by apply idle_armed].
Qed.

Lemma Inv_time t w : Inv w → Inv (put_now t w).
Proof.
  intros [HC HA]. split; [| exact HA]. split.
  - apply (calm_live w HC).
  - apply (calm_interval w HC).
  - apply (calm_stopping w HC).
  - apply (calm_session w HC).
Qed.

Lemma Inv_stop w : Inv w → Inv (settle stop w).
Proof.
  intros [HC _]. destruct (Calm_stop w HC) as (? & ? & _).
  split; [done | by apply idle_armed].
Qed.

Section Reach.
Variable ts : number → string.

Lemma Inv_mount t0 : Inv (mount t0).
Proof.
  split.
  - apply Calm_quiet.
    + intros r. unfold recorder_state, recorder. cbn. by rewrite lookup_nil.
    + intros id d r s. cbn. by rewrite lookup_empty.
    + done.
    + done.
  - intros r R. unfold recorder. cbn. by rewrite lookup_nil.
Qed.

Lemma Inv_step ev w w' : Inv w → step ts ev w = Some w' → Inv w'.
Proof.
  intros HI. unfold step. destruct (disabled ev w) eqn:Hdis; [done |].
  destruct ev; cbn [handle]; intros Hh.
  - (* ClickOpen *)
    injection Hh as <-. destruct HI as [HC _]. cbn in Hdis.
    apply Calm_open; [done | |]; intros Hs; rewrite Hs in Hdis; done.
  - (* ClickStart *)
    injection Hh as <-. destruct HI as [HC _]. cbn in Hdis.
    apply Calm_start; [done | |]; intros Hs; rewrite Hs in Hdis; done.
  - injection Hh as <-. by apply Inv_stop.
  - injection Hh as <-. apply (Inv_core w); [| done]. by rewrite core_send_enter.
  - injection Hh as <-. apply (Inv_core w); [| done]. by rewrite core_send_enter.
  - injection Hh as <-. apply (Inv_core w); [| done]. by rewrite core_pick.
  - destruct (inflight (browser w) !! i); [| done]. injection Hh as <-.
    apply (Inv_core w); [| done]. by rewrite core_send_resume.
  - by eapply Inv_fire.
  - destruct (frames (browser w) !! i); [| done]. injection Hh as <-.
    apply (Inv_core w); [| done]. by rewrite core_tick.
  - destruct (_ || _); [| done]. injection Hh as <-.
    apply (Inv_core w); [| done]. by rewrite core_data.
  - destruct (stopping (browser w)) as [| r' rest] eqn:Hq; [done |].
    destruct (decide (r = r')) as [<- |]; [| done]. injection Hh as <-.
    destruct HI as [HC _]. by apply Inv_stopped.
  - destruct (decide (recorder_state r w = recording)); [| done]. injection Hh as <-.
    destruct HI as [HC _]. by apply Inv_ends.
  - injection Hh as <-. destruct HI as [HC _]. by apply Inv_cleanup.
  - destruct (0 <? dt); [| done]. injection Hh as <-. by apply Inv_time.
Qed.

Lemma Inv_run evs w w' : Inv w → run ts evs w = Some w' → Inv w'.
Proof.
  revert w. induction evs as [| ev evs IH]; intros w HI; cbn.
  - by intros [= <-].
  - destruct (step ts ev w) as [w1|] eqn:Hs; [| done]. intros Hr.
    apply (IH w1); [by eapply Inv_step | done].
Qed.

Lemma Inv_reachable w : reachable ts w → Inv w.
Proof. intros (t0 & evs & Hr). eapply Inv_run; [apply Inv_mount | exact Hr]. Qed.

End Reach.

(** * The duration check *)

Lemma rejects_iff (d : number) :
  wf d = true →
  rejects d = false ↔ isFinite d = true ∧ (Qabs (to_Q d - 60) <= 3)%Q.
Proof. apply tolerance_real. Qed.

Lemma handleFilePick_eq ts f probe w :
  let d := probe_duration probe in
  let w' := settle (handleFilePick ts (Some f) probe) w in
  selectedDuration (hooks w') = Some d ∧
  if rejects d
  then selectedFile (hooks w') = None ∧ error (hooks w') = duration_message ts d
  else selectedFile (hooks w') = Some f ∧ error (hooks w') = EmptyString.
Proof.
  destruct probe as [d|]; mrun; cbn [probe_duration]; destruct (rejects _); mrun; done.
Qed.

(** C1.  For a picked file whose probe yields the Number [d], the file
    becomes the selected file exactly when [d] is finite and within 3 of
    60 as a real number; otherwise no file is selected and the error shown
    embeds [d.toFixed(2)], or "unknown" when [d] is not finite, as it is
    when the probe failed. *)
Theorem C1_duration_check ts (f : File) (probe : Probe) (w : World) :
  wf (probe_duration probe) = true →
  let d := probe_duration probe in
  let w' := settle (handleFilePick ts (Some f) probe) w in
  (selectedFile (hooks w') = Some f
   ↔ isFinite d = true ∧ (Qabs (to_Q d - 60) <= 3)%Q) ∧
  (selectedFile (hooks w') = Some f → error (hooks w') = EmptyString) ∧
  (selectedFile (hooks w') ≠ Some f →
   selectedFile (hooks w') = None ∧
   error (hooks w')
   = "Selected video must be ~60s. Detected "
     +:+ (if isFinite d then toFixed2 ts d else "unknown") +:+ "s.") ∧
  (probe = Failed →
   selectedFile (hooks w') = None ∧
   error (hooks w') = "Selected video must be ~60s. Detected unknowns.").
Proof.
  intros Hwf d w'. pose proof (handleFilePick_eq ts f probe w) as (_ & H).
  fold d w' in H. pose proof (rejects_iff d Hwf) as Hiff.
  destruct (rejects d) eqn:Hrej; destruct H as [Hsel Herr].
  - split_and!.
    + rewrite Hsel. split; [done |]. intros ?%Hiff. done.
    + rewrite Hsel. done.
    + intros _. split; [done |]. by rewrite Herr.
    + intros ->. split; [done |]. by rewrite Herr.
  - split_and!.
    + rewrite Hsel. split; [intros _; by apply Hiff | done].
    + done.
    + by rewrite Hsel.
    + intros ->. subst d. by vm_compute in Hrej.
Qed.

Lemma C1_duration_check_witness :
  wf (of_Z 70) = true ∧
  selectedFile (hooks (settle (handleFilePick plain_toString (Some clip) (Loaded (of_Z 70)))
                         (mount 0))) = None ∧
  error (hooks (settle (handleFilePick plain_toString (Some clip) (Loaded (of_Z 70)))
                  (mount 0)))
  = "Selected video must be ~60s. Detected 70.00s.".
Proof.
  split; [reflexivity |].
  apply (C1_duration_check plain_toString clip (Loaded (of_Z 70)) (mount 0));
    [reflexivity | by vm_compute].
Defined.

Lemma accepted_iff ts f d w : accepted ts f d w ↔ rejects d = false.
Proof.
  unfold accepted. pose proof (handleFilePick_eq ts f (Loaded d) w) as (_ & H).
  cbn [probe_duration] in H. destruct (rejects d); destruct H as [-> _]; done.
Qed.

(** C3, as the claim has it, fails: a file probed at 56.9 s, more than 3 s
    short of 60, is not taken, and the error names its duration. *)
Lemma C3_counterexample :
  let w := settle (handleFilePick plain_toString (Some clip) (Loaded (decimal 569 1)))
             (mount 0) in
  rejects (decimal 569 1) = true ∧
  selectedFile (hooks w) = None ∧
  error (hooks w) = "Selected video must be ~60s. Detected 56.90s.".
Proof. vm_compute. done. Qed.

(** C3, amended.  Acceptance is symmetric around 60 with an inclusive
    3-second boundary: durations [d] and [d'] at equal distance on either
    side of 60 are accepted or rejected together; 57.0 s and 63.0 s are
    accepted; 56.9 s and 63.01 s are rejected; NaN is rejected, as is a
    file whose probe failed. *)
Theorem C3_symmetric_tolerance ts (f : File) (w : World) (d d' : number) :
  wf d = true → wf d' = true → isFinite d = true → isFinite d' = true →
  (to_Q d - 60 == 60 - to_Q d')%Q →
  (accepted ts f d w ↔ accepted ts f d' w) ∧
  accepted ts f (of_Z 57) w ∧
  accepted ts f (of_Z 63) w ∧
  ¬ accepted ts f (decimal 569 1) w ∧
  ¬ accepted ts f (decimal 6301 2) w ∧
  ¬ accepted ts f NaN w ∧
  selectedFile (hooks (settle (handleFilePick ts (Some f) Failed) w)) = None.
Proof.
  intros Hwf Hwf' Hfin Hfin' Hsym. rewrite !accepted_iff.
  split_and!; [| by vm_compute ..].
  rewrite !rejects_iff by done.
  assert (Qabs (to_Q d - 60) == Qabs (to_Q d' - 60))%Q as Heq.
  { rewrite Hsym. rewrite <- Qabs_opp. apply Qabs_wd. ring. }
  rewrite Heq. tauto.
Qed.

Lemma C3_symmetric_tolerance_witness :
  accepted plain_toString clip (of_Z 57) (mount 0)
  ↔ accepted plain_toString clip (of_Z 63) (mount 0).
Proof.
  apply (C3_symmetric_tolerance plain_toString clip (mount 0) (of_Z 57) (of_Z 63));
    reflexivity.
Defined.

(** * Uploads *)

Section Upload.
Variable ts : number → string.

Lemma send_request_eq file label w :
  send_request file label w
  = Returned tt
      (put_log (log (browser w) ++ [ObsFetch (request_of file label)])
         (put_error EmptyString (put_isSending true w))).
Proof. reflexivity. Qed.

Lemma send_eq file label o w :
  settle (send ts file label o) w
  = settle (send_resume ts o) (settle (send_request file label) w).
Proof.
  unfold send, send_resume, settle, try_finally, try_catch.
  cbv beta iota zeta delta [mbind M_bind]. rewrite send_request_eq. reflexivity.
Qed.

Lemma send_untouched file label o w :
  untouched_by_send w (settle (send ts file label o) w) ∧
  log (browser (settle (send ts file label o) w))
  = log (browser w) ++ [ObsFetch (request_of file label)] ∧
  isSending (hooks (settle (send ts file label o) w)) = false.
Proof.
  rewrite send_eq. unfold untouched_by_send.
  destruct o as [e | c t []]; mrun; repeat (branch; mrun); cbn; done.
Qed.

End Upload.

Lemma to_Q_abs_nonneg (x : number) : negative x = false → to_Q (abs x) = to_Q x.
Proof. unfold abs. by destruct x as [| | | [] ? ?]. Qed.

Lemma fetches_snoc l q : fetches (l ++ [ObsFetch q]) = S (fetches l).
Proof. unfold fetches. rewrite List.filter_app, length_app. cbn. lia. Qed.

(** C7.  A 2xx response whose body has a numeric [probabilities] [p] in
    [0,1] sets the score to [(p * 100).toFixed(2)]: the decimal digits of
    the integer [n] nearest to a hundred times the product [p * 100]
    (the larger on a tie), with a point before the last two; the call
    reports no error.  A body without the field, or one that does not
    parse, reports no error either and leaves the score as it was. *)
Theorem C7_score ts (file : File) (label : string) (code : Z) (text : string)
    (p : number) (w : World) :
  wf p = true → isFinite p = true → (0 <= to_Q p)%Q → (to_Q p <= 1)%Q →
  response_ok code = true →
  let x := mul p (of_Z 100) in
  let n := hundredths x in
  let w' := settle (send ts file label (FetchResponse code text (Probabilities p))) w in
  accuracy (hooks w') = Some (fixed2_digits n) ∧
  ((2 * n - 1 # 200) <= to_Q x)%Q ∧ (to_Q x < (2 * n + 1 # 200))%Q ∧
  error (hooks w') = EmptyString ∧
  (let w0 := settle (send ts file label (FetchResponse code text NoProbabilities)) w in
   accuracy (hooks w0) = accuracy (hooks w) ∧ error (hooks w0) = EmptyString) ∧
  (let w0 := settle (send ts file label (FetchResponse code text Unparseable)) w in
   accuracy (hooks w0) = accuracy (hooks w) ∧ error (hooks w0) = EmptyString).
Proof.
  intros Hwf Hfin H0 H1 Hok x n w'.
  destruct (mul_100_small p Hwf Hfin H0 H1) as (Hxf & Hxh & Hxn). fold x in Hxf, Hxh, Hxn.
  pose proof (hundredths_nearest x) as [Hlo Hhi]. rewrite to_Q_abs_nonneg in Hlo, Hhi by done.
  split_and!; try done.
  - subst w'. rewrite send_eq. mrun. rewrite Hok. cbn. f_equal.
    fold x. unfold toFixed2. by rewrite Hxf, Hxh, Hxn.
  - subst w'. rewrite send_eq. mrun. rewrite Hok. reflexivity.
  - rewrite send_eq. mrun. rewrite Hok. done.
  - rewrite send_eq. mrun. rewrite Hok. done.
Qed.

Lemma C7_score_witness :
  accuracy (hooks (settle (send plain_toString clip "recorded"
                             (FetchResponse 200 "OK" (Probabilities (decimal 842 3))))
                     (mount 0)))
  = Some "84.20".
Proof.
  apply (C7_score plain_toString clip "recorded" 200 "OK" (decimal 842 3) (mount 0));
    by vm_compute.
Defined.

(** C8.  On a non-2xx response [send] reports "Error: Upload failed:
    <status> <statusText>", having made exactly one request; the status,
    the recorded artifact and its URL, the refs, the recorders and the
    timers are as before, the score is unchanged, the sending flag is
    down, and Send Recorded is enabled again whenever there is an
    artifact. *)
Theorem C8_upload_failed ts (file : File) (label : string) (code : Z) (text : string)
    (body : Body) (w : World) :
  response_ok code = false →
  let w' := settle (send ts file label (FetchResponse code text body)) w in
  error (hooks w') = "Error: Upload failed: " +:+ pretty code +:+ " " +:+ text ∧
  log (browser w') = log (browser w) ++ [ObsFetch (request_of file label)] ∧
  fetches (log (browser w')) = S (fetches (log (browser w))) ∧
  untouched_by_send w w' ∧
  accuracy (hooks w') = accuracy (hooks w) ∧
  isSending (hooks w') = false ∧
  disabled ClickSendRecorded w' = negb (bool_decide (is_Some (recordedBlob (hooks w)))).
Proof.
  intros Hok w'. destruct (send_untouched ts file label (FetchResponse code text body) w)
    as (Hun & Hlog & Hsend). fold w' in Hun, Hlog, Hsend.
  split_and!; try done.
  - subst w'. rewrite send_eq. mrun. rewrite Hok. reflexivity.
  - rewrite Hlog. apply fetches_snoc.
  - subst w'. rewrite send_eq. mrun. rewrite Hok. reflexivity.
  - destruct Hun as (_ & Hrb & _). cbn. rewrite Hsend, Hrb. by rewrite orb_false_r.
Qed.

Lemma C8_upload_failed_witness :
  error (hooks (settle (send plain_toString clip "recorded"
                          (FetchResponse 500 "Internal Server Error" Unparseable))
                  (mount 0)))
  = "Error: Upload failed: 500 Internal Server Error".
Proof.
  apply (C8_upload_failed plain_toString clip "recorded" 500 "Internal Server Error"
           Unparseable (mount 0)).
  reflexivity.
Defined.

(** C10.  [send] raises the sending flag before anything else and has it
    down again when it settles, however the request went: a 2xx response
    with or without a score, a body that does not parse, a non-2xx
    response, a rejected fetch.  This holds for the call taken whole and
    for its resumption after the await in any world; and [send] itself
    never throws. *)
Theorem C10_sending_flag ts (file : File) (label : string) (o : FetchOutcome) (w : World) :
  isSending (hooks (settle (send_request file label) w)) = true ∧
  isSending (hooks (settle (send ts file label o) w)) = false ∧
  (∀ w1, isSending (hooks (settle (send_resume ts o) w1)) = false) ∧
  send ts file label o w = Returned tt (settle (send ts file label o) w).
Proof.
  split_and!.
  - reflexivity.
  - apply send_untouched.
  - intros w1. destruct o as [e | c t []]; mrun; repeat (branch; mrun); done.
  - unfold settle, send, try_finally, try_catch.
    cbv beta iota zeta delta [mbind M_bind]. rewrite send_request_eq.
    destruct o as [e | c t []]; mrun; repeat (branch; mrun); done.
Qed.

(** * Teardown *)

Lemma halt_encoder_idem w : halt_encoder (halt_encoder w) = halt_encoder w.
Proof.
  unfold halt_encoder at 1. rewrite (proj1 (proj2 (halt_encoder_frame w))).
  destruct (recorderRef (refs w)) as [r|] eqn:Href; [| done].
  rewrite decide_False; [done |].
  unfold halt_encoder. rewrite Href.
  destruct (decide (recorder_state r w = recording)) as [Hrec | Hrec]; [| done].
  change (recorder_state r (put_stopping ?a ?x)) with (recorder_state r x).
  rewrite recorder_state_put_recorder_state, decide_True by done.
  by destruct (recorder r w).
Qed.

Lemma halt_encoder_clear_ref o w :
  halt_encoder (clear_ref o w) = clear_ref o (halt_encoder w).
Proof.
  destruct o as [id|]; [| done]. unfold halt_encoder, clear_ref.
  cbn [refs put_timers with_browser].
  destruct (recorderRef (refs w)) as [r|]; [| done].
  change (recorder_state r (put_timers ?a ?x)) with (recorder_state r x).
  destruct (decide (recorder_state r w = recording)); reflexivity.
Qed.

Lemma put_timers_ext m m' w : m = m' → put_timers m w = put_timers m' w.
Proof. by intros ->. Qed.

Lemma clear_ref_twice c t w :
  clear_ref c (clear_ref t (clear_ref c (clear_ref t w))) = clear_ref c (clear_ref t w).
Proof.
  destruct c as [c|], t as [t|]; try reflexivity.
  - transitivity (put_timers (delete c (delete t (delete c (delete t (timers (browser w))))))
                    w); [reflexivity |].
    transitivity (put_timers (delete c (delete t (timers (browser w)))) w); [| reflexivity].
    apply put_timers_ext, map_eq. intros i. rewrite !lookup_delete. repeat case_decide; done.
  - transitivity (put_timers (delete c (delete c (timers (browser w)))) w); [reflexivity |].
    transitivity (put_timers (delete c (timers (browser w))) w); [| reflexivity].
    apply put_timers_ext, map_eq. intros i. rewrite !lookup_delete. repeat case_decide; done.
  - transitivity (put_timers (delete t (delete t (timers (browser w)))) w); [reflexivity |].
    transitivity (put_timers (delete t (timers (browser w))) w); [| reflexivity].
    apply put_timers_ext, map_eq. intros i. rewrite !lookup_delete. repeat case_decide; done.
Qed.

Lemma refs_stop w : refs (settle stop w) = refs w.
Proof.
  rewrite stop_eq.
  destruct (clear_ref_frame (countdownTimerRef (refs w))
              (clear_ref (stopTimerRef (refs w)) (halt_encoder w))) as (_ & -> & _).
  destruct (clear_ref_frame (stopTimerRef (refs w)) (halt_encoder w)) as (_ & -> & _).
  apply halt_encoder_frame.
Qed.

(** [stop] twice is [stop] once. *)
Lemma stop_idem w : settle stop (settle stop w) = settle stop w.
Proof.
  rewrite (stop_eq (settle stop w)), refs_stop. rewrite (stop_eq w).
  rewrite !halt_encoder_clear_ref, halt_encoder_idem. apply clear_ref_twice.
Qed.

Lemma stop_release b w : settle stop (release b w) = release b (settle stop w).
Proof.
  rewrite !stop_eq.
  assert (Hh : ∀ x, halt_encoder (release b x) = release b (halt_encoder x)).
  { intros x. unfold halt_encoder, release.
    destruct (streamRef (refs x)) as [s|] eqn:Hs, b as [u|];
      cbn [refs put_urls put_streamRef put_streams with_browser with_refs recorderRef];
      destruct (recorderRef (refs x)) as [r|];
      repeat match goal with
        | |- context [recorder_state ?q (put_urls ?a ?y)] =>
            change (recorder_state q (put_urls a y)) with (recorder_state q y)
        | |- context [recorder_state ?q (put_streamRef ?a ?y)] =>
            change (recorder_state q (put_streamRef a y)) with (recorder_state q y)
        | |- context [recorder_state ?q (put_streams ?a ?y)] =>
            change (recorder_state q (put_streams a y)) with (recorder_state q y)
        end;
      try (match goal with |- context [decide ?P] => destruct (decide P) end);
      cbn; rewrite ?Hs; done. }
  assert (Hc : ∀ o x, clear_ref o (release b x) = release b (clear_ref o x)).
  { intros o x. destruct o as [id|]; [| done]. unfold clear_ref, release.
    cbn [refs put_timers with_browser].
    destruct (streamRef (refs x)) as [s|], b as [u|]; reflexivity. }
  assert (Hr : ∀ x, stopTimerRef (refs (release b x)) = stopTimerRef (refs x) ∧
                    countdownTimerRef (refs (release b x)) = countdownTimerRef (refs x)).
  { intros x. unfold release. destruct (streamRef (refs x)), b; done. }
  destruct (Hr w) as [-> ->]. by rewrite Hh, !Hc.
Qed.

Lemma put_urls_ext u u' w : u = u' → put_urls u w = put_urls u' w.
Proof. by intros ->. Qed.

Lemma release_idem b w : release b (release b w) = release b w.
Proof.
  unfold release at 2 3.
  destruct (streamRef (refs w)) as [s|] eqn:Hs, b as [u|]; unfold release; cbn [refs
    put_urls put_streamRef put_streams with_browser with_refs streamRef]; rewrite ?Hs;
    try reflexivity.
  - set (x := put_streamRef None _).
    transitivity (put_urls ((urls (browser w) ∖ {[u]}) ∖ {[u]}) x); [reflexivity |].
    apply put_urls_ext, set_eq. intros i. rewrite !elem_of_difference. tauto.
  - transitivity (put_urls ((urls (browser w) ∖ {[u]}) ∖ {[u]}) w); [reflexivity |].
    apply put_urls_ext, set_eq. intros i. rewrite !elem_of_difference. tauto.
Qed.

Lemma cleanup_idem b w : settle (cleanup b) (settle (cleanup b) w) = settle (cleanup b) w.
Proof.
  rewrite !cleanup_eq. by rewrite stop_release, stop_idem, release_idem.
Qed.

(** C9.  [cleanup], from any world and whatever [blobUrl] it closed over,
    returns without throwing; after it the stream handle is cleared and
    every track of the stream it held is stopped; and calling it again,
    any number of times, changes nothing. *)
Theorem C9_cleanup_idempotent (blobUrl : option Url) (w : World) :
  let w1 := settle (cleanup blobUrl) w in
  cleanup blobUrl w = Returned tt w1 ∧
  streamRef (refs w1) = None ∧
  (∀ s, streamRef (refs w) = Some s →
        streams (browser w1) !! s = map (λ _, false) <$> streams (browser w) !! s) ∧
  settle (cleanup blobUrl) w1 = w1 ∧
  (∀ n, Nat.iter n (settle (cleanup blobUrl)) w1 = w1).
Proof.
  intros w1. split_and!.
  - apply cleanup_returns.
  - subst w1. rewrite cleanup_eq. unfold release.
    destruct (streamRef (refs (settle stop w))) eqn:Hs, blobUrl; cbn; by rewrite ?Hs.
  - intros s Hs. subst w1. rewrite cleanup_eq. unfold release.
    assert (Hst : streams (browser (settle stop w)) = streams (browser w)).
    { rewrite stop_eq. unfold clear_ref, halt_encoder. repeat case_match; done. }
    rewrite refs_stop, Hs. destruct blobUrl; cbn; rewrite Hst; apply list_lookup_alter_eq.
  - apply cleanup_idem.
  - intros n. induction n as [| n IH]; [done |].
    rewrite Nat.iter_succ, IH. apply cleanup_idem.
Qed.

(** * One encoder at a time *)

Lemma live_encoders_spec w r : r ∈ live_encoders w ↔ recorder_state r w = recording.
Proof.
  unfold live_encoders. rewrite list_elem_of_filter, elem_of_seq.
  split; [by intros [? _] | intros H; split; [done |]].
  unfold recorder_state, recorder in H.
  destruct (recorders (browser w) !! r) eqn:Hr; [| done].
  apply lookup_lt_Some in Hr. lia.
Qed.

(** While every promise settles before the next event, at most one recorder
    is recording, and Start is disabled while one is. *)
Lemma single_encoder ts (w : World) :
  reachable ts w →
  (∀ r1 r2, recorder_state r1 w = recording → recorder_state r2 w = recording → r1 = r2) ∧
  (live_encoders w = [] ∨ ∃ r, live_encoders w = [r]) ∧
  (∀ r acq, recorder_state r w = recording → step ts (ClickStart acq) w = None).
Proof.
  intros [HC _]%Inv_reachable.
  assert (Huniq : ∀ r1 r2, recorder_state r1 w = recording →
                           recorder_state r2 w = recording → r1 = r2).
  { intros r1 r2 H1 H2. destruct (calm_live w HC r1 H1) as (E1 & _).
    destruct (calm_live w HC r2 H2) as (E2 & _). congruence. }
  split_and!; [done | |].
  - assert (Hnd : NoDup (live_encoders w)) by (apply NoDup_filter, NoDup_seq).
    destruct (live_encoders w) as [| a [| b l]] eqn:Hl; [by left | right; by exists a |].
    exfalso. assert (a = b) as ->.
    { apply Huniq; apply live_encoders_spec; rewrite Hl; set_solver. }
    apply NoDup_cons in Hnd as [Hn _]. set_solver.
  - intros r acq Hr. destruct (calm_live w HC r Hr) as (_ & Hst & _).
    unfold step. cbn. by rewrite Hst.
Qed.

Lemma reachable_run ts evs w : run ts evs (mount 0) = Some w → reachable ts w.
Proof. intros H. by exists 0, evs. Qed.

(** * The deadline *)

Lemma release_timers b w : timers (browser (release b w)) = timers (browser w).
Proof. unfold release. repeat case_match; reflexivity. Qed.

Lemma stop_cancels w id :
  countdownTimerRef (refs w) = Some id ∨ stopTimerRef (refs w) = Some id →
  timers (browser (settle stop w)) !! id = None.
Proof.
  intros H. destruct (timers (browser (settle stop w)) !! id) eqn:E; [exfalso | done].
  rewrite stop_eq in E.
  apply clear_ref_timers in E as [E Hc]. apply clear_ref_timers in E as [E Ht].
  destruct H; congruence.
Qed.

Lemma halt_encoder_idle w :
  (∀ r, recorderRef (refs w) = Some r → recorder_state r w ≠ recording) →
  halt_encoder w = w.
Proof.
  intros H. unfold halt_encoder. destruct (recorderRef (refs w)) as [r |]; [| done].
  case_decide; [| done]. by destruct (H r).
Qed.

Lemma recorder_state_ext r w w' :
  recorders (browser w') = recorders (browser w) → recorder_state r w' = recorder_state r w.
Proof. unfold recorder_state, recorder. by intros ->. Qed.

(** The deadline of a recording, fired: the recorder stops, its stop event
    is queued, and the delivery of that event sets "finished". *)
Lemma deadline_fires ts w r id due p :
  Calm w → recorder_state r w = recording →
  timers (browser w) !! id = Some (Timeout due) → due ≤ now (browser w) →
  ∃ w', step ts (TimerFires id p) w = Some w' ∧
        recorder_state r w' = inactive ∧ stopping (browser w') = [r] ∧
        ∃ w'', step ts (RecorderStopped r) w' = Some w'' ∧
               status (hooks w'') = Finished ∧ is_Some (recordedBlob (hooks w'')).
Proof.
  intros HC Hrec Hid Hdue. destruct (calm_live w HC r Hrec) as (Href & Hst & Hq).
  unfold step, disabled, handle. rewrite (fire_timeout_eq p id due w Hid Hdue).
  eexists. split; [reflexivity |]. rewrite stop_eq.
  set (w2 := clear_ref (Some id) w).
  destruct (clear_ref_frame (Some id) w) as (Hh2 & Hr2 & Hrc2 & Hq2 & _). fold w2 in Hh2, Hr2, Hrc2, Hq2.
  assert (Hrec2 : recorder_state r w2 = recording) by (by rewrite (recorder_state_ext r w w2)).
  assert (Hhalt : halt_encoder w2
                  = put_stopping [r] (put_recorder_state r inactive
                       (from_option rec_startedAt 0 (recorder r w2)) w2)).
  { unfold halt_encoder. rewrite Hr2, Href, decide_True by done. by rewrite Hq2, Hq. }
  set (w3 := halt_encoder w2) in *.
  set (w4 := clear_ref (stopTimerRef (refs w2)) w3).
  set (w5 := clear_ref (countdownTimerRef (refs w2)) w4).
  destruct (clear_ref_frame (stopTimerRef (refs w2)) w3) as (Hh4 & Hr4 & Hrc4 & Hq4 & _).
  destruct (clear_ref_frame (countdownTimerRef (refs w2)) w4) as (Hh5 & Hr5 & Hrc5 & Hq5 & _).
  fold w4 in Hh4, Hr4, Hrc4, Hq4, Hh5, Hr5, Hrc5, Hq5. fold w5 in Hh5, Hr5, Hrc5, Hq5.
  assert (Hs3 : recorder_state r w3 = inactive).
  { rewrite Hhalt. rewrite (recorder_state_ext r (put_recorder_state r inactive
       (from_option rec_startedAt 0 (recorder r w2)) w2)) by reflexivity.
    rewrite recorder_state_put_recorder_state, decide_True by done.
    by destruct (recorder r w2). }
  assert (Hq3 : stopping (browser w3) = [r]) by (by rewrite Hhalt).
  split_and!.
  - rewrite (recorder_state_ext r w4 w5), (recorder_state_ext r w3 w4); done.
  - congruence.
  - assert (Hq5' : stopping (browser w5) = [r]) by congruence.
    rewrite Hq5'. rewrite decide_True by done.
    eexists. split; [reflexivity |]. generalize w5. intros w0. mrun. cbn. eauto.
Qed.

Lemma clear_ref_log o w : log (browser (clear_ref o w)) = log (browser w).
Proof. by destruct o. Qed.

Lemma clear_refs_frame a b c w :
  let w' := clear_ref a (clear_ref b (clear_ref c w)) in
  hooks w' = hooks w ∧ refs w' = refs w ∧
  recorders (browser w') = recorders (browser w) ∧
  stopping (browser w') = stopping (browser w) ∧
  log (browser w') = log (browser w).
Proof. by destruct a, b, c. Qed.

(** * Stop during the countdown *)

(** The failing input of C6, run: the interval is cancelled, there is no
    recorder and no artifact, and the status is still "countdown". *)
Lemma stop_in_countdown_run :
  (λ w, (status (hooks w), timers (browser w), recorders (browser w),
         recordedBlob (hooks w), disabled (ClickStart camera) w))
    <$> run plain_toString stop_in_countdown (mount 0)
  = Some (Countdown, ∅, [], None, true).
Proof. vm_compute. reflexivity. Qed.

(** C6.  Stop, pressed during the countdown, cancels the interval, so that
    [beginRecording] is not reached: no countdown interval is pending
    afterwards, and no recorder, no artifact and no log entry is added.
    The status, though, is not set: it stays "countdown", where Start and
    Open Camera are disabled. *)
Theorem C6_stop_in_countdown ts (w : World) :
  reachable ts w → status (hooks w) = Countdown →
  ∃ w', step ts ClickStop w = Some w' ∧
        status (hooks w') = Countdown ∧
        no_interval w' ∧
        hooks w' = hooks w ∧
        recorders (browser w') = recorders (browser w) ∧
        log (browser w') = log (browser w) ∧
        (∀ acq, disabled (ClickStart acq) w' = true ∧ disabled (ClickOpen acq) w' = true).
Proof.
  intros [HC _]%Inv_reachable Hst.
  assert (Hidle : idle_encoders w) by (apply Calm_idle; [done | congruence]).
  unfold step, disabled, handle. rewrite Hst. cbn [bool_decide negb andb].
  rewrite !bool_decide_eq_false_2 by discriminate.
  rewrite bool_decide_eq_true_2 by done. cbn [negb andb].
  eexists. split; [reflexivity |]. rewrite stop_eq.
  rewrite halt_encoder_idle by (intros r _; apply Hidle).
  destruct (clear_refs_frame (countdownTimerRef (refs w)) (stopTimerRef (refs w)) None w)
    as (Hh & Hr & Hrc & Hq & Hl).
  cbn [clear_ref] in Hh, Hr, Hrc, Hq, Hl.
  split_and!; [by rewrite Hh | | done | done | done |].
  - intros id due rem s Hi.
    apply clear_ref_timers in Hi as [Hi Hc]. apply clear_ref_timers in Hi as [Hi _].
    destruct (calm_interval w HC _ _ _ _ Hi) as (_ & Href & _). congruence.
  - intros acq. rewrite Hh, Hst. done.
Qed.

Lemma C6_stop_in_countdown_witness :
  ∃ w', step plain_toString ClickStop countdown_world = Some w' ∧
        status (hooks w') = Countdown ∧
        disabled (ClickStart camera) w' = true.
Proof.
  destruct (C6_stop_in_countdown plain_toString countdown_world)
    as (w' & Hs & Hst & _ & _ & _ & _ & Hd).
  - apply (reachable_run _
             [ClickOpen camera; ClickStart camera; TimePasses 1000; TimerFires 1 chrome]).
    vm_compute. reflexivity.
  - reflexivity.
  - exists w'. split_and!; [exact Hs | exact Hst | apply Hd].
Defined.

(** * The countdown *)

Lemma begins_app l l' : begins (l ++ l') = (begins l + begins l')%nat.
Proof. unfold begins. by rewrite List.filter_app, length_app. Qed.

Lemma encoders_made_app l l' :
  encoders_made (l ++ l') = (encoders_made l + encoders_made l')%nat.
Proof. unfold encoders_made. by rewrite List.filter_app, length_app. Qed.

Lemma countdowns_app l l' : countdowns (l ++ l') = countdowns l ++ countdowns l'.
Proof. apply omap_app. Qed.

(** * The status "error" *)

Lemma stop_hooks w : hooks (settle stop w) = hooks w.
Proof.
  rewrite stop_eq.
  destruct (clear_ref_frame (countdownTimerRef (refs w))
              (clear_ref (stopTimerRef (refs w)) (halt_encoder w))) as (-> & _).
  destruct (clear_ref_frame (stopTimerRef (refs w)) (halt_encoder w)) as (-> & _).
  apply halt_encoder_frame.
Qed.

Lemma cleanup_hooks b w : hooks (settle (cleanup b) w) = hooks w.
Proof.
  rewrite cleanup_eq. transitivity (hooks (settle stop w)); [| apply stop_hooks].
  unfold release. repeat case_match; reflexivity.
Qed.

Lemma status_core w w' : core w' = core w → status (hooks w') = status (hooks w).
Proof. unfold core. by intros [= -> _]. Qed.

Section Final.
Variable ts : number → string.

Lemma Error_step ev w w' :
  Calm w → status (hooks w) = Error → step ts ev w = Some w' →
  status (hooks w') = Error.
Proof.
  intros HC Hst. unfold step. destruct (disabled ev w) eqn:Hdis; [done |].
  assert (Hidle : idle_encoders w) by (apply Calm_idle; [done | congruence]).
  destruct ev as [acq | acq | | | | f probe | i o | id p | i | r data | r | r | b | dt]; cbn [handle]; intros Hh.
  - cbn in Hdis. by rewrite Hst in Hdis.
  - cbn in Hdis. by rewrite Hst in Hdis.
  - cbn in Hdis. by rewrite Hst in Hdis.
  - injection Hh as <-. rewrite <- Hst. apply status_core, core_send_enter.
  - injection Hh as <-. rewrite <- Hst. apply status_core, core_send_enter.
  - injection Hh as <-. rewrite <- Hst. apply status_core, core_pick.
  - destruct (inflight (browser w) !! i); [| done]. injection Hh as <-.
    rewrite <- Hst. apply status_core, core_send_resume.
  - unfold fire in Hh.
    destruct (timers (browser w) !! id) as [[due rem s | due] |] eqn:Hid; [| | done].
    + destruct (calm_interval w HC _ _ _ _ Hid) as (? & _). congruence.
    + destruct (due <=? now (browser w)); [| done]. injection Hh as <-.
      change (settle (clearTimer id;; stop) w) with (settle stop (clear_ref (Some id) w)).
      by rewrite stop_hooks.
  - destruct (frames (browser w) !! i); [| done]. injection Hh as <-.
    rewrite <- Hst. apply status_core, core_tick.
  - destruct (_ || _); [| done]. injection Hh as <-.
    rewrite <- Hst. apply status_core, core_data.
  - destruct (stopping (browser w)) as [| r' rest] eqn:Hq; [done |].
    destruct (calm_stopping w HC _ _ Hq) as (_ & ? & _). congruence.
  - destruct (decide (recorder_state r w = recording)) as [Hr |]; [| done].
    by destruct (Hidle r).
  - injection Hh as <-. by rewrite cleanup_hooks.
  - destruct (0 <? dt); [| done]. by injection Hh as <-.
Qed.

End Final.

Section Final2.
Variable ts : number → string.

Lemma Error_run evs : ∀ w w',
  Inv w → status (hooks w) = Error → run ts evs w = Some w' →
  Inv w' ∧ status (hooks w') = Error.
Proof.
  induction evs as [| ev evs IH]; intros w w' HI Hst; cbn.
  - by intros [= <-].
  - destruct (step ts ev w) as [w1 |] eqn:Hs; [| done]. intros Hr.
    apply (IH w1); [by eapply Inv_step | | done].
    destruct HI as [HC _]. by eapply Error_step.
Qed.

(** In one piece, the status "error" is final: no handler sets another
    status, no recorder records, no countdown runs, and Open Camera, Start
    and Stop are disabled. *)
Lemma Error_final (w w' : World) (evs : list Event) :
  reachable ts w → status (hooks w) = Error → run ts evs w = Some w' →
  status (hooks w') = Error ∧
  idle_encoders w' ∧ no_interval w' ∧
  ∀ acq, step ts (ClickOpen acq) w' = None ∧
         step ts (ClickStart acq) w' = None ∧
         step ts ClickStop w' = None.
Proof.
  intros HI%Inv_reachable Hst Hr.
  destruct (Error_run evs w w' HI Hst Hr) as [[HC _] Hst'].
  split_and!; [done | | |].
  - apply Calm_idle; [done | congruence].
  - apply Calm_no_interval; [done | congruence].
  - intros acq. unfold step, disabled. rewrite Hst'. done.
Qed.

Lemma no_interval_core w w' : core w' = core w → no_interval w → no_interval w'.
Proof.
  intros Hc H id due rem s.
  assert (timers (browser w') = timers (browser w)) as -> by (unfold core in Hc; congruence).
  apply H.
Qed.

Lemma recorders_core w w' :
  core w' = core w → recorders (browser w') = recorders (browser w).
Proof. unfold core. congruence. Qed.

Lemma stop_recorders_idle w :
  idle_encoders w → recorders (browser (settle stop w)) = recorders (browser w).
Proof.
  intros Hidle. rewrite stop_eq, halt_encoder_idle by (intros r _; apply Hidle).
  by destruct (clear_refs_frame (countdownTimerRef (refs w)) (stopTimerRef (refs w)) None w)
    as (_ & _ & ? & _).
Qed.

Lemma no_interval_stop w : no_interval w → no_interval (settle stop w).
Proof.
  intros H id due rem s Hi. rewrite stop_eq in Hi.
  apply clear_ref_timers in Hi as [Hi _]. apply clear_ref_timers in Hi as [Hi _].
  destruct (halt_encoder_frame w) as (_ & _ & Ht & _). rewrite Ht in Hi.
  by destruct (H _ _ _ _ Hi).
Qed.

Lemma Cancelled_step ev w w' :
  Calm w → status (hooks w) = Countdown → no_interval w → step ts ev w = Some w' →
  status (hooks w') = Countdown ∧ no_interval w' ∧
  recorders (browser w') = recorders (browser w).
Proof.
  intros HC Hst Hni. unfold step. destruct (disabled ev w) eqn:Hdis; [done |].
  assert (Hidle : idle_encoders w) by (apply Calm_idle; [done | congruence]).
  assert (Hcore : ∀ w1, core w1 = core w →
            status (hooks w1) = Countdown ∧ no_interval w1 ∧
            recorders (browser w1) = recorders (browser w)).
  { intros w1 Hc. split_and!; [rewrite <- Hst; by apply status_core
                              | by eapply no_interval_core | by apply recorders_core]. }
  destruct ev as [acq | acq | | | | f probe | i o | id p | i | r data | r | r | b | dt]; cbn [handle]; intros Hh.
  - cbn in Hdis. by rewrite Hst in Hdis.
  - cbn in Hdis. by rewrite Hst in Hdis.
  - injection Hh as <-.
    split_and!; [by rewrite stop_hooks | by apply no_interval_stop | by apply stop_recorders_idle].
  - injection Hh as <-. apply Hcore, core_send_enter.
  - injection Hh as <-. apply Hcore, core_send_enter.
  - injection Hh as <-. apply Hcore, core_pick.
  - destruct (inflight (browser w) !! i); [| done]. injection Hh as <-.
    apply Hcore, core_send_resume.
  - unfold fire in Hh.
    destruct (timers (browser w) !! id) as [[due rem s | due] |] eqn:Hid; [| | done].
    + by destruct (Hni _ _ _ _ Hid).
    + destruct (due <=? now (browser w)); [| done]. injection Hh as <-.
      change (settle (clearTimer id;; stop) w) with (settle stop (clear_ref (Some id) w)).
      split_and!; [by rewrite stop_hooks | |].
      * apply no_interval_stop.
        intros id' d r s Hi. apply clear_ref_timers in Hi as [Hi _].
        by destruct (Hni _ _ _ _ Hi).
      * rewrite stop_recorders_idle; [done |]. by apply (idle_ext w).
  - destruct (frames (browser w) !! i); [| done]. injection Hh as <-.
    apply Hcore, core_tick.
  - destruct (_ || _); [| done]. injection Hh as <-. apply Hcore, core_data.
  - destruct (stopping (browser w)) as [| r' rest] eqn:Hq; [done |].
    destruct (calm_stopping w HC _ _ Hq) as (_ & ? & _). congruence.
  - destruct (decide (recorder_state r w = recording)) as [Hr |]; [| done].
    by destruct (Hidle r).
  - injection Hh as <-. rewrite cleanup_eq.
    assert (Hc : core (release b (settle stop w)) = core (settle stop w))
      by apply core_release.
    split_and!.
    + rewrite (status_core _ _ Hc). by rewrite stop_hooks.
    + eapply no_interval_core; [exact Hc |]. by apply no_interval_stop.
    + rewrite (recorders_core _ _ Hc). by apply stop_recorders_idle.
  - destruct (0 <? dt); [| done]. by injection Hh as <-.
Qed.

Lemma Cancelled_run evs : ∀ w w',
  Inv w → status (hooks w) = Countdown → no_interval w → run ts evs w = Some w' →
  status (hooks w') = Countdown ∧ no_interval w' ∧
  recorders (browser w') = recorders (browser w).
Proof.
  induction evs as [| ev evs IH]; intros w w' HI Hst Hni; cbn.
  - by intros [= <-].
  - destruct (step ts ev w) as [w1 |] eqn:Hs; [| done]. intros Hr.
    destruct (Cancelled_step ev w w1 (proj1 HI) Hst Hni Hs) as (Hst1 & Hni1 & Hrc1).
    destruct (IH w1 w') as (? & ? & ?); [by eapply Inv_step | done | done | done |].
    split_and!; [done | done | congruence].
Qed.

(** In one piece, a countdown cancelled by Stop is a dead end. *)
Lemma Cancelled_final (w w1 w' : World) (evs : list Event) :
  reachable ts w → status (hooks w) = Countdown → step ts ClickStop w = Some w1 →
  run ts evs w1 = Some w' →
  status (hooks w') = Countdown ∧ no_interval w' ∧
  recorders (browser w') = recorders (browser w) ∧
  ∀ acq, step ts (ClickStart acq) w' = None ∧ step ts (ClickOpen acq) w' = None.
Proof.
  intros HI%Inv_reachable Hst Hs Hr.
  assert (HI1 : Inv w1) by (by eapply Inv_step).
  assert (Hidle : idle_encoders w) by (apply Calm_idle; [apply HI | congruence]).
  unfold step in Hs. destruct (disabled ClickStop w); [done |]. injection Hs as <-.
  destruct (Cancelled_run evs (settle stop w) w' HI1) as (Hst' & Hni' & Hrc'); [| | done |].
  - by rewrite stop_hooks.
  - intros id due rem s Hi. rewrite stop_eq in Hi.
    apply clear_ref_timers in Hi as [Hi Hc]. apply clear_ref_timers in Hi as [Hi _].
    destruct (halt_encoder_frame w) as (_ & _ & Ht & _). rewrite Ht in Hi.
    destruct (calm_interval w (proj1 HI) _ _ _ _ Hi) as (_ & Href & _). congruence.
  - split_and!; [done | done | |].
    + rewrite Hrc'. by apply stop_recorders_idle.
    + intros acq. unfold step, disabled. by rewrite Hst'.
Qed.

End Final2.

Lemma Tidy_face w w' : face w' = face w → Tidy w → Tidy w'.
Proof.
  unfold face. intros [= Hs Hb Hu Hf Hd Hi Hq Hl Hn] [].
  split; rewrite ?Hs, ?Hb, ?Hu, ?Hf, ?Hd, ?Hi, ?Hq, ?Hl, ?Hn; done.
Qed.

Lemma face_stop w : face (settle stop w) = face w.
Proof.
  unfold face. rewrite stop_hooks. rewrite stop_eq.
  destruct (countdownTimerRef (refs w)), (stopTimerRef (refs w)); cbn;
    unfold halt_encoder; repeat case_match; reflexivity.
Qed.

Lemma face_data w data : face (settle (ondataavailable data) w) = face w.
Proof. destruct data; frame. Qed.

Lemma face_tick w f fs' : face (settle (tick f) (put_frames fs' w)) = face w.
Proof. frame. Qed.

Lemma face_time t w : face (put_now t w) = face w.
Proof. reflexivity. Qed.

Lemma face_ends w r : face (world_of (MediaRecorder_stop r w)) = face w.
Proof. unfold MediaRecorder_stop. repeat case_match; reflexivity. Qed.

(** [ensureStream] changes nothing of the face but the status, which it
    leaves or sets to "ready". *)
Lemma face_ensureStream acq w :
  let w' := world_of (ensureStream acq w) in
  (status (hooks w') = status (hooks w) ∨ status (hooks w') = Ready) ∧
  recordedBlob (hooks w') = recordedBlob (hooks w) ∧
  blobUrl (hooks w') = blobUrl (hooks w) ∧
  selectedFile (hooks w') = selectedFile (hooks w) ∧
  selectedDuration (hooks w') = selectedDuration (hooks w) ∧
  isSending (hooks w') = isSending (hooks w) ∧
  inflight (browser w') = inflight (browser w) ∧
  urls (browser w') = urls (browser w) ∧
  nextUrl (browser w') = nextUrl (browser w).
Proof. mrun. repeat (branch; mrun); cbn; auto 12. Qed.

Lemma Tidy_ensureStream acq w :
  Tidy w → status (hooks w) ≠ Finished → Tidy (world_of (ensureStream acq w)).
Proof.
  intros [] Hnf.
  destruct (face_ensureStream acq w) as (Hs & Hb & Hu & Hf & Hd & Hi & Hq & Hl & Hn).
  split; rewrite ?Hb, ?Hu, ?Hf, ?Hd, ?Hi, ?Hq, ?Hl, ?Hn; try done.
  split.
  - intros Hfin. destruct Hs as [Hs | Hs]; congruence.
  - intros Hsome. apply tidy_artifact0 in Hsome. done.
Qed.

Lemma Tidy_start acq w : Tidy w → Tidy (settle (start acq) w).
Proof.
  intros []. rewrite start_eq.
  destruct (face_ensureStream acq (reset w)) as (_ & Hb & Hu & Hf & Hd & Hi & Hq & Hl & Hn).
  destruct (ensureStream acq (reset w)) as [s w1 | e w1]; cbn [world_of] in *.
  - split; cbn; rewrite ?Hb, ?Hu, ?Hf, ?Hd, ?Hi, ?Hq, ?Hl, ?Hn; cbn; try done.
  - split; cbn; rewrite ?Hb, ?Hu, ?Hf, ?Hd, ?Hi, ?Hq, ?Hl, ?Hn; cbn; try done.
Qed.

Lemma Tidy_send_enter f l w :
  Tidy w → isSending (hooks w) = false → Tidy (settle (send_enter f l) w).
Proof.
  intros [] Hns. destruct f as [f |]; [| by split].
  destruct tidy_upload0 as [[_ Hq] | [? _]]; [| congruence].
  split; mrun; cbn; try done. right. split; [done |]. rewrite Hq. by eexists.
Qed.

Section Sends.
Variable ts : number → string.

Lemma Tidy_send_resume o i w :
  Tidy w → is_Some (inflight (browser w) !! i) →
  Tidy (settle (send_resume ts o) (put_inflight (delete i (inflight (browser w))) w)).
Proof.
  intros [] [q Hi].
  assert (Hq : delete i (inflight (browser w)) = []).
  { destruct tidy_upload0 as [[_ Hq] | [_ [q' Hq]]]; rewrite Hq in Hi |- *.
    - done.
    - by destruct i. }
  rewrite Hq.
  split; destruct o as [e | c t []]; mrun; repeat (branch; mrun); cbn; auto.
Qed.

Lemma Tidy_pick f probe w : Tidy w → Tidy (settle (handleFilePick ts f probe) w).
Proof.
  intros [].
  assert (Hfresh : ∀ u, u ∈ urls (browser w) → (u < Pos.succ (nextUrl (browser w)))%positive).
  { intros u Hu%tidy_fresh0. lia. }
  split; destruct f as [f |], probe as [d |]; mrun; cbn [probe_duration];
    repeat (branch; mrun); cbn; try done.
  all: try (intros ? [= <-]; eauto).
  all: try (intros u; rewrite elem_of_difference, elem_of_union; intros [[Hu | Hu] Hne];
            [by destruct Hne | by apply Hfresh]).
Qed.

End Sends.

Lemma Tidy_restatus st w :
  Tidy w → status (hooks w) ≠ Finished → st ≠ Finished → Tidy (put_status st w).
Proof.
  intros [] Hnf Hst. split; cbn; try done.
  split; [done |]. intros H%tidy_artifact0. done.
Qed.

Lemma face_clear_ref o w : face (clear_ref o w) = face w.
Proof. by destruct o. Qed.

Lemma Tidy_beginRecording p s w :
  Tidy w → status (hooks w) ≠ Finished → Tidy (settle (beginRecording p s) w).
Proof.
  intros HT Hnf. rewrite beginRecording_eq.
  destruct (constructor_throws p) as [e |]; [| destruct (start_throws p) as [e |]].
  - apply (Tidy_face (put_status Error w)); [reflexivity | by apply Tidy_restatus].
  - apply (Tidy_face (put_status Error w)); [reflexivity | by apply Tidy_restatus].
  - apply (Tidy_face (put_status Recording w)); [reflexivity | by apply Tidy_restatus].
Qed.

Lemma Tidy_fire p id w w' : Calm w → Tidy w → fire id p w = Some w' → Tidy w'.
Proof.
  intros HC HT Hf. unfold fire in Hf.
  destruct (timers (browser w) !! id) as [[due rem s | due] |] eqn:Hid; [| | done].
  - destruct (due <=? now (browser w)) eqn:Hdue; [| done].
    assert (Hf' := fire_interval_eq p id due rem s w Hid ltac:(lia)).
    unfold fire in Hf'. rewrite Hid, Hdue in Hf'. rewrite Hf' in Hf. clear Hf'.
    injection Hf as <-.
    destruct (calm_interval w HC _ _ _ _ Hid) as (Hst & _).
    destruct (rem - 1 <=? 0).
    + apply Tidy_beginRecording.
      * apply (Tidy_face w); [| done]. by rewrite face_clear_ref.
      * destruct (clear_ref_frame (countdownTimerRef (refs w)) (counted id due rem s w))
          as (Hh & _). rewrite Hh. cbn. congruence.
    + by apply (Tidy_face w).
  - destruct (due <=? now (browser w)); [| done]. injection Hf as <-.
    change (settle (clearTimer id;; stop) w) with (settle stop (clear_ref (Some id) w)).
    apply (Tidy_face w); [| done]. by rewrite face_stop.
Qed.

Lemma Tidy_stopped r q w : Tidy w → Tidy (settle (onstop r) (put_stopping q w)).
Proof.
  intros []. split; mrun; cbn.
  - split; eauto.
  - split; eauto.
  - done.
  - done.
  - intros u. rewrite elem_of_union, elem_of_singleton. intros [-> | Hu%tidy_fresh0]; lia.
Qed.

Lemma Tidy_release b w : Tidy w → Tidy (release b w).
Proof.
  intros []. unfold release.
  destruct b as [u0 |], (streamRef (refs w)) as [s0 |]; cbv zeta; constructor; cbn; try done.
  all: intros u [Hu _]%elem_of_difference; by apply tidy_fresh0.
Qed.

Lemma Tidy_cleanup b w : Tidy w → Tidy (settle (cleanup b) w).
Proof.
  intros HT. rewrite cleanup_eq. apply Tidy_release.
  apply (Tidy_face w); [apply face_stop | done].
Qed.

Lemma Tidy_mount t0 : Tidy (mount t0).
Proof.
  split; cbn; try done.
  by left.
Qed.

Section TidyReach.
Variable ts : number → string.

Lemma Tidy_step ev w w' : Calm w → Tidy w → step ts ev w = Some w' → Tidy w'.
Proof.
  intros HC HT. unfold step. destruct (disabled ev w) eqn:Hdis; [done |].
  destruct ev as [acq | acq | | | | f probe | i o | id p | i | r data | r | r | b | dt]; cbn [handle]; intros Hh.
  - injection Hh as <-.
    assert (Hopen : settle (ensureStream acq;; mret tt) w = world_of (ensureStream acq w)).
    { unfold settle. cbv beta iota zeta delta [mbind M_bind mret M_ret].
      by destruct (ensureStream acq w). }
    rewrite Hopen.
    apply Tidy_ensureStream; [done |]. cbn in Hdis. intros Hs. by rewrite Hs in Hdis.
  - injection Hh as <-. by apply Tidy_start.
  - injection Hh as <-. apply (Tidy_face w); [apply face_stop | done].
  - injection Hh as <-. apply Tidy_send_enter; [done |]. cbn in Hdis.
    by apply orb_false_iff in Hdis as [_ ?].
  - injection Hh as <-. apply Tidy_send_enter; [done |]. cbn in Hdis.
    by apply orb_false_iff in Hdis as [_ ?].
  - injection Hh as <-. by apply Tidy_pick.
  - destruct (inflight (browser w) !! i) eqn:Hi; [| done]. injection Hh as <-.
    apply Tidy_send_resume; [done | by rewrite Hi].
  - by eapply Tidy_fire.
  - destruct (frames (browser w) !! i); [| done]. injection Hh as <-.
    apply (Tidy_face w); [apply face_tick | done].
  - destruct (_ || _); [| done]. injection Hh as <-.
    apply (Tidy_face w); [apply face_data | done].
  - destruct (stopping (browser w)) as [| r' rest] eqn:Hq; [done |].
    destruct (decide (r = r')) as [<- |]; [| done]. injection Hh as <-.
    by apply Tidy_stopped.
  - destruct (decide (recorder_state r w = recording)); [| done]. injection Hh as <-.
    apply (Tidy_face w); [apply face_ends | done].
  - injection Hh as <-. by apply Tidy_cleanup.
  - destruct (0 <? dt); [| done]. injection Hh as <-. by apply (Tidy_face w).
Qed.

Lemma Tidy_run evs : ∀ w w', Inv w → Tidy w → run ts evs w = Some w' → Tidy w'.
Proof.
  induction evs as [| ev evs IH]; intros w w' HI HT; cbn.
  - by intros [= <-].
  - destruct (step ts ev w) as [w1 |] eqn:Hs; [| done]. intros Hr.
    apply (IH w1); [by eapply Inv_step | | done].
    eapply Tidy_step; [apply HI | done | done].
Qed.

Lemma Tidy_reachable w : reachable ts w → Tidy w.
Proof.
  intros (t0 & evs & Hr). eapply Tidy_run; [apply Inv_mount | apply Tidy_mount | exact Hr].
Qed.

End TidyReach.

Section Shown.
Variable ts : number → string.

(** In one piece, the recorded artifact and its object URL are there
    exactly while the status is "finished". *)
Lemma Tidy_artifact (w : World) :
  reachable ts w →
  (status (hooks w) = Finished ↔ is_Some (recordedBlob (hooks w))) ∧
  (status (hooks w) = Finished ↔ is_Some (blobUrl (hooks w))) ∧
  (disabled ClickSendRecorded w = false → status (hooks w) = Finished).
Proof.
  intros Hr. destruct (Tidy_reachable ts w Hr) as [Ha Hu _ _ _].
  split_and!; [done | by rewrite Ha |].
  intros [Hd _]%orb_false_iff. apply Ha.
  apply negb_false_iff, bool_decide_eq_true in Hd. done.
Qed.

(** In one piece, the selected file is one that passed the duration
    check, and its probed duration is the one recorded. *)
Lemma Tidy_selection (w : World) (f : File) :
  reachable ts w → selectedFile (hooks w) = Some f →
  ∃ d, selectedDuration (hooks w) = Some d ∧
       isFinite d = true ∧
       gt (abs (sub d (of_Z 60))) (of_Z 3) = false ∧
       (wf d = true → (Qabs (to_Q d - 60) <= 3)%Q).
Proof.
  intros Hr Hf. destruct (Tidy_reachable ts w Hr) as [_ _ Hs _ _].
  destruct (Hs f Hf) as (d & Hd & Hrej). exists d. split; [done |].
  unfold rejects in Hrej. apply orb_false_iff in Hrej as [Hfin%negb_false_iff Hgt].
  split_and!; [done | done |].
  intros Hwf. apply (tolerance_real d Hwf). by rewrite Hfin, Hgt.
Qed.


End Shown.

(** * Object URLs *)



Section Urls.
Variable ts : number → string.





End Urls.





Section LiveReach.
Variable ts : number → string.



End LiveReach.


Section UrlsThm.
Variable ts : number → string.


End UrlsThm.

(** * The camera *)

Lemma start_returns acq w : start acq w = Returned tt (settle (start acq) w).
Proof.
  unfold settle.
  cbv beta iota zeta delta
    [start mbind M_bind mret M_ret try_catch modify setError setBlobUrl setRecordedBlob
     setAccuracy setCountdown setStatus observe setInterval].
  by destruct (ensureStream acq _).
Qed.

(** X8.  [start] never throws, and it forgets the previous artifact, its
    URL and the score before it knows whether it has a camera.  When
    [getUserMedia] rejects, the status is "error" with the rejection as
    message, no countdown is armed and nothing is logged; what was
    recorded before is gone all the same. *)
Theorem start_without_camera (e : string) (w : World) :
  streamRef (refs w) = None →
  let w' := settle (start (AcqRejected e)) w in
  start (AcqRejected e) w = Returned tt w' ∧
  status (hooks w') = Error ∧ error (hooks w') = e ∧
  recordedBlob (hooks w') = None ∧ blobUrl (hooks w') = None ∧ accuracy (hooks w') = None ∧
  timers (browser w') = timers (browser w) ∧
  countdownTimerRef (refs w') = countdownTimerRef (refs w) ∧
  chunksRef (refs w') = chunksRef (refs w) ∧
  log (browser w') = log (browser w).
Proof.
  intros Hnone w'. split; [apply start_returns |]. subst w'. rewrite start_eq.
  assert (Hthrown : ensureStream (AcqRejected e) (reset w) = Thrown e (reset w)).
  { mrun. cbn. by rewrite Hnone. }
  rewrite Hthrown. cbn. done.
Qed.

Lemma start_without_camera_witness :
  is_Some (recordedBlob (hooks (settle (cleanup None) finished_world))) ∧
  status (hooks (settle (start (AcqRejected "NotAllowedError"))
                   (settle (cleanup None) finished_world))) = Error ∧
  recordedBlob (hooks (settle (start (AcqRejected "NotAllowedError"))
                         (settle (cleanup None) finished_world))) = None.
Proof.
  split; [vm_compute; eauto |].
  destruct (start_without_camera "NotAllowedError" (settle (cleanup None) finished_world))
    as (_ & Hs & _ & Hb & _).
  - vm_compute. reflexivity.
  - split; [exact Hs | exact Hb].
Defined.

(** X9.  [beginRecording] never throws.  When the recorder cannot be
    constructed, or its [start()] throws, the status is "error" with the
    exception as message; no deadline is armed, no animation frame is
    requested, and no recorder is recording that was not before.  In the
    first case there is no new recorder and [recorderRef] is as it was; in
    the second the new recorder, inactive, is in [recorderRef]. *)
Theorem beginRecording_failure (p : Platform) (s : StreamId) (e : string) (w : World) :
  constructor_throws p = Some e ∨ (constructor_throws p = None ∧ start_throws p = Some e) →
  let w' := settle (beginRecording p s) w in
  beginRecording p s w = Returned tt w' ∧
  status (hooks w') = Error ∧ error (hooks w') = e ∧
  timers (browser w') = timers (browser w) ∧
  stopTimerRef (refs w') = stopTimerRef (refs w) ∧
  frames (browser w') = frames (browser w) ∧
  (∀ r, recorder_state r w' = recording → recorder_state r w = recording) ∧
  match constructor_throws p with
  | Some _ =>
      recorders (browser w') = recorders (browser w) ∧
      recorderRef (refs w') = recorderRef (refs w)
  | None =>
      recorderRef (refs w') = Some (length (recorders (browser w))) ∧
      ∃ R, recorders (browser w') = recorders (browser w) ++ [R] ∧ rec_state R = inactive
  end.
Proof.
  intros Hthrows w'. split; [apply beginRecording_returns |]. subst w'.
  rewrite beginRecording_eq.
  destruct Hthrows as [-> | [-> ->]]; cbn; split_and!; try done.
  - intros r. unfold recorder_state, recorder. cbn.
    destruct (decide (r < length (recorders (browser w)))%nat) as [Hlt | Hge].
    + by rewrite lookup_app_l.
    + rewrite lookup_app_r by lia.
      by destruct (r - length (recorders (browser w)))%nat as [| k].
  - eauto.
Qed.

Lemma beginRecording_failure_witness :
  status (hooks (settle (beginRecording no_recorder 0%nat) (mount 0))) = Error ∧
  error (hooks (settle (beginRecording no_recorder 0%nat) (mount 0)))
  = "ReferenceError: MediaRecorder is not defined" ∧
  timers (browser (settle (beginRecording no_recorder 0%nat) (mount 0))) = ∅.
Proof.
  destruct (beginRecording_failure no_recorder 0%nat
              "ReferenceError: MediaRecorder is not defined" (mount 0))
    as (_ & Hs & He & Ht & _).
  - left. reflexivity.
  - split_and!; [exact Hs | exact He | exact Ht].
Defined.

(** * The artifact *)

(** X10.  [pickSupportedMime] returns the first of its four types that
    [MediaRecorder.isTypeSupported] accepts, in the order vp9, vp8, plain
    webm, mp4; it returns [undefined] exactly when there is no
    [MediaRecorder] or none of the four is supported. *)
Theorem pickSupportedMime_first (p : Platform) :
  match pickSupportedMime p with
  | Some t =>
      has_MediaRecorder p = true ∧
      ∃ i, mime_options !! i = Some t ∧ isTypeSupported p t = true ∧
           ∀ j t', (j < i)%nat → mime_options !! j = Some t' → isTypeSupported p t' = false
  | None =>
      has_MediaRecorder p = false ∨
      ∀ t, t ∈ mime_options → isTypeSupported p t = false
  end.
Proof.
  unfold pickSupportedMime, mime_options. cbn [List.find].
  destruct (has_MediaRecorder p); cbn [andb]; [| by left].
  destruct (isTypeSupported p "video/webm;codecs=vp9,opus") eqn:H0.
  { split; [done |]. exists 0%nat. split_and!; [done | done | intros; lia]. }
  destruct (isTypeSupported p "video/webm;codecs=vp8,opus") eqn:H1.
  { split; [done |]. exists 1%nat. split_and!; [done | done |].
    intros [| j] t' Hj; [| lia]. by intros [= <-]. }
  destruct (isTypeSupported p "video/webm") eqn:H2.
  { split; [done |]. exists 2%nat. split_and!; [done | done |].
    intros [| [| j]] t' Hj; [| | lia]; by intros [= <-]. }
  destruct (isTypeSupported p "video/mp4") eqn:H3.
  { split; [done |]. exists 3%nat. split_and!; [done | done |].
    intros [| [| [| j]]] t' Hj; [| | | lia]; by intros [= <-]. }
  right. intros t Ht. repeat (apply elem_of_cons in Ht as [-> | Ht]; [done |]).
  by apply elem_of_nil in Ht.
Qed.

Lemma pickSupportedMime_nonempty p t : pickSupportedMime p = Some t → t ≠ EmptyString.
Proof.
  unfold pickSupportedMime. cbn [List.find].
  repeat (destruct (_ && _); [by intros [= <-] |]). done.
Qed.

Lemma deliver_snoc ds d w :
  deliver (ds ++ [d]) w = settle (ondataavailable d) (deliver ds w).
Proof. unfold deliver. by rewrite foldl_app. Qed.

Lemma bytes_of_snoc ds d :
  bytes_of (ds ++ [d]) = bytes_of ds ++ from_option blob_data [] d.
Proof.
  unfold bytes_of. rewrite omap_app, fmap_app, concat_app.
  destruct d; cbn; by rewrite ?app_nil_r.
Qed.

Lemma deliver_frame ds w :
  hooks (deliver ds w) = hooks w ∧
  browser (deliver ds w) = browser w ∧
  concat (blob_data <$> chunksRef (refs (deliver ds w)))
  = concat (blob_data <$> chunksRef (refs w)) ++ bytes_of ds.
Proof.
  induction ds as [| d ds IH] using rev_ind.
  - cbn. by rewrite app_nil_r.
  - rewrite deliver_snoc, bytes_of_snoc. destruct IH as (Hh & Hb & Hc).
    generalize dependent (deliver ds w). intros w1 Hh Hb Hc.
    destruct d as [d |]; mrun.
    + destruct (decide (0 < length (blob_data d))%nat) as [Hpos | Hzero]; mrun; cbn.
      * rewrite fmap_app, concat_app, Hc, <- app_assoc. cbn. by rewrite app_nil_r.
      * destruct (blob_data d); [| cbn in Hzero; lia]. by rewrite Hc, !app_nil_r.
    + by rewrite Hc, !app_nil_r.
Qed.

(** X11.  The artifact of a recording: when the recorder's stop event is
    delivered, [recordedBlob] holds the bytes of the chunks that were in
    [chunksRef], followed by the bytes of every data event since, in
    order (empty and missing chunks add nothing); its type is the type
    [pickSupportedMime] chose, else the recorder's own, else
    "video/webm"; it has a fresh live object URL, and the status is
    "finished".  [start] empties [chunksRef] when it arms the countdown,
    and [beginRecording] does not touch it. *)
Theorem artifact_of_recording (p : Platform) (s : StreamId) (ds : list (option Blob))
    (w : World) :
  constructor_throws p = None → start_throws p = None →
  let r := length (recorders (browser w)) in
  let w1 := settle (beginRecording p s) w in
  let w3 := settle (onstop r) (deliver ds w1) in
  chunksRef (refs w1) = chunksRef (refs w) ∧
  (∀ acq, status (hooks (settle (start acq) w)) = Countdown →
          chunksRef (refs (settle (start acq) w)) = []) ∧
  ∃ b, recordedBlob (hooks w3) = Some b ∧
       blob_data b = concat (blob_data <$> chunksRef (refs w)) ++ bytes_of ds ∧
       blob_type b
       = match pickSupportedMime p with
         | Some t => t
         | None => if decide (default_mimeType p = EmptyString)
                   then "video/webm" else default_mimeType p
         end ∧
       blobUrl (hooks w3) = Some (nextUrl (browser w)) ∧
       nextUrl (browser w) ∈ urls (browser w3) ∧
       status (hooks w3) = Finished.
Proof.
  intros Hc Hs r w1 w3.
  assert (Hw1 : w1 = capturing p s w).
  { subst w1. by rewrite beginRecording_eq, Hc, Hs. }
  split_and!.
  - by rewrite Hw1.
  - intros acq Hst. rewrite start_eq in *.
    destruct (ensureStream acq (reset w)) as [s' w' | e w']; [done | discriminate Hst].
  - destruct (deliver_frame ds w1) as (Hh & Hb & Hbytes).
    assert (Hrec : recorder r (deliver ds w1)
                   = Some {| rec_state := recording; rec_stream := s;
                             rec_mimeType := default (default_mimeType p) (pickSupportedMime p);
                             rec_startedAt := now (browser w) |}).
    { unfold recorder. rewrite Hb. fold (recorder r w1).
      rewrite Hw1, recorder_capturing. by rewrite decide_True. }
    assert (Hnext : nextUrl (browser (deliver ds w1)) = nextUrl (browser w))
      by (by rewrite Hb, Hw1).
    assert (Hbytes' : concat (map blob_data (chunksRef (refs (deliver ds w1))))
                      = concat (blob_data <$> chunksRef (refs w)) ++ bytes_of ds).
    { rewrite Hw1 in Hbytes |- *. exact Hbytes. }
    clear Hbytes.
    subst w3. generalize dependent (deliver ds w1). intros w2 _ _ Hrec Hnext Hbytes.
    mrun. rewrite Hrec, Hnext.
    pose proof (pickSupportedMime_nonempty p) as Hne. clear Hrec.
    destruct (pickSupportedMime p) as [t |]; cbn; eexists.
    + split_and!; [reflexivity | exact Hbytes | | done | | done].
      * cbn. by rewrite decide_False by (by apply Hne).
      * apply elem_of_union_l, elem_of_singleton. done.
    + split_and!; [reflexivity | exact Hbytes | done | done | | done].
      apply elem_of_union_l, elem_of_singleton. done.
Qed.

(** * Picking and sending *)

Section Picking.
Variable ts : number → string.

Lemma recorded_name_nonempty t : recorded_name t ≠ EmptyString.
Proof. unfold recorded_name. done. Qed.

(** X13.  What the two send buttons hand to [fetch].  Without an artifact
    [sendRecorded] does nothing, and without a selected file [sendSelected]
    does nothing.  Otherwise exactly one request is made: for the artifact,
    a file of its bytes named recorded-<now>.webm, typed as the artifact or
    "video/webm" if that is empty, with source "recorded"; for the selected
    file, the file itself under its own name, or "uploaded.webm" if it has
    none, with source "uploaded". *)
Theorem upload_requests (o : FetchOutcome) (w : World) :
  (recordedBlob (hooks w) = None → sendRecorded ts o w = Returned tt w) ∧
  (selectedFile (hooks w) = None → sendSelected ts o w = Returned tt w) ∧
  (∀ b, recordedBlob (hooks w) = Some b →
     let name := "recorded-" +:+ pretty (now (browser w)) +:+ ".webm" in
     log (browser (settle (sendRecorded ts o) w))
     = log (browser w)
       ++ [ObsFetch
             {| req_file :=
                  {| file_name := name;
                     file_blob :=
                       {| blob_data := blob_data b;
                          blob_type := if decide (blob_type b = EmptyString)
                                       then "video/webm" else blob_type b |} |};
                req_filename := name;
                req_source := "recorded" |}]) ∧
  (∀ f, selectedFile (hooks w) = Some f →
     log (browser (settle (sendSelected ts o) w))
     = log (browser w)
       ++ [ObsFetch
             {| req_file := f;
                req_filename := if decide (file_name f = EmptyString)
                                then "uploaded.webm" else file_name f;
                req_source := "uploaded" |}]).
Proof.
  split_and!.
  - intros Hb. unfold sendRecorded, recorded_file.
    cbv beta iota zeta delta [mbind M_bind gets]. by rewrite Hb.
  - intros Hf. unfold sendSelected. cbv beta iota zeta delta [mbind M_bind gets].
    by rewrite Hf.
  - intros b Hb name.
    assert (Hs : settle (sendRecorded ts o) w
                 = settle (send ts {| file_name := recorded_name (now (browser w));
                                      file_blob :=
                                        {| blob_data := blob_data b;
                                           blob_type := if decide (blob_type b = EmptyString)
                                                        then "video/webm" else blob_type b |} |}
                             "recorded" o) w).
    { unfold settle, sendRecorded, recorded_file.
      cbv beta iota zeta delta [mbind M_bind gets]. by rewrite Hb. }
    match type of Hs with
    | _ = settle (send _ ?f _ _) _ =>
        destruct (send_untouched ts f "recorded" o w) as (_ & Hl & _)
    end.
    rewrite Hs, Hl. unfold request_of. cbn [file_name].
    destruct (decide (recorded_name (now (browser w)) = EmptyString)) as [He | _];
      [by destruct (recorded_name_nonempty _ He) | done].
  - intros f Hf.
    assert (Hs : settle (sendSelected ts o) w = settle (send ts f "uploaded" o) w).
    { unfold settle, sendSelected. cbv beta iota zeta delta [mbind M_bind gets].
      by rewrite Hf. }
    rewrite Hs. destruct (send_untouched ts f "uploaded" o w) as (_ & -> & _).
    unfold request_of. by destruct (decide (file_name f = EmptyString)).
Qed.

End Picking.



Lemma artifact_of_recording_witness :
  ∃ b, recordedBlob (hooks (settle (onstop 0%nat)
                              (deliver [Some (file_blob clip); None]
                                 (settle (beginRecording chrome 0%nat) (mount 0)))))
       = Some b ∧
       blob_data b = [1%N; 2%N; 3%N] ∧
       blob_type b = "video/webm;codecs=vp9,opus".
Proof.
  destruct (artifact_of_recording chrome 0%nat [Some (file_blob clip); None] (mount 0))
    as (_ & _ & b & Hb & Hd & Ht & _); [reflexivity | reflexivity |].
  exists b. split_and!; [exact Hb | exact Hd | exact Ht].
Defined.

(** * The React Native variant *)

Ltac xrun :=
  cbv beta iota zeta delta
    [settle mbind M_bind mret M_ret gets modify throw try_catch try_finally observe
     setStatus setCountdown setSecondsLeft setBlobUrl setRecordedBlob setError
     setAccuracy setInterval setTimeout clearTimer revokeObjectURL
     requestAnimationFrame stop_tracks new_MediaRecorder MediaRecorder_start
     createObjectURL ensureStream ondataavailable onstop tick MediaRecorder_stop
     Expo.cleanup Expo.ensureStream Expo.stopWebRecording Expo.beginWebRecording
     Expo.countdown_callback Expo.startWebRecording Expo.send Expo.sendWeb].

Lemma expo_stop_eq w : Expo.stopWebRecording w = Returned tt (halt_encoder w).
Proof.
  unfold halt_encoder. xrun. destruct (recorderRef (refs w)) as [r |]; [| done].
  xrun. case_decide as Hrec; [| done].
  unfold MediaRecorder_stop. unfold recorder_state in Hrec.
  destruct (recorder r w) as [R |]; [| done]. cbn in Hrec. rewrite Hrec.
  by destruct (decide (recording = inactive)).
Qed.

Lemma expo_stop_spec (w : World) :
  let w' := settle Expo.stopWebRecording w in
  Expo.stopWebRecording w = Returned tt w' ∧
  timers (browser w') = timers (browser w) ∧
  hooks w' = hooks w ∧ refs w' = refs w ∧
  ((∀ r, recorderRef (refs w) = Some r → recorder_state r w ≠ recording) → w' = w) ∧
  (∀ r, recorderRef (refs w) = Some r → recorder_state r w = recording →
        recorder_state r w' = inactive ∧ stopping (browser w') = stopping (browser w) ++ [r]).
Proof.
  intros w'. assert (Hw' : w' = halt_encoder w) by (subst w'; unfold settle; by rewrite expo_stop_eq).
  rewrite Hw'. destruct (halt_encoder_frame w) as (Hh & Hr & Ht & _).
  split_and!; [apply expo_stop_eq | done | done | done | apply halt_encoder_idle |].
  intros r Href Hrec. unfold halt_encoder. rewrite Href, decide_True by done.
  split; [| done].
  rewrite (recorder_state_ext r (put_recorder_state r inactive
             (from_option rec_startedAt 0 (recorder r w)) w)) by reflexivity.
  rewrite recorder_state_put_recorder_state, decide_True by done.
  unfold recorder_state in Hrec. by destruct (recorder r w).
Qed.

(** X14.  In this variant Stop only stops a recorder that is recording.
    It cancels no timer: during the countdown it changes nothing at all,
    so the countdown goes on and the recording begins; and the deadline of
    a recording it stops stays pending.  It never throws and sets no
    state. *)
Theorem expo_stop_cancels_nothing (w : World) :
  let w' := settle Expo.stopWebRecording w in
  Expo.stopWebRecording w = Returned tt w' ∧
  timers (browser w') = timers (browser w) ∧
  hooks w' = hooks w ∧ refs w' = refs w ∧
  ((∀ r, recorderRef (refs w) = Some r → recorder_state r w ≠ recording) → w' = w) ∧
  (∀ r, recorderRef (refs w) = Some r → recorder_state r w = recording →
        recorder_state r w' = inactive ∧ stopping (browser w') = stopping (browser w) ++ [r]).
Proof. apply expo_stop_spec. Qed.

Ltac timers_goal :=
  cbn;
  repeat first [ rewrite lookup_insert_ne by (first [done | congruence | lia])
               | rewrite lookup_delete_ne by (first [done | congruence | lia]) ];
  first [done | congruence].

Lemma expo_deadline_step ev w w' id due :
  fresh_timers w → Expo.handle ev w = Some w' →
  timers (browser w) !! id = Some (Timeout due) →
  (∀ p, ev ≠ Expo.TimerFires id p) →
  timers (browser w') !! id = Some (Timeout due).
Proof.
  intros Hfresh Hh Hid Hev.
  assert (Hne : nextTimer (browser w) ≠ id).
  { intros <-. specialize (Hfresh (nextTimer (browser w))). rewrite Hid in Hfresh.
    specialize (Hfresh ltac:(eauto)). lia. }
  destruct ev as [acq | acq | | id0 p | i | r data | r | r | b | dt]; cbn [Expo.handle] in Hh.
  - injection Hh as <-. xrun. repeat (branch; xrun); timers_goal.
  - injection Hh as <-. xrun. repeat (branch; xrun); timers_goal.
  - injection Hh as <-. destruct (expo_stop_spec w) as (_ & Ht & _).
    cbv zeta in Ht. by rewrite Ht.
  - assert (Hne' : id0 ≠ id) by (intros ->; by destruct (Hev p)).
    unfold Expo.fire in Hh.
    destruct (timers (browser w) !! id0) as [[d rem s | d] |] eqn:Hid0; [| | done].
    + destruct (d <=? now (browser w)); [| done]. injection Hh as <-.
      xrun. cbn. rewrite lookup_insert_eq. xrun.
      repeat (branch; xrun); timers_goal.
    + destruct (d <=? now (browser w)); [| done]. injection Hh as <-.
      change (settle (clearTimer id0;; Expo.stopWebRecording) w)
        with (settle Expo.stopWebRecording (clear_ref (Some id0) w)).
      destruct (expo_stop_spec (clear_ref (Some id0) w)) as (_ & Ht & _).
      cbv zeta in Ht. rewrite Ht. cbn. by rewrite lookup_delete_ne.
  - destruct (frames (browser w) !! i); [| done]. injection Hh as <-.
    xrun. repeat (branch; xrun); timers_goal.
  - destruct (_ || _); [| done]. injection Hh as <-.
    destruct data; xrun; repeat (branch; xrun); timers_goal.
  - destruct (stopping (browser w)) as [| r' rest]; [done |].
    destruct (decide (r = r')); [| done]. injection Hh as <-. xrun. timers_goal.
  - destruct (decide (recorder_state r w = recording)); [| done]. injection Hh as <-.
    xrun. repeat (branch; xrun); timers_goal.
  - injection Hh as <-. xrun. repeat (branch; xrun); timers_goal.
  - destruct (0 <? dt); [| done]. by injection Hh as <-.
Qed.

Section FreshTimers.
Context (T : gmap TimerId Timer) (n : TimerId).
Hypothesis Hfresh : ∀ id, is_Some (T !! id) → (id < n)%positive.

Lemma fresh_insert_next x :
  ∀ id, is_Some (<[n := x]> T !! id) → (id < Pos.succ n)%positive.
Proof.
  intros id. rewrite lookup_insert_is_Some. intros [<- | [_ H%Hfresh]]; lia.
Qed.

Lemma fresh_insert_old k x :
  (k < n)%positive → ∀ id, is_Some (<[k := x]> T !! id) → (id < n)%positive.
Proof.
  intros Hk id. rewrite lookup_insert_is_Some. intros [<- | [_ H%Hfresh]]; lia.
Qed.

Lemma fresh_delete k : ∀ id, is_Some (delete k T !! id) → (id < n)%positive.
Proof. intros id. rewrite lookup_delete_is_Some. intros [_ H%Hfresh]. done. Qed.

End FreshTimers.

Ltac fresh_goal :=
  repeat first [ assumption
               | apply fresh_insert_next
               | apply fresh_delete
               | (apply fresh_insert_old; [| assumption]) ].

Lemma expo_settle_stop w : settle Expo.stopWebRecording w = halt_encoder w.
Proof. unfold settle. by rewrite expo_stop_eq. Qed.

Lemma halt_encoder_table w :
  timers (browser (halt_encoder w)) = timers (browser w) ∧
  nextTimer (browser (halt_encoder w)) = nextTimer (browser w).
Proof. unfold halt_encoder. repeat case_match; done. Qed.

Lemma expo_fresh_step ev w w' :
  fresh_timers w → Expo.handle ev w = Some w' → fresh_timers w'.
Proof.
  intros Hfresh Hh. unfold fresh_timers in *.
  destruct ev as [acq | acq | | id p | i | r data | r | r | b | dt]; cbn [Expo.handle] in Hh.
  - injection Hh as <-. xrun. repeat (branch; xrun); cbn; done.
  - injection Hh as <-. xrun. repeat (branch; xrun); cbn; try done.
    all: by apply fresh_insert_next.
  - injection Hh as <-. rewrite expo_settle_stop.
    destruct (halt_encoder_table w) as [-> ->]. done.
  - unfold Expo.fire in Hh.
    destruct (timers (browser w) !! id) as [[d rem s | d] |] eqn:Hid; [| | done].
    + assert (Hlt : (id < nextTimer (browser w))%positive) by (apply Hfresh; by rewrite Hid).
      destruct (d <=? now (browser w)); [| done]. injection Hh as <-.
      xrun. cbn. rewrite lookup_insert_eq. xrun.
      repeat (branch; xrun); cbn; fresh_goal.
    + destruct (d <=? now (browser w)); [| done]. injection Hh as <-.
      change (settle (clearTimer id;; Expo.stopWebRecording) w)
        with (settle Expo.stopWebRecording (clear_ref (Some id) w)).
      rewrite expo_settle_stop.
      destruct (halt_encoder_table (clear_ref (Some id) w)) as [-> ->]. cbn. fresh_goal.
  - destruct (frames (browser w) !! i); [| done]. injection Hh as <-.
    xrun. repeat (branch; xrun); cbn; done.
  - destruct (_ || _); [| done]. injection Hh as <-.
    destruct data; xrun; repeat (branch; xrun); cbn; done.
  - destruct (stopping (browser w)) as [| r' rest]; [done |].
    destruct (decide (r = r')); [| done]. injection Hh as <-. xrun. cbn. done.
  - destruct (decide (recorder_state r w = recording)); [| done]. injection Hh as <-.
    xrun. repeat (branch; xrun); cbn; done.
  - injection Hh as <-. xrun. repeat (branch; xrun); cbn; done.
  - destruct (0 <? dt); [| done]. by injection Hh as <-.
Qed.

Lemma expo_fresh_run evs : ∀ w w',
  fresh_timers w → Expo.run evs w = Some w' → fresh_timers w'.
Proof.
  induction evs as [| ev evs IH]; intros w w' Hf; cbn.
  - by intros [= <-].
  - destruct (Expo.handle ev w) as [w1 |] eqn:Hh; [| done]. intros Hr.
    apply (IH w1); [by eapply expo_fresh_step | done].
Qed.

Lemma fresh_mount t0 : fresh_timers (mount t0).
Proof. intros id. cbn. rewrite lookup_empty. by intros []%is_Some_None. Qed.

(** X15.  In this variant nothing cancels a deadline: once
    [beginWebRecording] has armed its sixty-second timeout, the timeout
    stays pending through every click, timer, frame, recorder event and
    cleanup, until it fires itself.  When it fires it stops the recorder
    that is in [recorderRef] then, if that one is recording: the recorder
    of a later attempt as well as its own. *)
Theorem expo_deadline_stays (t0 : Z) (evs : list Expo.Event) (w : World)
    (id : TimerId) (due : Z) :
  Expo.run evs (mount t0) = Some w →
  timers (browser w) !! id = Some (Timeout due) →
  (∀ ev w', Expo.handle ev w = Some w' → (∀ p, ev ≠ Expo.TimerFires id p) →
            timers (browser w') !! id = Some (Timeout due)) ∧
  (∀ p r, due ≤ now (browser w) →
          recorderRef (refs w) = Some r → recorder_state r w = recording →
          ∃ w', Expo.handle (Expo.TimerFires id p) w = Some w' ∧
                recorder_state r w' = inactive ∧
                timers (browser w') !! id = None).
Proof.
  intros Hr Hid.
  assert (Hfresh : fresh_timers w) by (eapply expo_fresh_run; [apply fresh_mount | exact Hr]).
  split.
  - intros ev w' Hh Hev. by eapply expo_deadline_step.
  - intros p r Hdue Href Hrec. cbn [Expo.handle]. unfold Expo.fire. rewrite Hid.
    destruct (due <=? now (browser w)) eqn:E; [| lia].
    eexists. split; [reflexivity |].
    change (settle (clearTimer id;; Expo.stopWebRecording) w)
      with (settle Expo.stopWebRecording (clear_ref (Some id) w)).
    destruct (expo_stop_spec (clear_ref (Some id) w)) as (_ & Ht & _ & _ & _ & Hs).
    cbv zeta in Ht, Hs. split.
    + apply (Hs r); [done |]. by rewrite (recorder_state_ext r w).
    + rewrite Ht. cbn. apply lookup_delete_eq.
Qed.

(** X16.  [beginWebRecording] has no [try]: when the recorder cannot be
    constructed the exception escapes the interval callback.  The countdown
    has then reached 0 and its interval is cleared, but the status is still
    "countdown", no error is set, and no recorder and no deadline exist. *)
Theorem expo_capture_failure_is_silent (p : Platform) (e : string) (id : TimerId)
    (due : Z) (s : StreamId) (w : World) :
  timers (browser w) !! id = Some (Interval due 1 s) → due ≤ now (browser w) →
  constructor_throws p = Some e →
  Expo.beginWebRecording p s w = Thrown e (put_log (log (browser w) ++ [ObsBeginCapture]) w) ∧
  ∃ w', Expo.handle (Expo.TimerFires id p) w = Some w' ∧
        status (hooks w') = status (hooks w) ∧
        error (hooks w') = error (hooks w) ∧
        countdown (hooks w') = 0 ∧
        timers (browser w') = delete id (timers (browser w)) ∧
        recorders (browser w') = recorders (browser w) ∧
        recorderRef (refs w') = recorderRef (refs w).
Proof.
  intros Hid Hdue Hc. split.
  - xrun. rewrite Hc. reflexivity.
  - cbn [Expo.handle]. unfold Expo.fire. rewrite Hid.
    destruct (due <=? now (browser w)) eqn:E; [| lia].
    eexists. split; [reflexivity |].
    xrun. cbn. rewrite lookup_insert_eq. xrun. rewrite Hc. xrun. cbn.
    split_and!; try done.
    rewrite !insert_insert_eq. apply delete_insert_eq.
Qed.

Section ExpoSend.
Variable ts : number → string.

(** X17.  [send] of this variant never looks at the HTTP status: whatever
    the status, a body with [probabilities] sets the score, and a body
    without it, or one that does not parse, changes nothing, so that a
    failed upload is not reported.  Only a rejected [fetch] sets the error.
    Nothing else of the page changes, and [send] never throws. *)
Theorem expo_send_ignores_status (file : File) (label : string) (o : FetchOutcome)
    (w : World) :
  Expo.send ts file label o w = Returned tt (settle (Expo.send ts file label o) w) ∧
  settle (Expo.send ts file label o) w
  = match o with
    | FetchRejected e => put_error e w
    | FetchResponse _ _ (Probabilities p) =>
        put_accuracy (Some (toFixed2 ts (mul p (of_Z 100)))) w
    | FetchResponse _ _ _ => w
    end ∧
  (∀ code text body,
     o = FetchResponse code text body →
     error (hooks (settle (Expo.send ts file label o) w)) = error (hooks w)).
Proof.
  destruct o as [e | code text [| | p]]; xrun; split_and!; try done.
  all: by intros ? ? ? [= <- <- <-].
Qed.

End ExpoSend.

(** X18.  [cleanup] of this variant does nothing off the web.  On the web
    it stops the tracks of the stream, forgets the stream and revokes the
    URL its closure holds, and that is all: it stops no recorder and
    cancels no timer, so a recording and its deadline, or a countdown, go
    on after it.  It never throws. *)
Theorem expo_cleanup_leaves_session (os : Expo.OS) (b : option Url) (w : World) :
  let w' := settle (Expo.cleanup os b) w in
  Expo.cleanup os b w = Returned tt w' ∧
  (os ≠ Expo.web → w' = w) ∧
  (os = Expo.web → w' = release b w) ∧
  hooks w' = hooks w ∧
  recorders (browser w') = recorders (browser w) ∧
  timers (browser w') = timers (browser w) ∧
  stopping (browser w') = stopping (browser w).
Proof.
  assert (Hrel : hooks (release b w) = hooks w ∧
                 recorders (browser (release b w)) = recorders (browser w) ∧
                 timers (browser (release b w)) = timers (browser w) ∧
                 stopping (browser (release b w)) = stopping (browser w)).
  { unfold release. repeat case_match; done. }
  unfold release in *. xrun.
  destruct (decide (os = Expo.web)) as [-> | Hos]; xrun.
  - destruct (streamRef (refs w)), b; xrun; cbn in *; split_and!; try done; naive_solver.
  - split_and!; done.
Qed.

(** X19.  In this variant Start is never disabled and [startWebRecording]
    asks nothing about the session: with a stream held it always arms a new
    countdown interval, and it leaves the recorders, the recorder that is
    current, the queue of stop events, the pending timers and their
    deadlines as they are.  A recording that runs, or a countdown, is
    neither refused nor stopped; five seconds later a second recorder
    records beside the first. *)
Theorem expo_start_unguarded (acq : Acquire) (s : StreamId) (w : World) :
  streamRef (refs w) = Some s →
  let w' := settle (Expo.startWebRecording acq) w in
  Expo.handle (Expo.ClickStart acq) w = Some w' ∧
  status (hooks w') = Countdown ∧
  timers (browser w')
  = <[nextTimer (browser w) := Interval (now (browser w) + 1000) 5 s]> (timers (browser w)) ∧
  recorders (browser w') = recorders (browser w) ∧
  recorderRef (refs w') = recorderRef (refs w) ∧
  stopping (browser w') = stopping (browser w) ∧
  (∀ r, recorder_state r w' = recorder_state r w).
Proof.
  intros Hs w'. split; [done |]. subst w'. xrun.
  change (streamRef (refs (put_recordedBlob None (put_blobUrl None (put_error EmptyString w)))))
    with (streamRef (refs w)).
  rewrite Hs. xrun. cbn. split_and!; done.
Qed.

Lemma expo_deadline_stays_witness :
  timers (browser (settle Expo.stopWebRecording expo_recording_world)) !! 2%positive
  = Some (Timeout 65000).
Proof.
  destruct (expo_deadline_stays 0 expo_recording expo_recording_world 2%positive 65000)
    as [H _].
  - vm_compute. reflexivity.
  - vm_compute. reflexivity.
  - apply (H Expo.ClickStop); [reflexivity | discriminate].
Defined.

Lemma expo_capture_failure_is_silent_witness :
  ∃ w', Expo.handle (Expo.TimerFires 1 no_recorder) expo_last_second_world = Some w' ∧
        status (hooks w') = Countdown ∧ error (hooks w') = EmptyString ∧
        timers (browser w') = ∅.
Proof.
  destruct (expo_capture_failure_is_silent no_recorder
              "ReferenceError: MediaRecorder is not defined" 1%positive 5000 0%nat
              expo_last_second_world)
    as (_ & w' & Hh & Hs & He & _ & Ht & _).
  - vm_compute. reflexivity.
  - vm_compute. discriminate.
  - reflexivity.
  - exists w'. split_and!; [exact Hh | exact Hs | exact He |].
    rewrite Ht. vm_compute. reflexivity.
Defined.

(** After a second click on Start and its countdown, two recorders record
    at once. *)
Lemma expo_two_recorders :
  live_encoders
    <$> Expo.run ([Expo.ClickStart camera] ++ expo_ticking 3 5) expo_recording_world
  = Some [0; 1]%nat.
Proof. vm_compute. reflexivity. Qed.

Lemma expo_start_unguarded_witness :
  recorder_state 0 expo_recording_world = recording ∧
  Expo.handle (Expo.ClickStart camera) expo_recording_world
  = Some (settle (Expo.startWebRecording camera) expo_recording_world) ∧
  recorder_state 0 (settle (Expo.startWebRecording camera) expo_recording_world) = recording.
Proof.
  destruct (expo_start_unguarded camera 0%nat expo_recording_world)
    as (Hh & _ & _ & _ & _ & _ & Hr).
  - vm_compute. reflexivity.
  - split_and!; [vm_compute; reflexivity | exact Hh |]. rewrite Hr. vm_compute. reflexivity.
Defined.

(** * More facts about JavaScript numbers *)

(** ** Rounding, by value *)

Lemma loc_of_shr_record_of_loc (m : Z) (l : location) :
  loc_of_shr_record (shr_record_of_loc m l) = l.
Proof. by destruct l as [| []]. Qed.

Lemma shr_fexp_value (m e : Z) (l : location) :
  0 ≤ m →
  ∃ mrs, shr_fexp prec emax m e l = (mrs, Z.max e (fexp prec emax (Zdigits2 m + e))) ∧
         shr_m mrs = m / 2 ^ (Z.max e (fexp prec emax (Zdigits2 m + e)) - e) ∧
         (fexp prec emax (Zdigits2 m + e) ≤ e → mrs = shr_record_of_loc m l).
Proof.
  intros Hm. unfold shr_fexp.
  destruct (fexp prec emax (Zdigits2 m + e) - e) as [| n | n] eqn:Hn; simpl shr.
  - eexists. split; [f_equal; lia |]. rewrite shr_m_of_loc.
    replace (Z.max _ _ - e) with 0 by lia. rewrite Z.pow_0_r, Z.div_1_r. done.
  - eexists. split; [f_equal; lia |].
    rewrite iter_shr_1_m by (rewrite shr_m_of_loc; lia). rewrite shr_m_of_loc.
    replace (Z.max _ _ - e) with (Zpos n) by lia. split; [done | lia].
  - eexists. split; [f_equal; lia |]. rewrite shr_m_of_loc.
    replace (Z.max _ _ - e) with 0 by lia. rewrite Z.pow_0_r, Z.div_1_r. done.
Qed.

(** What [binary_round_aux] comes to: the mantissa is cut to the exponent
    [E1] the format asks for, goes up by one or stays, and is cut once
    more if that made it too long. *)
Lemma binary_round_aux_value (s : bool) (m e : Z) (l : location) :
  0 ≤ m →
  let E1 := Z.max e (fexp prec emax (Zdigits2 m + e)) in
  ∃ m1, m / 2 ^ (E1 - e) ≤ m1 ≤ m / 2 ^ (E1 - e) + 1 ∧
        (l = loc_Exact → fexp prec emax (Zdigits2 m + e) ≤ e → m1 = m) ∧
        let E2 := Z.max E1 (fexp prec emax (Zdigits2 m1 + E1)) in
        binary_round_aux prec emax s m e l
        = match m1 / 2 ^ (E2 - E1) with
          | Z0 => S754_zero s
          | Zpos p => if E2 <=? emax - prec then S754_finite s p E2 else S754_infinity s
          | Zneg _ => S754_nan
          end.
Proof.
  intros Hm E1. unfold binary_round_aux.
  destruct (shr_fexp_value m e l Hm) as (mrs1 & -> & Hm1 & Hl1). fold E1 in Hm1.
  pose proof (round_nearest_even_ge (shr_m mrs1) (loc_of_shr_record mrs1)) as Hge.
  pose proof (round_nearest_even_le (shr_m mrs1) (loc_of_shr_record mrs1)) as Hle.
  set (m1 := round_nearest_even (shr_m mrs1) (loc_of_shr_record mrs1)) in *.
  assert (H0 : 0 ≤ m / 2 ^ (E1 - e)).
  { apply Z.div_pos; [done |]. apply Z.pow_pos_nonneg; lia. }
  exists m1. split; [lia |]. split.
  - intros -> Hfe. subst m1. rewrite (Hl1 Hfe), loc_of_shr_record_of_loc, shr_m_of_loc. done.
  - cbv zeta. fold E1.
    destruct (shr_fexp_value m1 E1 loc_Exact) as (mrs2 & -> & Hm2 & _); [lia |].
    by rewrite Hm2.
Qed.

(** ** Counting digits *)

Lemma Zdigits2_unique (m k : Z) : 0 < m → 2 ^ (k - 1) ≤ m < 2 ^ k → Zdigits2 m = k.
Proof.
  intros Hm [Hlo Hhi]. destruct (Zdigits2_bounds m Hm) as [[Hlo' Hhi'] Hd].
  assert (0 < k).
  { destruct (decide (0 < k)) as [| Hk]; [done |]. exfalso.
    assert (2 ^ k ≤ 2 ^ 0) by (destruct (decide (k < 0)); [rewrite Z.pow_neg_r by lia; lia
                                 | apply Z.pow_le_mono_r; lia]).
    rewrite Z.pow_0_r in *. lia. }
  assert (Zdigits2 m - 1 < k).
  { apply (Z.pow_lt_mono_r_iff 2); lia. }
  assert (k - 1 < Zdigits2 m).
  { apply (Z.pow_lt_mono_r_iff 2); lia. }
  lia.
Qed.

Lemma Zdigits2_shift (m t : Z) :
  0 ≤ t → 2 ^ t ≤ m → Zdigits2 (m / 2 ^ t) = Zdigits2 m - t.
Proof.
  intros Ht Hm. assert (H2 : 0 < 2 ^ t) by (apply Z.pow_pos_nonneg; lia).
  destruct (Zdigits2_bounds m ltac:(lia)) as [[Hlo Hhi] Hd].
  assert (Htd : t < Zdigits2 m).
  { apply (Z.pow_lt_mono_r_iff 2); lia. }
  apply Zdigits2_unique.
  - apply Z.div_str_pos. lia.
  - split.
    + apply Z.div_le_lower_bound; [done |]. rewrite <- pow2_split by lia.
      replace (t + (Zdigits2 m - t - 1)) with (Zdigits2 m - 1) by lia. done.
    + apply Z.div_lt_upper_bound; [done |]. rewrite <- pow2_split by lia.
      replace (t + (Zdigits2 m - t)) with (Zdigits2 m) by lia. done.
Qed.

Lemma Zdigits2_mono (m n : Z) : 0 ≤ m ≤ n → Zdigits2 m ≤ Zdigits2 n.
Proof.
  intros [Hm Hmn]. destruct (decide (m = 0)) as [-> | Hne]; [apply Zdigits2_nonneg |].
  destruct (Zdigits2_bounds m ltac:(lia)) as [[Hlo _] _].
  destruct (Zdigits2_bounds n ltac:(lia)) as [[_ Hhi] Hd].
  assert (Zdigits2 m - 1 < Zdigits2 n); [| lia].
  apply (Z.pow_lt_mono_r_iff 2); lia.
Qed.

(** ** Rounding yields Numbers *)

Lemma fexp_ge (x : Z) : -1074 ≤ fexp prec emax x ∧ x - 53 ≤ fexp prec emax x.
Proof. rewrite fexp_eq. lia. Qed.

Lemma binary_round_aux_wf (s : bool) (m e : Z) (l : location) :
  0 ≤ m → e ≤ fexp prec emax (Zdigits2 m + e) →
  wf (binary_round_aux prec emax s m e l) = true.
Proof.
  intros Hm He.
  destruct (binary_round_aux_value s m e l Hm) as (m1 & Hm1 & _ & ->).
  set (F := fexp prec emax (Zdigits2 m + e)) in *.
  replace (Z.max e F) with F in * by lia.
  assert (HA : F ≤ fexp prec emax (Zdigits2 m1 + F)).
  { pose proof (fexp_ge (Zdigits2 m1 + F)) as [Hlo Hhi].
    destruct (decide (F = -1074)) as [-> | HF]; [lia |].
    assert (HFeq : F = Zdigits2 m + e - 53) by (subst F; rewrite fexp_eq in *; lia).
    assert (Hpos : 0 < m).
    { destruct (decide (m = 0)) as [-> | ?]; [| lia]. cbn in HFeq. lia. }
    destruct (Zdigits2_bounds m Hpos) as [[Hlo' Hhi'] Hd].
    assert (H2t : 2 ^ (F - e) ≤ m).
    { etransitivity; [| exact Hlo']. apply Z.pow_le_mono_r; lia. }
    pose proof (Zdigits2_shift m (F - e) ltac:(lia) H2t) as Hq.
    pose proof (Zdigits2_mono (m / 2 ^ (F - e)) m1) as Hmono.
    assert (0 ≤ m / 2 ^ (F - e)) by (apply Z.div_pos; [lia | apply Z.pow_pos_nonneg; lia]).
    lia. }
  set (G := fexp prec emax (Zdigits2 m1 + F)) in *.
  replace (Z.max F G) with G by lia.
  destruct (m1 / 2 ^ (G - F)) as [| p | p] eqn:Hm2; [done | | done].
  destruct (G <=? emax - prec) eqn:HG; [| done].
  unfold wf, valid_binary, bounded, canonical_mantissa. rewrite HG, andb_true_r.
  apply Z.eqb_eq. change (Zpos (digits2_pos p)) with (Zdigits2 (Zpos p)). rewrite <- Hm2.
  assert (H2 : 0 < 2 ^ (G - F)) by (apply Z.pow_pos_nonneg; lia).
  assert (H0 : 0 ≤ m / 2 ^ (F - e)).
  { apply Z.div_pos; [lia | apply Z.pow_pos_nonneg; lia]. }
  assert (H2t : 2 ^ (G - F) ≤ m1).
  { destruct (decide (2 ^ (G - F) ≤ m1)) as [| Hlt]; [done |].
    rewrite Z.div_small in Hm2 by lia. done. }
  rewrite Zdigits2_shift by lia.
  replace (Zdigits2 m1 - (G - F) + G) with (Zdigits2 m1 + F) by lia. done.
Qed.

Lemma binary_round_spec (s : bool) (mx : positive) (ex : Z) :
  ∃ mz ez, binary_round prec emax s mx ex = binary_round_aux prec emax s (Zpos mz) ez loc_Exact ∧
           ez = Z.min ex (fexp prec emax (Zpos (digits2_pos mx) + ex)) ∧
           Zpos mz = Zpos mx * 2 ^ (ex - ez) ∧
           Zpos (digits2_pos mz) + ez = Zpos (digits2_pos mx) + ex.
Proof.
  unfold binary_round.
  destruct (shl_align_spec mx ex (fexp prec emax (Zpos (digits2_pos mx) + ex)))
    as (mz & ez & -> & Hez & Hmz & Hd).
  by exists mz, ez.
Qed.

Lemma binary_round_wf (s : bool) (mx : positive) (ex : Z) :
  wf (binary_round prec emax s mx ex) = true.
Proof.
  destruct (binary_round_spec s mx ex) as (mz & ez & -> & Hez & Hmz & Hd).
  apply binary_round_aux_wf; [lia |].
  change (Zdigits2 (Zpos mz)) with (Zpos (digits2_pos mz)). rewrite Hd. lia.
Qed.

Lemma binary_normalize_wf (z e : Z) (sz : bool) :
  wf (binary_normalize prec emax z e sz) = true.
Proof. destruct z; [done | apply binary_round_wf ..]. Qed.

(** Normalizing a Number gives the Number. *)
Lemma binary_round_aux_id (s : bool) (m : positive) (e : Z) :
  bounded prec emax m e = true →
  binary_round_aux prec emax s (Zpos m) e loc_Exact = S754_finite s m e.
Proof.
  intros Hb. unfold bounded, canonical_mantissa in Hb.
  apply andb_true_iff in Hb as [Hc%Z.eqb_eq He].
  change (Zpos (digits2_pos m)) with (Zdigits2 (Zpos m)) in Hc.
  destruct (binary_round_aux_value s (Zpos m) e loc_Exact) as (m1 & _ & Hm1 & ->); [lia |].
  rewrite (Hm1 eq_refl) by lia. rewrite Hc.
  replace (Z.max e e) with e by lia. rewrite Hc.
  replace (Z.max e e) with e by lia.
  rewrite Z.sub_diag, Z.pow_0_r, Z.div_1_r. by rewrite He.
Qed.

Lemma binary_normalize_id (m : positive) (e : Z) (sz : bool) :
  bounded prec emax m e = true →
  binary_normalize prec emax (Zpos m) e sz = S754_finite false m e.
Proof.
  intros Hb. cbn [binary_normalize].
  destruct (binary_round_spec false m e) as (mz & ez & -> & Hez & Hmz & Hd).
  pose proof Hb as Hb'. unfold bounded, canonical_mantissa in Hb'.
  apply andb_true_iff in Hb' as [Hc%Z.eqb_eq _].
  assert (ez = e) as -> by lia.
  rewrite Z.sub_diag, Z.pow_0_r, Z.mul_1_r in Hmz. injection Hmz as ->.
  by apply binary_round_aux_id.
Qed.

(** ** Dividing *)

Lemma SFdiv_core_binary_spec (m1 e1 m2 e2 : Z) :
  0 < m1 → 0 < m2 →
  let e' := Z.min (fexp prec emax (Zdigits2 m1 + e1 - (Zdigits2 m2 + e2))) (e1 - e2) in
  ∃ l, SFdiv_core_binary prec emax m1 e1 m2 e2
       = (m1 * 2 ^ (e1 - e2 - e') / m2, e', l).
Proof.
  intros H1 H2 e'. unfold SFdiv_core_binary. fold e'.
  assert (Hs : 0 ≤ e1 - e2 - e') by lia.
  set (m' := match e1 - e2 - e' with
             | 0 => m1
             | Zpos _ => Z.shiftl m1 (e1 - e2 - e')
             | Zneg _ => 0
             end).
  assert (Hm' : m' = m1 * 2 ^ (e1 - e2 - e')).
  { subst m'. destruct (e1 - e2 - e') as [| p | p] eqn:E.
    - by rewrite Z.pow_0_r, Z.mul_1_r.
    - by rewrite Z.shiftl_mul_pow2.
    - lia. }
  destruct (Z.div_eucl m' m2) as [q r] eqn:Hqr.
  eexists. f_equal. f_equal. rewrite <- Hm'. unfold Z.div. by rewrite Hqr.
Qed.

Lemma pow2_pos (a : Z) : 0 ≤ a → 0 < 2 ^ a.
Proof. intros. apply Z.pow_pos_nonneg; lia. Qed.

Lemma Math_floor_small (m e : Z) :
  0 ≤ m → e < 0 → m < 2 ^ (- e) → e ≤ emax - prec →
  Math_floor match m with
             | Z0 => S754_zero false
             | Zpos p => if e <=? emax - prec then S754_finite false p e else S754_infinity false
             | Zneg _ => S754_nan
             end
  = S754_zero false.
Proof.
  intros Hm He Hlt Hmax. destruct m as [| p | p]; [done | | lia].
  destruct (e <=? emax - prec) eqn:E; [| lia].
  destruct e as [| pe | pe]; [lia | lia |].
  unfold Math_floor. cbn [cond_Zopp].
  change (- Zneg pe) with (Zpos pe) in Hlt.
  rewrite Z.div_small by lia. done.
Qed.

(** A nonnegative Number below 60, divided by 60, is below 1. *)
Lemma div_60_floor (m : positive) (e : Z) :
  Zpos m < 2 ^ 53 → e ≤ -47 → Zpos m < Zpos m60 * 2 ^ (-47 - e) →
  Math_floor (div (S754_finite false m e) (of_Z 60)) = S754_zero false.
Proof.
  intros Hm53 He Hlt. unfold div. rewrite of_Z_60.
  change (SFdiv prec emax (S754_finite false m e) (S754_finite false m60 (-47)))
    with (let '(mz, ez, lz) := SFdiv_core_binary prec emax (Zpos m) e (Zpos m60) (-47) in
          binary_round_aux prec emax false mz ez lz).
  destruct (SFdiv_core_binary_spec (Zpos m) e (Zpos m60) (-47)) as [l ->]; [lia | lia |].
  change (Zdigits2 (Zpos m60)) with 53.
  set (d1 := Zdigits2 (Zpos m)).
  assert (Hd1 : 0 ≤ d1 ≤ 53).
  { split; [apply Zdigits2_nonneg | apply Zdigits2_le; lia]. }
  set (e' := Z.min (fexp prec emax (d1 + e - (53 + -47))) (e - -47)).
  assert (He' : e' ≤ -53 ∧ e' ≤ e + 47).
  { subst e'. rewrite fexp_eq. lia. }
  set (S := e - -47 - e'). assert (HS : 0 ≤ S) by lia.
  set (k := -47 - e). assert (Hk : 0 ≤ k) by lia. fold k in Hlt.
  set (q := Zpos m * 2 ^ S / Zpos m60).
  pose proof (pow2_pos S HS) as H2S. pose proof (pow2_pos k Hk) as H2k.
  assert (Hq0 : 0 ≤ q) by (apply Z.div_pos; lia).
  assert (Hqm : q * Zpos m60 ≤ Zpos m * 2 ^ S).
  { subst q. rewrite Z.mul_comm. apply Z.mul_div_le. lia. }
  assert (Hqa : q < 2 ^ (S + k)).
  { rewrite pow2_split by lia.
    apply (Z.mul_lt_mono_pos_r (Zpos m60)); [lia |].
    eapply Z.le_lt_trans; [exact Hqm |].
    replace (2 ^ S * 2 ^ k * Zpos m60) with (Zpos m60 * 2 ^ k * 2 ^ S) by ring.
    apply Z.mul_lt_mono_pos_r; lia. }
  destruct (binary_round_aux_value false q e' l Hq0) as (m1 & Hm1 & _ & ->).
  set (E1 := Z.max e' (fexp prec emax (Zdigits2 q + e'))) in *.
  assert (Hdq : Zdigits2 q ≤ S + k) by (apply Zdigits2_le; lia).
  assert (HE1 : e' ≤ E1 ≤ -53).
  { subst E1. rewrite fexp_eq. pose proof (Zdigits2_nonneg q). lia. }
  set (T := 2 ^ (E1 - e')) in *. set (B := 2 ^ (- E1)).
  assert (HT : 0 < T) by (apply pow2_pos; lia).
  assert (HB : 2 ^ 53 ≤ B) by (apply Z.pow_le_mono_r; lia).
  assert (HBT : 2 ^ S * 2 ^ k = B * T).
  { subst B T. rewrite <- !pow2_split by lia. f_equal. lia. }
  assert (Hq1 : q / T * T ≤ q) by (rewrite Z.mul_comm; apply Z.mul_div_le; lia).
  assert (Hq1B : q / T ≤ B - 2).
  { destruct (decide (q / T ≤ B - 2)) as [| Hbig]; [done |]. exfalso.
    assert (Hc1 : (B - 1) * T ≤ q).
    { etransitivity; [| exact Hq1]. apply Z.mul_le_mono_nonneg_r; lia. }
    assert (Hc2 : (B - 1) * T * Zpos m60 ≤ Zpos m * 2 ^ S).
    { etransitivity; [| exact Hqm]. apply Z.mul_le_mono_nonneg_r; lia. }
    assert (Hc3 : T * ((B - 1) * Zpos m60 * 2 ^ k) ≤ T * (Zpos m * B)).
    { replace (T * ((B - 1) * Zpos m60 * 2 ^ k)) with ((B - 1) * T * Zpos m60 * 2 ^ k) by ring.
      replace (T * (Zpos m * B)) with (Zpos m * (B * T)) by ring. rewrite <- HBT.
      replace (Zpos m * (2 ^ S * 2 ^ k)) with (Zpos m * 2 ^ S * 2 ^ k) by ring.
      apply Z.mul_le_mono_nonneg_r; lia. }
    apply Z.mul_le_mono_pos_l in Hc3; [| done].
    unfold m60 in *. change (2 ^ 53) with 9007199254740992 in *.
    destruct (decide (k = 0)) as [Hk0 | Hk0].
    - rewrite Hk0, Z.pow_0_r, !Z.mul_1_r in *.
      assert (Zpos m * B ≤ 8444249301319679 * B) by (apply Z.mul_le_mono_nonneg_r; lia).
      lia.
    - assert (2 ≤ 2 ^ k).
      { change 2 with (2 ^ 1) at 1. apply Z.pow_le_mono_r; lia. }
      assert ((B - 1) * 8444249301319680 * 2 ≤ (B - 1) * 8444249301319680 * 2 ^ k)
        by (apply Z.mul_le_mono_nonneg_l; lia).
      assert (Zpos m * B ≤ 9007199254740991 * B) by (apply Z.mul_le_mono_nonneg_r; lia).
      lia. }
  assert (Hm1B : 0 ≤ m1 < B).
  { assert (0 ≤ q / T) by (apply Z.div_pos; lia). lia. }
  assert (Hdm1 : Zdigits2 m1 ≤ - E1) by (apply Zdigits2_le; [lia | lia | apply Hm1B]).
  set (E2 := Z.max E1 (fexp prec emax (Zdigits2 m1 + E1))).
  assert (HE2 : E1 ≤ E2 ≤ -53).
  { subst E2. rewrite fexp_eq. pose proof (Zdigits2_nonneg m1). lia. }
  apply Math_floor_small.
  - apply Z.div_pos; [lia | apply pow2_pos; lia].
  - lia.
  - apply Z.div_lt_upper_bound; [apply pow2_pos; lia |].
    rewrite <- pow2_split by lia. replace (E2 - E1 + - E2) with (- E1) by lia. apply Hm1B.
  - unfold emax, prec. lia.
Qed.

(** ** [formatSeconds] *)

Lemma small_integers (n : Z) :
  0 ≤ n ≤ 60 →
  integer_value (of_Z n) = Some n ∧ isFinite (of_Z n) = true.
Proof.
  intros Hn.
  assert (Hall : forallb (λ n, bool_decide (integer_value (of_Z n) = Some n)
                               && isFinite (of_Z n)) (seqZ 0 61) = true)
    by (vm_compute; reflexivity).
  rewrite forallb_forall in Hall.
  specialize (Hall n). rewrite <- list_elem_of_In, elem_of_seqZ in Hall.
  specialize (Hall ltac:(lia)). apply andb_true_iff in Hall as [H1%bool_decide_eq_true H2].
  done.
Qed.

Section FormatFacts.
Variable ts : number → string.

Lemma toString_small (n : Z) : 0 ≤ n ≤ 60 → toString ts (of_Z n) = pretty n.
Proof.
  intros Hn. destruct (small_integers n Hn) as [Hi Hf]. unfold toString.
  assert (E : (Z.abs n <? 2 ^ 53) = true).
  { apply Z.ltb_lt. change (2 ^ 53) with 9007199254740992. lia. }
  rewrite Hi, E. by destruct (of_Z n).
Qed.

Lemma toString_zero (s : bool) : toString ts (S754_zero s) = "0".
Proof. reflexivity. Qed.

(** [Math.floor] of a Number in [0, 60), printed. *)
Lemma floor_below_60 (m p : positive) :
  Zpos m < 60 * 2 ^ Zpos p →
  toString ts (Math_floor (S754_finite false m (Zneg p))) = pretty (Zpos m / 2 ^ Zpos p) ∧
  0 ≤ Zpos m / 2 ^ Zpos p ≤ 59.
Proof.
  intros Hlt. pose proof (pow2_pos (Zpos p) ltac:(lia)) as H2.
  assert (Hn : 0 ≤ Zpos m / 2 ^ Zpos p ≤ 59).
  { split; [apply Z.div_pos; lia |].
    assert (Zpos m / 2 ^ Zpos p < 60); [| lia].
    apply Z.div_lt_upper_bound; lia. }
  split; [| done]. unfold Math_floor. cbn [cond_Zopp].
  destruct (Zpos m / 2 ^ Zpos p =? 0) eqn:E.
  - apply Z.eqb_eq in E. by rewrite E.
  - apply toString_small. lia.
Qed.

Lemma remainder_below_60 (m : positive) (e : Z) :
  bounded prec emax m e = true → e ≤ -47 → Zpos m < Zpos m60 * 2 ^ (-47 - e) →
  remainder (S754_finite false m e) (of_Z 60) = S754_finite false m e.
Proof.
  intros Hb He Hlt. rewrite of_Z_60. unfold remainder.
  replace (Z.min e (-47)) with e by lia.
  rewrite Z.sub_diag, Z.pow_0_r, Z.mul_1_r.
  rewrite Z.mod_small by lia.
  destruct (Zpos m =? 0) eqn:E; [apply Z.eqb_eq in E; lia |].
  cbn [cond_Zopp]. by apply binary_normalize_id.
Qed.

End FormatFacts.

(** A Number from 0 to 60, in integers: it is a zero, or its exponent is
    at most -47 and its mantissa at most that of 60 there. *)
Lemma upto_60_inv (m : positive) (e : Z) :
  bounded prec emax m e = true → (to_Q (S754_finite false m e) <= 60)%Q →
  ∃ p, e = Zneg p ∧ e ≤ -47 ∧ Zpos m ≤ 60 * 2 ^ Zpos p ∧
       60 * 2 ^ Zpos p = Zpos m60 * 2 ^ (-47 - e) ∧
       to_Q (S754_finite false m e) = (Zpos m # 2 ^ p)%Q.
Proof.
  intros Hb Hle. destruct (bounded_inv m e Hb) as (Hd & He & Hn).
  pose proof (digits2_pos_bounds m) as [Hlo Hhi].
  assert (Hbig : Zpos (digits2_pos m) = 53 → 2 ^ 52 ≤ Zpos m).
  { intros Hd53. rewrite Hd53 in Hlo. exact Hlo. }
  change (2 ^ 52) with 4503599627370496 in Hbig.
  destruct e as [| p | p].
  - exfalso. unfold Qle in Hle. cbn in Hle. lia.
  - exfalso. unfold Qle in Hle. cbn in Hle.
    pose proof (pow2_pos (Zpos p) ltac:(lia)).
    assert (Zpos m ≤ Zpos m * 2 ^ Zpos p) by nia. lia.
  - exists p. unfold Qle in Hle. cbn in Hle. rewrite Pos2Z.inj_pow in Hle.
    pose proof (pow2_pos (Zpos p) ltac:(lia)) as H2.
    assert (Hp : 47 ≤ Zpos p).
    { destruct Hn as [Hd53 | ?]; [| lia].
      destruct (decide (47 ≤ Zpos p)) as [| Hsmall]; [done |]. exfalso.
      assert (2 ^ Zpos p ≤ 2 ^ 46) by (apply Z.pow_le_mono_r; lia).
      change (2 ^ 46) with 70368744177664 in *. lia. }
    split_and!; [done | lia | lia | | done].
    unfold m60. change (Zpos 8444249301319680) with (60 * 2 ^ 47).
    rewrite <- Z.mul_assoc, <- pow2_split by lia. do 2 f_equal. lia.
Qed.

Section Badge.
Variable ts : number → string.

Lemma formatSeconds_range (total : number) :
  wf total = true → isFinite total = true → negative total = false →
  (to_Q total <= 60)%Q →
  0 ≤ Qfloor (to_Q total) ≤ 60 ∧
  formatSeconds ts total
  = if Qeq_bool (to_Q total) 60 then "01:00"
    else "00:" +:+ padStart2 (pretty (Qfloor (to_Q total))).
Proof.
  intros Hwf Hfin Hneg Hle.
  destruct total as [s | s | | s m e]; [| done | done |].
  - split; [done |]. by destruct s.
  - destruct s; [done |]. unfold wf, valid_binary in Hwf.
    destruct (upto_60_inv m e Hwf Hle) as (p & -> & He & Hm & H60 & HQ).
    rewrite HQ. pose proof (pow2_pos (Zpos p) ltac:(lia)) as H2.
    assert (HQf : Qfloor (Zpos m # 2 ^ p) = Zpos m / 2 ^ Zpos p).
    { unfold Qfloor. by rewrite Pos2Z.inj_pow. }
    rewrite HQf.
    destruct (decide (Zpos m = 60 * 2 ^ Zpos p)) as [Heq | Hne].
    + (* exactly 60 *)
      destruct (bounded_inv m (Zneg p) Hwf) as (Hd & _ & _).
      pose proof (digits2_pos_bounds m) as [_ Hhi].
      assert (Hp : Zpos p = 47).
      { destruct (decide (Zpos p ≤ 47)) as [| Hbig]; [lia |]. exfalso.
        assert (2 ^ 48 ≤ 2 ^ Zpos p) by (apply Z.pow_le_mono_r; lia).
        assert (2 ^ Zpos (digits2_pos m) ≤ 2 ^ 53) by (apply Z.pow_le_mono_r; lia).
        change (2 ^ 48) with 281474976710656 in *.
        change (2 ^ 53) with 9007199254740992 in *. lia. }
      injection Hp as ->. change (2 ^ Zpos 47) with 140737488355328 in *.
      assert (m = m60) as -> by (unfold m60; lia).
      split; [by vm_compute |]. reflexivity.
    + assert (Hlt : Zpos m < 60 * 2 ^ Zpos p) by lia.
      destruct (floor_below_60 ts m p Hlt) as [Hfl Hn].
      split; [lia |].
      assert (HQe : Qeq_bool (Zpos m # 2 ^ p) 60 = false).
      { apply not_true_is_false. intros HQt%Qeq_bool_iff.
        unfold Qeq in HQt. cbn in HQt. rewrite Pos2Z.inj_pow in HQt. lia. }
      rewrite HQe. unfold formatSeconds.
      destruct (bounded_inv m (Zneg p) Hwf) as (Hd & _ & _).
      pose proof (digits2_pos_bounds m) as [_ Hhi].
      assert (Hm53 : Zpos m < 2 ^ 53).
      { eapply Z.lt_le_trans; [exact Hhi |]. apply Z.pow_le_mono_r; lia. }
      rewrite div_60_floor by (first [done | lia]).
      rewrite remainder_below_60 by (first [done | lia]).
      rewrite Hfl, toString_zero. reflexivity.
Qed.

(** X20.  For a Number from 0 to 60, as [secondsLeft] is, [formatSeconds]
    gives "01:00" at 60 and otherwise "00:" followed by the whole seconds,
    two digits from 00 to 59. *)
Theorem formatSeconds_upto_60 (total : number) :
  wf total = true → isFinite total = true → negative total = false →
  (to_Q total <= 60)%Q →
  0 ≤ Qfloor (to_Q total) ≤ 60 ∧
  formatSeconds ts total
  = if Qeq_bool (to_Q total) 60 then "01:00"
    else "00:" +:+ padStart2 (pretty (Qfloor (to_Q total))).
Proof. apply formatSeconds_range. Qed.

End Badge.

Lemma formatSeconds_upto_60_witness :
  formatSeconds plain_toString (decimal 595 1) = "00:59".
Proof.
  destruct (formatSeconds_upto_60 plain_toString (decimal 595 1)) as [_ H];
    [reflexivity | reflexivity | reflexivity | by vm_compute |].
  exact H.
Defined.

(** ** The seconds left *)

Lemma binary_round_aux_form (s : bool) (m e : Z) (l : location) :
  0 ≤ m →
  if s then nonpos_form (binary_round_aux prec emax s m e l)
  else nonneg_form (binary_round_aux prec emax s m e l).
Proof.
  intros Hm. destruct (binary_round_aux_upper s m e l Hm) as (m' & e' & Hm' & _ & ->).
  destruct m' as [| p | p]; [| | lia]; destruct s; try constructor;
    destruct (e' <=? emax - prec); constructor.
Qed.

Lemma binary_round_form (s : bool) (mx : positive) (ex : Z) :
  if s then nonpos_form (binary_round prec emax s mx ex)
  else nonneg_form (binary_round prec emax s mx ex).
Proof.
  destruct (binary_round_spec s mx ex) as (mz & ez & -> & _).
  apply binary_round_aux_form. lia.
Qed.

Lemma of_Z_form (z : Z) : 0 ≤ z → nonneg_form (of_Z z).
Proof.
  intros Hz. unfold of_Z. destruct z as [| p | p]; [constructor | | lia].
  apply (binary_round_form false).
Qed.

Lemma of_Z_1000 : of_Z 1000 = S754_finite false 8796093022208000 (-43).
Proof. reflexivity. Qed.

Lemma div_1000_form (x : number) : nonneg_form x → nonneg_form (div x (of_Z 1000)).
Proof.
  intros Hx. rewrite of_Z_1000. unfold div. destruct Hx as [| | m e]; try constructor.
  change (SFdiv prec emax (S754_finite false m e) (S754_finite false 8796093022208000 (-43)))
    with (let '(mz, ez, lz) := SFdiv_core_binary prec emax (Zpos m) e
                                 (Zpos 8796093022208000) (-43) in
          binary_round_aux prec emax false mz ez lz).
  destruct (SFdiv_core_binary_spec (Zpos m) e (Zpos 8796093022208000) (-43)) as [l ->];
    [lia | lia |].
  apply (binary_round_aux_form false). apply Z.div_pos; [| lia].
  apply Z.mul_nonneg_nonneg; [lia |]. apply Z.pow_nonneg. lia.
Qed.

Lemma max_zero_nonpos (r : number) : nonpos_form r → Math_max (of_Z 0) r = S754_zero false.
Proof. by intros []. Qed.

Lemma upto_60_zero : upto_60 (S754_zero false).
Proof. by split_and!. Qed.

Lemma upto_60_finite (m : positive) (e : Z) :
  bounded prec emax m e = true → e ≤ -47 → Zpos m ≤ Zpos m60 * 2 ^ (-47 - e) →
  upto_60 (S754_finite false m e).
Proof.
  intros Hb He Hm. split_and!; [done | done | done |].
  destruct e as [| p | p]; [lia | lia |].
  unfold Qle. cbn. rewrite Pos2Z.inj_pow.
  assert (Zpos m60 * 2 ^ (-47 - Zneg p) = 60 * 2 ^ Zpos p); [| lia].
  unfold m60. change (Zpos 8444249301319680) with (60 * 2 ^ 47).
  rewrite <- Z.mul_assoc, <- pow2_split by lia. do 2 f_equal. lia.
Qed.

(** Rounding what is left of 60 after a positive amount is taken off does
    not go above 60. *)
Lemma round_below_60 (z : positive) (ez : Z) :
  ez ≤ -47 → Zpos z < Zpos m60 * 2 ^ (-47 - ez) →
  upto_60 (Math_max (of_Z 0) (binary_round prec emax false z ez)).
Proof.
  intros Hez Hz.
  pose proof (binary_round_wf false z ez) as Hwf.
  destruct (binary_round_spec false z ez) as (mz & ez' & Hbr & Hez' & Hmz & Hd).
  rewrite Hbr in *. clear Hbr.
  change (Zpos (digits2_pos mz)) with (Zdigits2 (Zpos mz)) in Hd.
  change (Zpos (digits2_pos z)) with (Zdigits2 (Zpos z)) in Hd, Hez'.
  destruct (binary_round_aux_value false (Zpos mz) ez' loc_Exact) as (m1 & Hm1 & _ & Hres);
    [lia |].
  rewrite Hres in *. clear Hres.
  rewrite Hd in *.
  set (F := fexp prec emax (Zdigits2 (Zpos z) + ez)) in *.
  replace (Z.max ez' F) with F in * by lia.
  pose proof (pow2_pos (-47 - ez) ltac:(lia)) as H2a.
  assert (Hdz : Zdigits2 (Zpos z) ≤ 6 - ez).
  { apply Zdigits2_le; [lia | lia |].
    eapply Z.lt_le_trans; [exact Hz |]. replace (6 - ez) with (53 + (-47 - ez)) by lia.
    rewrite pow2_split by lia. apply Z.mul_le_mono_nonneg_r; [lia |].
    unfold m60. change (2 ^ 53) with 9007199254740992. lia. }
  assert (HF : ez' ≤ F ≤ -47).
  { subst F. rewrite fexp_eq in *. lia. }
  set (G := Zpos m60 * 2 ^ (-47 - F)).
  pose proof (pow2_pos (F - ez') ltac:(lia)) as H2t.
  pose proof (pow2_pos (-47 - F) ltac:(lia)) as H2g.
  pose proof (pow2_pos (ez - ez') ltac:(lia)) as H2s.
  assert (Hmz' : Zpos mz < G * 2 ^ (F - ez')).
  { rewrite Hmz. subst G. rewrite <- Z.mul_assoc, <- pow2_split by lia.
    replace (-47 - F + (F - ez')) with (-47 - ez + (ez - ez')) by lia.
    rewrite pow2_split by lia. rewrite Z.mul_assoc.
    apply Z.mul_lt_mono_pos_r; lia. }
  assert (Hq1 : Zpos mz / 2 ^ (F - ez') < G).
  { apply Z.div_lt_upper_bound; [done |]. by rewrite Z.mul_comm. }
  assert (Hq0 : 0 ≤ Zpos mz / 2 ^ (F - ez')) by (apply Z.div_pos; lia).
  assert (Hm1G : 0 ≤ m1 ≤ G) by lia.
  assert (HG : G < 2 ^ (6 - F)).
  { subst G. replace (6 - F) with (53 + (-47 - F)) by lia. rewrite pow2_split by lia.
    apply Z.mul_lt_mono_pos_r; [done |]. unfold m60. by change (2 ^ 53) with 9007199254740992. }
  assert (Hdm1 : Zdigits2 m1 ≤ 6 - F) by (apply Zdigits2_le; lia).
  set (E2 := Z.max F (fexp prec emax (Zdigits2 m1 + F))) in *.
  assert (HE2 : F ≤ E2 ≤ -47).
  { subst E2. rewrite fexp_eq. lia. }
  pose proof (pow2_pos (E2 - F) ltac:(lia)) as H2u.
  pose proof (pow2_pos (-47 - E2) ltac:(lia)) as H2v.
  assert (Hm2 : 0 ≤ m1 / 2 ^ (E2 - F) ≤ Zpos m60 * 2 ^ (-47 - E2)).
  { split; [apply Z.div_pos; lia |].
    apply Z.div_le_upper_bound; [done |].
    replace (2 ^ (E2 - F) * (Zpos m60 * 2 ^ (-47 - E2))) with G; [lia |].
    subst G. replace (-47 - F) with (E2 - F + (-47 - E2)) by lia.
    rewrite pow2_split by lia. ring. }
  destruct (m1 / 2 ^ (E2 - F)) as [| p | p] eqn:Hm2e; [apply upto_60_zero | | lia].
  destruct (E2 <=? emax - prec) eqn:HEm; [| unfold emax, prec in HEm; lia].
  change (Math_max (of_Z 0) (S754_finite false p E2)) with (S754_finite false p E2).
  apply upto_60_finite; [exact Hwf | lia | lia].
Qed.

Lemma sub_60_upto (y : number) :
  nonneg_form y → upto_60 (Math_max (of_Z 0) (sub (of_Z 60) y)).
Proof.
  intros [| | m e].
  - by split_and!.
  - by split_and!.
  - unfold sub. rewrite of_Z_60.
    change (SFsub prec emax (S754_finite false m60 (-47)) (S754_finite false m e))
      with (binary_normalize prec emax
              (Zpos (fst (shl_align m60 (-47) (Z.min (-47) e)))
               - Zpos (fst (shl_align m e (Z.min (-47) e))))
              (Z.min (-47) e) false).
    set (ez := Z.min (-47) e).
    destruct (shl_align_spec m60 (-47) ez) as (a & ea & -> & Hea & Ha & _).
    destruct (shl_align_spec m e ez) as (b & eb & -> & Heb & Hb & _).
    cbn [fst]. replace ea with ez in * by lia.
    destruct (Zpos a - Zpos b) as [| z | z] eqn:Hz; cbn [binary_normalize].
    + apply upto_60_zero.
    + apply round_below_60; [lia |]. lia.
    + rewrite max_zero_nonpos; [apply upto_60_zero |]. apply (binary_round_form true).
Qed.

(** [secondsLeft] as [tick] computes it is a Number from 0 to 60, however
    long after the start. *)
Lemma left_after_upto_60 (dt : Z) : 0 ≤ dt → upto_60 (left_after dt).
Proof.
  intros Hdt. unfold left_after. apply sub_60_upto, div_1000_form, of_Z_form, Hdt.
Qed.

(** ** Rounding between two marks *)

(** Rounding does not cross a multiple of 1/2048: what lies between two of
    them, below 128, is rounded to a Number between them. *)
Lemma round_aux_within (m e : Z) (l : location) (A B : Z) :
  0 ≤ A → B < 2 ^ 18 → e ≤ -46 →
  A * 2 ^ (-11 - e) ≤ m < B * 2 ^ (-11 - e) →
  within A B (binary_round_aux prec emax false m e l).
Proof.
  intros HA HB He [Hlo Hhi].
  pose proof (pow2_pos (-11 - e) ltac:(lia)) as HX.
  assert (Hm : 0 ≤ m) by nia.
  assert (Hd : Zdigits2 m ≤ 7 - e).
  { apply Zdigits2_le; [done | lia |].
    replace (7 - e) with (18 + (-11 - e)) by lia. rewrite pow2_split by lia. nia. }
  destruct (binary_round_aux_value false m e l Hm) as (m1 & Hm1 & _ & ->).
  set (E1 := Z.max e (fexp prec emax (Zdigits2 m + e))) in *.
  assert (HE1 : e ≤ E1 ≤ -46) by (subst E1; rewrite fexp_eq; lia).
  pose proof (pow2_pos (-11 - E1) ltac:(lia)) as HY.
  pose proof (pow2_pos (E1 - e) ltac:(lia)) as HT.
  assert (HXY : 2 ^ (-11 - e) = 2 ^ (E1 - e) * 2 ^ (-11 - E1)).
  { rewrite <- pow2_split by lia. f_equal. lia. }
  assert (Hq1 : A * 2 ^ (-11 - E1) ≤ m / 2 ^ (E1 - e) < B * 2 ^ (-11 - E1)).
  { split.
    - apply Z.div_le_lower_bound; [done |]. rewrite HXY in Hlo. lia.
    - apply Z.div_lt_upper_bound; [done |]. rewrite HXY in Hhi. lia. }
  assert (Hm1' : A * 2 ^ (-11 - E1) ≤ m1 ≤ B * 2 ^ (-11 - E1)) by lia.
  assert (Hd1 : Zdigits2 m1 ≤ 7 - E1).
  { apply Zdigits2_le; [nia | lia |].
    replace (7 - E1) with (18 + (-11 - E1)) by lia. rewrite pow2_split by lia. nia. }
  set (E2 := Z.max E1 (fexp prec emax (Zdigits2 m1 + E1))) in *.
  assert (HE2 : E1 ≤ E2 ≤ -46) by (subst E2; rewrite fexp_eq; lia).
  pose proof (pow2_pos (-11 - E2) ltac:(lia)) as HW.
  pose proof (pow2_pos (E2 - E1) ltac:(lia)) as HU.
  assert (HYW : 2 ^ (-11 - E1) = 2 ^ (E2 - E1) * 2 ^ (-11 - E2)).
  { rewrite <- pow2_split by lia. f_equal. lia. }
  assert (Hm2 : A * 2 ^ (-11 - E2) ≤ m1 / 2 ^ (E2 - E1) ≤ B * 2 ^ (-11 - E2)).
  { rewrite HYW in Hm1'. split.
    - apply Z.div_le_lower_bound; [done |]. lia.
    - apply Z.div_le_upper_bound; [done |]. lia. }
  destruct (m1 / 2 ^ (E2 - E1)) as [| p | p] eqn:Hm2e.
  - cbn. nia.
  - destruct (E2 <=? emax - prec) eqn:HEm; [| unfold emax, prec in HEm; lia].
    cbn. split; [lia | done].
  - nia.
Qed.

(** A positive integer below 2^53 as a Number. *)
Lemma of_Z_pos_spec (dt : positive) :
  Zpos dt < 2 ^ 53 →
  ∃ m, of_Z (Zpos dt) = S754_finite false m (Zdigits2 (Zpos dt) - 53) ∧
       Zpos m = Zpos dt * 2 ^ (53 - Zdigits2 (Zpos dt)) ∧
       Zdigits2 (Zpos m) = 53.
Proof.
  intros Hlt. pose proof (Zdigits2_le (Zpos dt) 53 ltac:(lia) ltac:(lia) Hlt) as Hd.
  pose proof (Zdigits2_nonneg (Zpos dt)) as Hd0.
  cbn [Zdigits2] in *.
  destruct (binary_round_exact false dt 0) as (mz & Hbr & Hmz & Hdz); [lia | lia |].
  exists mz. unfold of_Z. cbn [binary_normalize]. rewrite Hbr.
  split; [f_equal; lia |]. split; [done |]. cbn [Zdigits2]. by rewrite Hdz.
Qed.

(** Milliseconds to seconds, between two marks. *)
Lemma div_1000_within (dt A B : Z) :
  0 < dt < 2 ^ 17 → 0 ≤ A → B < 2 ^ 18 →
  1000 * A ≤ 2048 * dt < 1000 * B →
  within A B (div (of_Z dt) (of_Z 1000)).
Proof.
  intros [Hdt Hdt17] HA HB [Hlo Hhi].
  destruct dt as [| dt | dt]; [lia | | lia].
  destruct (of_Z_pos_spec dt) as (m & -> & Hm & Hdm).
  { eapply Z.lt_le_trans; [exact Hdt17 |]. apply Z.pow_le_mono_r; lia. }
  pose proof (Zdigits2_le (Zpos dt) 17 ltac:(lia) ltac:(lia) Hdt17) as Hd.
  assert (Hd1 : 1 ≤ Zdigits2 (Zpos dt)) by (cbn; lia).
  set (d := Zdigits2 (Zpos dt)) in *.
  rewrite of_Z_1000. unfold div.
  change (SFdiv prec emax (S754_finite false m (d - 53))
            (S754_finite false 8796093022208000 (-43)))
    with (let '(mz, ez, lz) := SFdiv_core_binary prec emax (Zpos m) (d - 53)
                                 (Zpos 8796093022208000) (-43) in
          binary_round_aux prec emax false mz ez lz).
  destruct (SFdiv_core_binary_spec (Zpos m) (d - 53) (Zpos 8796093022208000) (-43))
    as [l ->]; [lia | lia |].
  rewrite Hdm. change (Zdigits2 (Zpos 8796093022208000)) with 53.
  rewrite fexp_eq.
  replace (Z.min (Z.max (53 + (d - 53) - (53 + -43) - 53) (-1074)) (d - 53 - -43))
    with (d - 63) by lia.
  replace (d - 53 - -43 - (d - 63)) with 53 by lia.
  replace (-11 - (d - 63)) with (52 - d) in * by lia.
  pose proof (pow2_pos (52 - d) ltac:(lia)) as HT.
  assert (Hm' : Zpos m = Zpos dt * (2 * 2 ^ (52 - d))).
  { rewrite Hm. f_equal. replace (53 - d) with (1 + (52 - d)) by lia.
    by rewrite pow2_split by lia. }
  apply round_aux_within; [done | done | lia |].
  replace (-11 - (d - 63)) with (52 - d) by lia.
  rewrite Hm'. change (2 ^ 53) with 9007199254740992.
  assert (H1 : 1000 * (A * 2 ^ (52 - d)) ≤ 2048 * (Zpos dt * 2 ^ (52 - d))) by nia.
  assert (H2 : 2048 * (Zpos dt * 2 ^ (52 - d)) < 1000 * (B * 2 ^ (52 - d))) by nia.
  split.
  - apply Z.div_le_lower_bound; lia.
  - apply Z.div_lt_upper_bound; lia.
Qed.

(** What is left of 60, between two marks. *)
Lemma sub_60_within (y : number) (A B : Z) :
  0 < A → B < 60 * 2048 → within A B y →
  within (60 * 2048 - B) (60 * 2048 - A + 1) (sub (of_Z 60) y).
Proof.
  intros HA HB Hy. destruct y as [[] | | | [] p E]; cbn in Hy; try done; [lia |].
  destruct Hy as (HE & Hlo & Hhi).
  unfold sub. rewrite of_Z_60.
  change (SFsub prec emax (S754_finite false m60 (-47)) (S754_finite false p E))
    with (binary_normalize prec emax
            (Zpos (fst (shl_align m60 (-47) (Z.min (-47) E)))
             - Zpos (fst (shl_align p E (Z.min (-47) E))))
            (Z.min (-47) E) false).
  set (ez := Z.min (-47) E).
  destruct (shl_align_spec m60 (-47) ez) as (a & ea & -> & Hea & Ha & _).
  destruct (shl_align_spec p E ez) as (b & eb & -> & Heb & Hb & _).
  cbn [fst]. replace ea with ez in * by lia. replace eb with ez in * by lia.
  pose proof (pow2_pos (-11 - E) ltac:(lia)) as HX.
  pose proof (pow2_pos (E - ez) ltac:(lia)) as HS.
  pose proof (pow2_pos (-11 - ez) ltac:(lia)) as HZ.
  assert (HXS : 2 ^ (-11 - ez) = 2 ^ (-11 - E) * 2 ^ (E - ez)).
  { rewrite <- pow2_split by lia. f_equal. lia. }
  assert (Ha' : Zpos a = 60 * 2048 * 2 ^ (-11 - ez)).
  { rewrite Ha. unfold m60. change (Zpos 8444249301319680) with (60 * 2048 * 2 ^ 36).
    rewrite <- !Z.mul_assoc, <- pow2_split by lia. do 3 f_equal. lia. }
  assert (Hb' : A * 2 ^ (-11 - ez) ≤ Zpos b ≤ B * 2 ^ (-11 - ez)).
  { rewrite Hb, HXS. nia. }
  destruct (Zpos a - Zpos b) as [| z | z] eqn:Hz; [nia | | nia].
  cbn [binary_normalize].
  destruct (binary_round_spec false z ez) as (mz & ez' & -> & Hez' & Hmz & _).
  assert (Hle : ez' ≤ ez) by lia.
  pose proof (pow2_pos (ez - ez') ltac:(lia)) as HV.
  assert (HZV : 2 ^ (-11 - ez') = 2 ^ (-11 - ez) * 2 ^ (ez - ez')).
  { rewrite <- pow2_split by lia. f_equal. lia. }
  apply round_aux_within; [lia | change (2 ^ 18) with 262144; lia | lia |].
  rewrite Hmz, HZV. nia.
Qed.

(** Between two marks inside one second, the whole seconds are known. *)
Lemma within_floor (x : number) (A B k : Z) :
  within A B x → 0 < A → k * 2048 ≤ A → B < (k + 1) * 2048 →
  Math_max (of_Z 0) x = x ∧ le x (of_Z 0) = false ∧ Qfloor (to_Q x) = k.
Proof.
  intros Hx HA Hk HB. destruct x as [[] | | | [] p E]; cbn in Hx; try done; [lia |].
  destruct Hx as (HE & Hlo & Hhi). split; [done |]. split; [done |].
  destruct E as [| pe | pe]; [lia | lia |].
  cbn [to_Q cond_Zopp]. unfold Qfloor. rewrite Pos2Z.inj_pow.
  pose proof (pow2_pos (-11 - Zneg pe) ltac:(lia)) as HX.
  assert (H2 : 2 ^ Zpos pe = 2048 * 2 ^ (-11 - Zneg pe)).
  { change 2048 with (2 ^ 11). rewrite <- pow2_split by lia. f_equal. lia. }
  symmetry. apply Z.div_unique with (Zpos p - k * 2 ^ Zpos pe); [| lia].
  left. rewrite H2. nia.
Qed.

(** ** The seconds left, [dt] milliseconds after the start *)

(** Inside a second. *)
Lemma left_after_inside (dt c : Z) :
  0 ≤ c ≤ 59 → 1000 * c < dt < 1000 * (c + 1) →
  le (left_after dt) (of_Z 0) = false ∧ Qfloor (to_Q (left_after dt)) = 59 - c.
Proof.
  intros Hc Hdt. unfold left_after.
  assert (Hdiv : within (c * 2048 + 2) ((c + 1) * 2048 - 2) (div (of_Z dt) (of_Z 1000))).
  { apply div_1000_within; change (2 ^ 17) with 131072; change (2 ^ 18) with 262144; lia. }
  apply sub_60_within in Hdiv; [| lia | lia].
  destruct (within_floor _ _ _ (59 - c) Hdiv) as (-> & Hle & Hfl); [lia | lia | lia |].
  done.
Qed.

(** On a whole second. *)
Lemma left_after_thousands (k : Z) :
  0 ≤ k ≤ 60 → left_after (1000 * k) = of_Z (60 - k).
Proof.
  intros Hk.
  assert (Hall : forallb (λ k, bool_decide (left_after (1000 * k) = of_Z (60 - k)))
                   (seqZ 0 61) = true)
    by (vm_compute; reflexivity).
  rewrite forallb_forall in Hall.
  specialize (Hall k). rewrite <- list_elem_of_In, elem_of_seqZ in Hall.
  specialize (Hall ltac:(lia)). by apply bool_decide_eq_true in Hall.
Qed.

(** At 60 or above, nothing is left. *)
Lemma sub_60_nothing (p : positive) (E : Z) :
  Zpos m60 * 2 ^ (-47 - Z.min (-47) E) ≤ Zpos p * 2 ^ (E - Z.min (-47) E) →
  Math_max (of_Z 0) (sub (of_Z 60) (S754_finite false p E)) = S754_zero false.
Proof.
  intros Hge. unfold sub. rewrite of_Z_60.
  change (SFsub prec emax (S754_finite false m60 (-47)) (S754_finite false p E))
    with (binary_normalize prec emax
            (Zpos (fst (shl_align m60 (-47) (Z.min (-47) E)))
             - Zpos (fst (shl_align p E (Z.min (-47) E))))
            (Z.min (-47) E) false).
  set (ez := Z.min (-47) E) in *.
  destruct (shl_align_spec m60 (-47) ez) as (a & ea & -> & Hea & Ha & _).
  destruct (shl_align_spec p E ez) as (b & eb & -> & Heb & Hb & _).
  cbn [fst]. replace ea with ez in * by lia. replace eb with ez in * by lia.
  destruct (Zpos a - Zpos b) as [| z | z] eqn:Hz; cbn [binary_normalize].
  - reflexivity.
  - lia.
  - apply max_zero_nonpos. apply (binary_round_form true).
Qed.

Lemma left_after_late (dt : Z) : 60000 ≤ dt → left_after dt = S754_zero false.
Proof.
  intros Hdt. unfold left_after.
  destruct (decide (dt < 2 ^ 16)) as [Hsmall | Hbig].
  - (* below 65.536 seconds: between two marks *)
    change (2 ^ 16) with 65536 in Hsmall.
    assert (Hdiv : within (60 * 2048) (2 ^ 18 - 1) (div (of_Z dt) (of_Z 1000))).
    { apply div_1000_within; change (2 ^ 17) with 131072; change (2 ^ 18) with 262144; lia. }
    destruct (div (of_Z dt) (of_Z 1000)) as [[] | | | [] p E]; cbn in Hdiv; try done; [lia |].
    destruct Hdiv as (HE & Hlo & _). apply sub_60_nothing.
    pose proof (pow2_pos (-11 - E) ltac:(lia)) as HX.
    destruct (decide (E ≤ -47)) as [Hle | Hgt].
    + replace (Z.min (-47) E) with E by lia.
      rewrite Z.sub_diag, Z.pow_0_r, Z.mul_1_r.
      replace (-11 - E) with (36 + (-47 - E)) in Hlo by lia.
      rewrite pow2_split in Hlo by lia.
      unfold m60. change (2 ^ 36) with 68719476736 in Hlo. lia.
    + replace (Z.min (-47) E) with (-47) by lia.
      change (2 ^ (-47 - -47)) with 1. rewrite Z.mul_1_r.
      assert (H36 : 2 ^ 36 = 2 ^ (-11 - E) * 2 ^ (E - -47)).
      { rewrite <- pow2_split by lia. f_equal. lia. }
      pose proof (pow2_pos (E - -47) ltac:(lia)) as HS.
      unfold m60. change (Zpos 8444249301319680) with (60 * 2048 * 2 ^ 36).
      rewrite H36. nia.
  - (* from 65.536 seconds on: by size *)
    assert (H16 : 2 ^ 16 ≤ dt) by lia. clear Hbig.
    destruct dt as [| dt | dt]; [done | | lia].
    assert (Hd : 17 ≤ Zdigits2 (Zpos dt)).
    { destruct (decide (17 ≤ Zdigits2 (Zpos dt))) as [| Hlt]; [done |]. exfalso.
      pose proof (Zdigits2_upper (Zpos dt) ltac:(lia)) as Hup.
      pose proof (Zdigits2_nonneg (Zpos dt)) as H0.
      assert (2 ^ Zdigits2 (Zpos dt) ≤ 2 ^ 16) by (apply Z.pow_le_mono_r; lia).
      lia. }
    pose proof (binary_normalize_wf (Zpos dt) 0 false) as Hwf.
    rewrite of_Z_1000. unfold of_Z. cbn [binary_normalize] in *.
    destruct (binary_round_normal false dt 0) as [-> | (m & e & Hbr & He)];
      [cbn in Hd; lia | done |].
    rewrite Hbr in *. clear Hbr.
    destruct (bounded_inv m e Hwf) as (Hdm & _ & Hn).
    assert (Hdm53 : Zdigits2 (Zpos m) = 53) by (cbn in *; lia).
    assert (Hm52 : 2 ^ 52 ≤ Zpos m).
    { pose proof (digits2_pos_bounds m) as [Hlo _]. cbn in Hdm53. rewrite Hdm53 in Hlo.
      exact Hlo. }
    unfold div.
    change (SFdiv prec emax (S754_finite false m e)
              (S754_finite false 8796093022208000 (-43)))
      with (let '(mz, ez, lz) := SFdiv_core_binary prec emax (Zpos m) e
                                   (Zpos 8796093022208000) (-43) in
            binary_round_aux prec emax false mz ez lz).
    destruct (SFdiv_core_binary_spec (Zpos m) e (Zpos 8796093022208000) (-43))
      as [l ->]; [lia | lia |].
    rewrite Hdm53. change (Zdigits2 (Zpos 8796093022208000)) with 53.
    rewrite fexp_eq. cbn in Hd.
    replace (Z.min (Z.max (53 + e - (53 + -43) - 53) (-1074)) (e - -43))
      with (e - 10) by lia.
    replace (e - -43 - (e - 10)) with 53 by lia.
    set (q := Zpos m * 2 ^ 53 / Zpos 8796093022208000).
    assert (Hq : 2 ^ 52 ≤ q).
    { subst q. apply Z.div_le_lower_bound; [lia |].
      change (2 ^ 52) with 4503599627370496 in *. change (2 ^ 53) with 9007199254740992. lia. }
    assert (Hdq : 53 ≤ Zdigits2 q).
    { destruct (decide (53 ≤ Zdigits2 q)) as [| Hlt]; [done |]. exfalso.
      pose proof (Zdigits2_upper q ltac:(lia)) as Hup.
      pose proof (Zdigits2_nonneg q) as H0.
      assert (2 ^ Zdigits2 q ≤ 2 ^ 52) by (apply Z.pow_le_mono_r; lia).
      lia. }
    pose proof (binary_round_aux_wf false q (e - 10) l ltac:(lia)) as Hwf'.
    destruct (binary_round_aux_normal false q (e - 10) l) as [-> | (m' & e' & Hr & He')];
      [lia | lia | done |].
    rewrite Hr in *. clear Hr.
    specialize (Hwf' ltac:(rewrite fexp_eq; lia)).
    destruct (bounded_inv m' e' Hwf') as (Hdm' & _ & Hn').
    assert (Hm'52 : 2 ^ 52 ≤ Zpos m').
    { pose proof (digits2_pos_bounds m') as [Hlo _].
      replace (Zpos (digits2_pos m')) with 53 in Hlo by lia. exact Hlo. }
    apply sub_60_nothing.
    replace (Z.min (-47) e') with (-47) by lia.
    change (2 ^ (-47 - -47)) with 1. rewrite Z.mul_1_r.
    assert (2 ^ 1 ≤ 2 ^ (e' - -47)) by (apply Z.pow_le_mono_r; lia).
    change (2 ^ 1) with 2 in *. change (2 ^ 52) with 4503599627370496 in *.
    unfold m60. nia.
Qed.

(** The whole numbers from 0 to 60 as Numbers. *)
Lemma upto_60_integers (n : Z) :
  0 ≤ n ≤ 60 →
  Qfloor (to_Q (of_Z n)) = n ∧
  Qeq_bool (to_Q (of_Z n)) 60 = bool_decide (n = 60) ∧
  le (of_Z n) (of_Z 0) = bool_decide (n = 0).
Proof.
  intros Hn.
  assert (Hall : forallb (λ n, bool_decide (Qfloor (to_Q (of_Z n)) = n)
                               && bool_decide (Qeq_bool (to_Q (of_Z n)) 60 = bool_decide (n = 60))
                               && bool_decide (le (of_Z n) (of_Z 0) = bool_decide (n = 0)))
                   (seqZ 0 61) = true)
    by (vm_compute; reflexivity).
  rewrite forallb_forall in Hall.
  specialize (Hall n). rewrite <- list_elem_of_In, elem_of_seqZ in Hall.
  specialize (Hall ltac:(lia)).
  apply andb_true_iff in Hall as [[H1%bool_decide_eq_true H2%bool_decide_eq_true]%andb_true_iff
                                    H3%bool_decide_eq_true].
  done.
Qed.

(** [left <= 0], the test that ends the frame loop, holds from 60 seconds
    on and not before. *)
Lemma left_after_running (dt : Z) :
  0 ≤ dt → le (left_after dt) (of_Z 0) = (60000 <=? dt).
Proof.
  intros Hdt. destruct (60000 <=? dt) eqn:E.
  - apply Z.leb_le in E. by rewrite left_after_late.
  - apply Z.leb_gt in E.
    destruct (decide (dt mod 1000 = 0)) as [Hr | Hr].
    + apply Z.mod_divide in Hr as [k ->]; [| lia].
      rewrite (Z.mul_comm k), left_after_thousands by lia.
      destruct (upto_60_integers (60 - k)) as (_ & _ & ->); [lia |].
      apply bool_decide_eq_false. lia.
    + pose proof (Z.div_mod dt 1000 ltac:(lia)) as Hdm.
      pose proof (Z.mod_pos_bound dt 1000 ltac:(lia)) as Hm.
      apply (left_after_inside dt (dt / 1000)); lia.
Qed.

Section CountdownBadge.
Variable ts : number → string.

(** The badge, [dt] milliseconds after the start. *)
Lemma badge_after_spec (dt : Z) :
  0 ≤ dt → formatSeconds ts (left_after dt) = badge_after dt.
Proof.
  intros Hdt. unfold badge_after.
  destruct (dt =? 0) eqn:E0; [apply Z.eqb_eq in E0 as ->; reflexivity |].
  apply Z.eqb_neq in E0.
  destruct (dt <? 60000) eqn:E; [apply Z.ltb_lt in E | apply Z.ltb_ge in E].
  - destruct (left_after_upto_60 dt Hdt) as (Hwf & Hfin & Hneg & Hle).
    destruct (formatSeconds_range ts (left_after dt) Hwf Hfin Hneg Hle) as [_ ->].
    destruct (decide (dt mod 1000 = 0)) as [Hr | Hr].
    + apply Z.mod_divide in Hr as [k ->]; [| lia].
      rewrite (Z.mul_comm k), left_after_thousands by lia.
      destruct (upto_60_integers (60 - k)) as (-> & -> & _); [lia |].
      rewrite bool_decide_eq_false_2 by lia.
      do 3 f_equal. symmetry.
      assert ((1000 * k - 1) / 1000 = k - 1); [| lia].
      symmetry. apply Z.div_unique with 999; lia.
    + pose proof (Z.div_mod dt 1000 ltac:(lia)) as Hdm.
      pose proof (Z.mod_pos_bound dt 1000 ltac:(lia)) as Hm.
      destruct (left_after_inside dt (dt / 1000)) as [_ Hfl]; [lia | lia |].
      rewrite Hfl.
      assert (HQ : Qeq_bool (to_Q (left_after dt)) 60 = false).
      { apply not_true_is_false. intros HQ%Qeq_bool_iff.
        apply Qfloor_comp in HQ. rewrite Hfl in HQ. change (Qfloor 60) with 60 in HQ. lia. }
      rewrite HQ. do 3 f_equal.
      assert ((dt - 1) / 1000 = dt / 1000); [| lia].
      symmetry. apply Z.div_unique with (dt mod 1000 - 1); lia.
  - by rewrite left_after_late.
Qed.

(** X21.  [tick], run [dt] milliseconds after the recording started: it
    sets [secondsLeft] to a Number from 0 to 60 for which the badge reads
    the whole seconds left (01:00 only at the very start, 00:59 during the
    first second, 00:00 during the last one and after), and it asks for
    another frame exactly when the recorder is still recording and less
    than 60 seconds have gone by.  It changes nothing else. *)
Theorem tick_countdown (f : Frame) (w : World) (dt : Z) :
  now (browser w) = frame_startedAt f + dt → 0 ≤ dt →
  settle (tick f) w
  = put_frames
      (frames (browser w) ++
       if bool_decide (recorder_state (frame_rec f) w = recording) && (dt <? 60000)
       then [f] else [])
      (put_secondsLeft (left_after dt) w) ∧
  upto_60 (left_after dt) ∧
  formatSeconds ts (left_after dt) = badge_after dt.
Proof.
  intros Hnow Hdt. split; [| split; [by apply left_after_upto_60 | by apply badge_after_spec]].
  pose proof (left_after_running dt Hdt) as Hle.
  mrun. replace (now (browser w) - frame_startedAt f) with dt by lia.
  change (Math_max (of_Z 0) (sub (of_Z 60) (div (of_Z dt) (of_Z 1000))))
    with (left_after dt).
  rewrite Hle.
  change (recorder_state (frame_rec f) (put_secondsLeft (left_after dt) w))
    with (recorder_state (frame_rec f) w).
  replace (dt <? 60000) with (negb (60000 <=? dt)) by (rewrite Z.leb_antisym, negb_involutive; done).
  destruct w as [h r b], b. 
  destruct (60000 <=? dt), (bool_decide _); cbn; rewrite ?app_nil_r; reflexivity.
Qed.

End CountdownBadge.

Lemma tick_countdown_witness :
  formatSeconds plain_toString
    (secondsLeft (hooks (settle (tick first_frame) mid_recording_world))) = "00:57" ∧
  frames (browser (settle (tick first_frame) mid_recording_world))
  = frames (browser mid_recording_world) ++ [first_frame].
Proof.
  destruct (tick_countdown plain_toString first_frame mid_recording_world 2500)
    as (-> & _ & H); [reflexivity | lia |].
  split; [exact H | reflexivity].
Defined.

(** * The badge of a recording *)

















Section PacedReach.
Variable ts : number → string.






End PacedReach.


Lemma second_request_run :
  (λ p, (live_encoders (world p), status (hooks (world p)), awaiting p))
    <$> drive plain_toString second_request (at_rest (mount 0))
  = Some ([0; 1]%nat, Recording, []).
Proof. vm_compute. reflexivity. Qed.

(** * The page and its promises *)

(** ** The async functions, from their pieces *)

Ltac prun :=
  cbv beta iota zeta delta
    [settle mbind M_bind mret M_ret gets modify throw try_catch try_finally observe
     setStatus setCountdown setSecondsLeft setBlobUrl setRecordedBlob setError
     setIsSending setSelectedFile setSelectedDuration setAccuracy
     setInterval setTimeout clearTimer createObjectURL revokeObjectURL
     ensureStream start handleFilePick validateDurationApprox60
     ensureStream_granted ensureStream_ready start_enter start_arm start_catch
     returned rejected handleFilePick_enter handleFilePick_resume
     resume finish].

Section Pieces.
Variable ts : number → string.

(** A call of [ensureStream] that finds no stream, gone on to its end, is
    [ensureStream] in one piece, handed to its caller. *)
Lemma finish_media acq by_whom w :
  streamRef (refs w) = None →
  finish ts (AwaitMedia acq by_whom) w
  = match ensureStream acq w with
    | Returned s w1 => settle (returned by_whom s) w1
    | Thrown e w1 => settle (rejected by_whom e) w1
    end.
Proof.
  intros Hs. unfold finish, resume, ensureStream, ensureStream_granted, ensureStream_ready.
  cbv beta iota zeta delta [mbind M_bind mret M_ret gets modify throw setStatus].
  rewrite Hs. destruct acq as [e | n play]; [reflexivity |].
  cbn [refs videoRef put_streams put_streamRef with_browser with_refs].
  destruct (videoRef (refs w)) as [v |].
  - destruct play as [e |]; cbn [fst]; unfold settle;
      cbv beta iota zeta delta [mbind M_bind mret M_ret gets modify throw setStatus];
      reflexivity.
  - unfold settle. cbv beta iota zeta delta [mbind M_bind mret M_ret gets modify throw setStatus].
    reflexivity.
Qed.

Lemma finish_open acq w :
  streamRef (refs w) = None →
  finish ts (AwaitMedia acq ByOpen) w = settle (ensureStream acq ;; mret tt) w.
Proof.
  intros Hs. rewrite finish_media by done. unfold settle at 3.
  cbv beta iota zeta delta [mbind M_bind mret M_ret].
  destruct (ensureStream acq w); reflexivity.
Qed.

Lemma held_open acq w s :
  streamRef (refs w) = Some s → settle (ensureStream acq ;; mret tt) w = w.
Proof. intros Hs. prun. by rewrite Hs. Qed.

(** The same for [start]. *)
Lemma finish_start acq w :
  streamRef (refs w) = None →
  finish ts (AwaitMedia acq ByStart) (settle start_enter w) = settle (start acq) w.
Proof.
  intros Hs. rewrite finish_media by done. rewrite start_eq.
  change (settle start_enter w) with (reset w).
  destruct (ensureStream acq (reset w)); reflexivity.
Qed.

Lemma held_start acq w s :
  streamRef (refs w) = Some s →
  settle (returned ByStart s) (settle start_enter w) = settle (start acq) w.
Proof.
  intros Hs. rewrite start_eq. change (settle start_enter w) with (reset w).
  unfold ensureStream. cbv beta iota zeta delta [mbind M_bind mret M_ret gets].
  change (streamRef (refs (reset w))) with (streamRef (refs w)). rewrite Hs. reflexivity.
Qed.

(** The same for [handleFilePick]. *)
Lemma finish_pick f probe w :
  match handleFilePick_enter f w with
  | Returned (Some (f', url)) w1 =>
      f = Some f' ∧
      finish ts (AwaitProbe f' url probe) w1 = settle (handleFilePick ts f probe) w
  | Returned None w1 => f = None ∧ w1 = settle (handleFilePick ts f probe) w
  | Thrown _ _ => False
  end.
Proof.
  destruct f as [f |]; prun; [| done]. split; [done |].
  destruct probe as [d |]; reflexivity.
Qed.

End Pieces.

(** ** Runs in which nothing overtakes a promise *)

Section Unhurried.
Variable ts : number → string.

(** A call that goes on waits for at most one more promise, and after
    that for none. *)
Lemma resume_more a w :
  snd (resume ts a w) = [] ∨
  ∃ a', snd (resume ts a w) = [a'] ∧ snd (resume ts a' (fst (resume ts a w))) = [].
Proof.
  destruct a as [[e | n play] by_whom | s [e |] by_whom | f url probe]; cbn [resume snd];
    try (by left).
  unfold ensureStream_granted. cbv beta iota zeta delta [mbind M_bind mret M_ret gets modify].
  cbn [refs videoRef put_streams put_streamRef with_browser with_refs].
  destruct (videoRef (refs w)); [right | by left].
  eexists. split; [reflexivity |]. by destruct play.
Qed.

Lemma settled_one a w : settled ts {| world := w; awaiting := [a] |} = finish ts a w.
Proof. reflexivity. Qed.

Lemma finish_resume a w :
  finish ts a w
  = settled ts {| world := fst (resume ts a w); awaiting := snd (resume ts a w) |}.
Proof.
  unfold finish. destruct (resume_more a w) as [H | (a' & H & H')].
  - destruct (resume ts a w) as [w' more]. cbn [fst snd] in *. by subst.
  - destruct (resume ts a w) as [w' more]. cbn [fst snd] in *. subst. rewrite settled_one.
    unfold finish. destruct (resume ts a' w') as [w'' more']. cbn [fst snd] in *. by subst.
Qed.

(** An event on a page at rest is a step of the component in one piece,
    once the call it started has gone on to its end. *)
Lemma happen_at_rest ev w p' :
  happen ts (Does ev) (at_rest w) = Some p' →
  (length (awaiting p') ≤ 1)%nat ∧ step ts ev w = Some (settled ts p').
Proof.
  unfold happen, step. cbn [world at_rest awaiting app].
  destruct (disabled ev w) eqn:Hdis; [done |].
  destruct ev as [acq | acq | | | | f probe | i o | id p | i | r data | r | r | b | dt];
    try (destruct (handle ts _ w) as [w' |] eqn:Hh;
         [intros [= <-]; split; [cbn; lia | done] | done]).
  - cbn [handle]. destruct (streamRef (refs w)) as [s |] eqn:Hs; intros [= <-].
    + split; [cbn; lia |]. cbn. by rewrite (held_open acq w s).
    + split; [cbn; lia |]. rewrite settled_one. by rewrite finish_open.
  - cbn [handle].
    change (streamRef (refs (settle start_enter w))) with (streamRef (refs w)).
    destruct (streamRef (refs w)) as [s |] eqn:Hs; intros [= <-].
    + split; [cbn; lia |]. by rewrite <- (held_start acq w s Hs).
    + split; [cbn; lia |]. rewrite settled_one. by rewrite finish_start.
  - cbn [handle]. pose proof (finish_pick ts f probe w) as Hp.
    destruct (handleFilePick_enter f w) as [[[f' url] |] w1 | e w1]; [| | done].
    + intros [= <-]. destruct Hp as [_ Hp]. split; [cbn; lia |].
      rewrite settled_one. by rewrite Hp.
    + intros [= <-]. destruct Hp as [_ Hp]. split; [cbn; lia |]. by rewrite <- Hp.
Qed.

(** The only waiting call goes on: what the page comes to in the end is
    the same. *)
Lemma happen_settles a w i p' :
  happen ts (Settles i) {| world := w; awaiting := [a] |} = Some p' →
  (length (awaiting p') ≤ 1)%nat ∧ settled ts p' = finish ts a w.
Proof.
  unfold happen. cbn [world awaiting]. destruct i as [| i]; [| done]. cbn [lookup list_lookup].
  rewrite finish_resume. destruct (resume_more a w) as [H | (a' & H & _)];
    destruct (resume ts a w) as [w' more]; cbn in H; subst more; intros [= <-]; cbn; split;
    done || lia.
Qed.

(** A run in which nothing overtakes a promise comes to what a run of the
    component in one piece comes to. *)
Lemma unhurried_run hs : ∀ p p',
  (length (awaiting p) ≤ 1)%nat →
  drive ts hs p = Some p' → unhurried ts hs p = true →
  (length (awaiting p') ≤ 1)%nat ∧
  ∃ evs, run ts evs (settled ts p) = Some (settled ts p').
Proof.
  induction hs as [| h hs IH]; intros p p' Hlen; cbn [drive unhurried].
  - intros [= <-] _. split; [done |]. by exists [].
  - destruct (happen ts h p) as [p1 |] eqn:Hh; [| done].
    intros Hd [Hrest Hu]%andb_true_iff.
    destruct h as [ev | i].
    + apply bool_decide_eq_true in Hrest. destruct p as [w aw]. cbn in Hrest. subst aw.
      destruct (happen_at_rest ev w p1 Hh) as [Hlen1 Hstep].
      destruct (IH p1 p' Hlen1 Hd Hu) as (Hlen' & evs & Hrun).
      split; [done |]. exists (ev :: evs). cbn [run settled world awaiting foldl at_rest].
      by rewrite Hstep.
    + destruct p as [w [| a [| b aw]]]; [done | | cbn in Hlen; lia].
      destruct (happen_settles a w i p1 Hh) as [Hlen1 Hset].
      destruct (IH p1 p' Hlen1 Hd Hu) as (Hlen' & evs & Hrun).
      split; [done |]. exists evs. rewrite settled_one, <- Hset. exact Hrun.
Qed.

(** What the page is at rest in, after such a run from the first render,
    the component reaches in one piece. *)
Lemma unhurried_reachable hs t0 w :
  drive ts hs (at_rest (mount t0)) = Some (at_rest w) →
  unhurried ts hs (at_rest (mount t0)) = true →
  reachable ts w.
Proof.
  intros Hd Hu.
  destruct (unhurried_run hs (at_rest (mount t0)) (at_rest w)) as (_ & evs & Hrun);
    [cbn; lia | done | done |].
  by exists t0, evs.
Qed.

(** Conversely, a step of the component in one piece is a click and the
    settling of its promises, with nothing in between. *)
Lemma drive_finish a w :
  ∃ k, drive ts (replicate k (Settles 0)) {| world := w; awaiting := [a] |}
       = Some (at_rest (finish ts a w)) ∧
       unhurried ts (replicate k (Settles 0)) {| world := w; awaiting := [a] |} = true.
Proof.
  rewrite finish_resume. destruct (resume_more a w) as [H | (a' & H & H')].
  - exists 1%nat. cbn. destruct (resume ts a w) as [w' more]. cbn in *. by subst.
  - exists 2%nat. cbn. destruct (resume ts a w) as [w' more]. cbn in *. subst. cbn.
    unfold finish. destruct (resume ts a' w') as [w'' more']. cbn in *. by subst.
Qed.

Lemma step_drive ev w w' :
  step ts ev w = Some w' →
  ∃ hs, drive ts hs (at_rest w) = Some (at_rest w') ∧ unhurried ts hs (at_rest w) = true.
Proof.
  intros Hstep.
  destruct (happen ts (Does ev) (at_rest w)) as [p1 |] eqn:Hh.
  - destruct (happen_at_rest ev w p1 Hh) as [Hlen Hs]. rewrite Hstep in Hs. injection Hs as ->.
    destruct p1 as [w1 [| a [| b aw]]]; [| | cbn in Hlen; lia].
    + exists [Does ev]. cbn [drive unhurried]. rewrite Hh. done.
    + destruct (drive_finish a w1) as (k & Hk & Hu).
      exists (Does ev :: replicate k (Settles 0)). cbn [drive unhurried]. rewrite Hh.
      split; [exact Hk |]. by rewrite Hu.
  - exfalso. unfold happen, step in *. cbn [world at_rest awaiting] in Hh.
    destruct (disabled ev w); [done |].
    destruct ev; cbn [handle] in *; try (by rewrite Hstep in Hh);
      repeat case_match; done.
Qed.

Lemma run_drive evs : ∀ w w',
  run ts evs w = Some w' →
  ∃ hs, drive ts hs (at_rest w) = Some (at_rest w') ∧ unhurried ts hs (at_rest w) = true.
Proof.
  induction evs as [| ev evs IH]; intros w w'; cbn [run].
  - intros [= <-]. by exists [].
  - destruct (step ts ev w) as [w1 |] eqn:Hs; [| done]. intros Hr.
    destruct (step_drive ev w w1 Hs) as (hs1 & Hd1 & Hu1).
    destruct (IH w1 w' Hr) as (hs2 & Hd2 & Hu2).
    exists (hs1 ++ hs2). split.
    + clear Hu1. revert Hd1. generalize (at_rest w). induction hs1 as [| h hs1 IH1]; intros p; cbn.
      * by intros [= ->].
      * destruct (happen ts h p); [apply IH1 | done].
    + revert Hd1 Hu1. generalize (at_rest w). induction hs1 as [| h hs1 IH1]; intros p; cbn.
      * by intros [= ->].
      * destruct (happen ts h p) as [p2 |]; [| done].
        intros Hd [H1 H2]%andb_true_iff. rewrite H1. cbn. by apply IH1.
Qed.

End Unhurried.

(** * One encoder at a time *)

(** A recorder that is recording goes on recording through
    [beginRecording], which starts another beside it. *)
Lemma beginRecording_beside p s w r :
  constructor_throws p = None → start_throws p = None →
  recorder_state r w = recording →
  let w' := settle (beginRecording p s) w in
  r ≠ length (recorders (browser w)) ∧
  recorder_state r w' = recording ∧
  recorder_state (length (recorders (browser w))) w' = recording.
Proof.
  intros Hc Hs Hr w'. subst w'. rewrite beginRecording_eq, Hc, Hs.
  assert (Hlt : (r < length (recorders (browser w)))%nat).
  { unfold recorder_state, recorder in Hr.
    destruct (recorders (browser w) !! r) eqn:E; [| done]. by apply lookup_lt_Some in E. }
  unfold recorder_state. rewrite !recorder_capturing.
  rewrite decide_False by lia. rewrite decide_True by done.
  split_and!; [lia | exact Hr | done].
Qed.

(** C2.  Two recorders can record at once.  A call of [ensureStream] that was
    made from Open Camera and still waits for [play()] sets the status to
    "ready" when the promise resolves, whatever the status is then: if a
    recorder is recording it goes on recording, and Start is enabled
    again.  Neither [start] nor [beginRecording] asks whether a recorder is
    recording: [beginRecording] starts a second recorder beside the first.
    What does hold is that at most one recorder is recording, and Start is
    disabled while it is, as long as nothing overtakes a promise. *)
Theorem C2_second_encoder ts (p : Page) (i : nat) (s : StreamId) (r : RecId) :
  awaiting p !! i = Some (AwaitPlay s None ByOpen) →
  recorder_state r (world p) = recording →
  (∃ p1, happen ts (Settles i) p = Some p1 ∧
         status (hooks (world p1)) = Ready ∧
         recorder_state r (world p1) = recording ∧
         ∀ acq, disabled (ClickStart acq) (world p1) = false) ∧
  (∀ pf s' w, constructor_throws pf = None → start_throws pf = None →
     recorder_state r w = recording →
     let w' := settle (beginRecording pf s') w in
     r ≠ length (recorders (browser w)) ∧
     recorder_state r w' = recording ∧
     recorder_state (length (recorders (browser w))) w' = recording) ∧
  (∀ t0 hs w,
     drive ts hs (at_rest (mount t0)) = Some (at_rest w) →
     unhurried ts hs (at_rest (mount t0)) = true →
     (∀ r1 r2, recorder_state r1 w = recording → recorder_state r2 w = recording →
               r1 = r2) ∧
     (∀ r1 acq, recorder_state r1 w = recording → disabled (ClickStart acq) w = true)).
Proof.
  intros Hi Hr. split_and!.
  - unfold happen. rewrite Hi. cbn [resume].
    eexists. split; [reflexivity |]. cbn [world]. split_and!; [done | exact Hr | done].
  - intros pf s' w. apply beginRecording_beside.
  - intros t0 hs w Hd Hu.
    destruct (single_encoder ts w (unhurried_reachable ts hs t0 w Hd Hu)) as (H1 & _ & H3).
    split; [exact H1 |]. intros r1 acq Hr1. specialize (H3 r1 acq Hr1).
    unfold step in H3. destruct (disabled (ClickStart acq) w); [done |]. done.
Qed.

(** The failing run of C2: the page of [second_request] one happening
    before the second call of [ensureStream] sets "ready", and the two
    recorders at its end. *)
Lemma C2_second_encoder_witness :
  (∃ p1, happen plain_toString (Settles 0) late_ready_page = Some p1 ∧
         status (hooks (world p1)) = Ready ∧
         recorder_state 0 (world p1) = recording ∧
         disabled (ClickStart camera) (world p1) = false) ∧
  (λ p, live_encoders (world p))
    <$> drive plain_toString second_request (at_rest (mount 0)) = Some [0; 1]%nat.
Proof.
  destruct (C2_second_encoder plain_toString late_ready_page 0 1%nat 0%nat)
    as ((p1 & Hh & Hst & Hrec & Hen) & _ & _); [reflexivity | reflexivity |].
  split; [| vm_compute; reflexivity].
  exists p1. split_and!; [exact Hh | exact Hst | exact Hrec | apply Hen].
Defined.

(** * The countdown *)

Section CountingDown.
Variable ts : number → string.

Lemma run_app evs evs' w : run ts (evs ++ evs') w = run ts evs w ≫= run ts evs'.
Proof.
  revert w. induction evs as [| ev evs IH]; intros w; [done |].
  cbn [run app]. destruct (step ts ev w); [apply IH | done].
Qed.

Lemma on_time_app evs evs' w w' :
  run ts evs w = Some w' →
  on_time ts (evs ++ evs') w = on_time ts evs w && on_time ts evs' w'.
Proof.
  revert w. induction evs as [| ev evs IH]; intros w; cbn [run on_time app].
  - by intros [= ->].
  - destruct (step ts ev w) as [w1 |]; [| done]. intros Hr.
    rewrite (IH w1 Hr). by rewrite andb_assoc.
Qed.

(** A second passes and the timer [id] fires. *)
Lemma run_second p id w :
  run ts [TimePasses 1000; TimerFires id p] w
  = fire id p (put_now (now (browser w) + 1000) w).
Proof.
  cbn [run]. unfold step at 1. cbn [disabled handle Z.ltb Z.compare].
  unfold step. cbn [disabled handle]. by destruct (fire id p _).
Qed.

Lemma counting_down_S n p id :
  counting_down (S n) p id = [TimePasses 1000; TimerFires id p] ++ counting_down n p id.
Proof. reflexivity. Qed.

Lemma counting_down_snoc n p id :
  counting_down (S n) p id = counting_down n p id ++ [TimePasses 1000; TimerFires id p].
Proof.
  unfold counting_down. replace (S n) with (n + 1)%nat by lia.
  rewrite replicate_add, concat_app. reflexivity.
Qed.

(** One second of a countdown that has more than one to go. *)
Lemma second_counting p id s rem T w :
  Counting id s rem T w → 1 < rem →
  let w' := counted id (now (browser w) + 1000) rem s (put_now (now (browser w) + 1000) w) in
  run ts [TimePasses 1000; TimerFires id p] w = Some w' ∧ Counting id s (rem - 1) T w'.
Proof.
  intros (Ht & Href & Hst) Hrem w'. split.
  - rewrite run_second.
    rewrite (fire_interval_eq p id (now (browser w) + 1000) rem s);
      [| cbn; rewrite Ht; apply lookup_insert_eq | cbn; lia].
    destruct (rem - 1 <=? 0) eqn:E; [lia | done].
  - split_and!; [| done | done]. subst w'. cbn. rewrite Ht. by rewrite insert_insert_eq.
Qed.

(** Its last second: [beginRecording] is entered. *)
Lemma second_last p id s T w :
  Counting id s 1 T w →
  run ts [TimePasses 1000; TimerFires id p] w
  = Some (settle (beginRecording p s)
            (clear_ref (Some id)
               (counted id (now (browser w) + 1000) 1 s
                  (put_now (now (browser w) + 1000) w)))).
Proof.
  intros (Ht & Href & Hst). rewrite run_second.
  rewrite (fire_interval_eq p id (now (browser w) + 1000) 1 s);
    [| cbn; rewrite Ht; apply lookup_insert_eq | cbn; lia].
  cbn [Z.sub Z.leb Z.compare Z.add Z.opp Z.pos_sub]. by rewrite <- Href.
Qed.

Lemma seconds_counting p id s T (n : nat) : ∀ (rem : Z) (w : World),
  Counting id s rem T w → Z.of_nat n < rem →
  ∃ wn, run ts (counting_down n p id) w = Some wn ∧
        Counting id s (rem - Z.of_nat n) T wn ∧
        (n ≠ 0%nat → countdown (hooks wn) = rem - Z.of_nat n) ∧
        now (browser wn) = now (browser w) + 1000 * Z.of_nat n ∧
        refs wn = refs w ∧
        recorders (browser wn) = recorders (browser w) ∧
        nextTimer (browser wn) = nextTimer (browser w) ∧
        log (browser wn)
        = log (browser w) ++ ((λ i, ObsCountdown (rem - Z.of_nat i)) <$> seq 1 n).
Proof.
  induction n as [| n IH]; intros rem w HC Hrem.
  - exists w. cbn. rewrite Z.sub_0_r, Z.add_0_r, app_nil_r. done.
  - destruct (second_counting p id s rem T w HC) as (Hs & HC'); [lia |].
    destruct (IH (rem - 1) _ HC')
      as (wn & Hn & HCn & Hcd & Hnow & Hrf & Hrc & Hnt & Hlog); [lia |].
    exists wn. rewrite counting_down_S, run_app, Hs. cbn [mbind option_bind].
    split; [done |].
    replace (rem - Z.of_nat (S n)) with (rem - 1 - Z.of_nat n) by lia.
    split_and!; [done | | | done | done | done |].
    + intros _. destruct n as [| n']; [| by apply Hcd].
      cbn in Hn. injection Hn as <-. cbn. lia.
    + rewrite Hnow. cbn. lia.
    + rewrite Hlog. cbn [seq fmap list_fmap]. cbn -[Z.sub Z.of_nat seq].
      rewrite <- app_assoc. f_equal. cbn [app]. f_equal.
      rewrite <- (fmap_S_seq 1), <- list_fmap_compose. apply list_fmap_ext.
      intros _ i _. cbn. f_equal. lia.
Qed.

(** The last second of a countdown: capture begins, once, and the
    interval is gone. *)
Lemma second_handoff p id s T w :
  Counting id s 1 T w → id ≠ nextTimer (browser w) →
  ∃ w', run ts [TimePasses 1000; TimerFires id p] w = Some w' ∧
        countdown (hooks w') = 0 ∧
        now (browser w') = now (browser w) + 1000 ∧
        timers (browser w') !! id = None ∧
        log (browser w')
        = log (browser w) ++ [ObsCountdown 0; ObsBeginCapture]
          ++ match constructor_throws p with
             | Some _ => []
             | None => [ObsEncoder (length (recorders (browser w)))]
             end.
Proof.
  intros HC Hne. rewrite (second_last p id s T w HC). destruct HC as (Ht & Href & Hst).
  eexists. split; [reflexivity |]. rewrite beginRecording_eq.
  destruct (constructor_throws p) as [e |]; [| destruct (start_throws p) as [e |]].
  - cbn. rewrite lookup_delete_eq, <- app_assoc. done.
  - cbn. rewrite lookup_delete_eq, <- app_assoc. done.
  - cbn. rewrite lookup_insert_ne by done. rewrite lookup_delete_eq, <- app_assoc. done.
Qed.

(** While the countdown is the only timer to fall due, it runs on time. *)
Lemma counting_on_time p id s T (n : nat) : ∀ (rem : Z) (w : World),
  Counting id s rem T w → Z.of_nat n ≤ rem →
  map_Forall (λ _ t, now (browser w) + 1000 * Z.of_nat n ≤ timer_due t) (delete id T) →
  on_time ts (counting_down n p id) w = true.
Proof.
  induction n as [| n IH]; intros rem w HC Hrem Hall; [done |].
  assert (Hpass : map_Forall (λ _ t, now (browser w) + 1000 ≤ timer_due t)
                    (timers (browser w))).
  { destruct HC as (-> & _). rewrite <- insert_delete_eq. apply map_Forall_insert_2; [cbn; lia |].
    eapply map_Forall_impl; [exact Hall |]. cbn. intros. lia. }
  rewrite counting_down_S. cbn [app on_time].
  rewrite bool_decide_eq_true_2 by exact Hpass. cbn [andb].
  unfold step at 1. cbn [disabled handle Z.ltb Z.compare andb].
  unfold step at 1. cbn [disabled handle].
  destruct (decide (1 < rem)) as [Hbig | Hone].
  - destruct (second_counting p id s rem T w HC Hbig) as (Hs & HC').
    rewrite run_second in Hs. rewrite Hs.
    apply (IH (rem - 1)); [done | lia |].
    eapply map_Forall_impl; [exact Hall |]. cbn. intros. lia.
  - destruct n as [| n]; [| lia]. by destruct (fire id p _).
Qed.

End CountingDown.

Lemma start_arm_eq s w : settle (start_arm s) w = armed s w.
Proof. reflexivity. Qed.

Lemma stop_log w : log (browser (settle stop w)) = log (browser w).
Proof.
  rewrite stop_eq, !clear_ref_log. unfold halt_encoder. repeat case_match; reflexivity.
Qed.

(** The first [n] seconds, up to four, of the countdown armed by [start]. *)
Lemma countdown_seconds ts (s : StreamId) (p : Platform) (w : World) (n : nat) :
  (n ≤ 4)%nat →
  let id := nextTimer (browser w) in
  ∃ wn, run ts (counting_down n p id) (armed s w) = Some wn ∧
        Counting id s (5 - Z.of_nat n) (timers (browser w)) wn ∧
        countdown (hooks wn) = 5 - Z.of_nat n ∧
        now (browser wn) = now (browser w) + 1000 * Z.of_nat n ∧
        nextTimer (browser wn) = Pos.succ id ∧
        recorders (browser wn) = recorders (browser w) ∧
        log (browser wn)
        = log (browser w) ++ [ObsCountdown 5]
            ++ ((λ i, ObsCountdown (5 - Z.of_nat i)) <$> seq 1 n).
Proof.
  intros Hn id.
  assert (HC : Counting id s 5 (timers (browser w)) (armed s w)) by done.
  destruct (seconds_counting ts p id s _ n 5 _ HC)
    as (wn & Hs & HCn & Hcd & Hnw & Hrf & Hrc & Hnt & Hlg); [lia |].
  exists wn. split_and!; [done | done | | done | done | done |].
  - destruct n as [| n']; [| by apply Hcd]. cbn in Hs. by injection Hs as <-.
  - rewrite Hlg. cbn [armed]. cbn. by rewrite <- app_assoc.
Qed.

(** C4.  [start], once it has its stream, sets the countdown to 5 and arms
    an interval.  While the interval fires each second, 5, 4, 3, 2, 1, 0 are
    observed in turn; [beginRecording] is not entered during the first
    four seconds; the fifth firing enters it once, constructing one
    recorder (none if the constructor throws), and takes the interval out
    of the timer table, after which it cannot fire again.  Such a run is on
    time if no other timer falls due in these five seconds.  But if the
    deadline of an earlier recording is still pending and falls due before
    the countdown is over, its [stop] clears the interval: the countdown
    stays where it was and capture never begins. *)
Theorem C4_countdown ts (s : StreamId) (p : Platform) (w : World) :
  let w0 := settle (start_arm s) w in
  let id := nextTimer (browser w) in
  let l := log (browser w) in
  (status (hooks w0) = Countdown ∧ countdown (hooks w0) = 5 ∧
   log (browser w0) = l ++ [ObsCountdown 5]) ∧
  (∀ n, (n ≤ 4)%nat →
     ∃ wn, run ts (counting_down n p id) w0 = Some wn ∧
           status (hooks wn) = Countdown ∧
           countdown (hooks wn) = 5 - Z.of_nat n ∧
           now (browser wn) = now (browser w) + 1000 * Z.of_nat n ∧
           countdowns (log (browser wn)) = countdowns l ++ take (S n) [5; 4; 3; 2; 1; 0] ∧
           begins (log (browser wn)) = begins l ∧
           encoders_made (log (browser wn)) = encoders_made l) ∧
  (∃ w5, run ts (counting_down 5 p id) w0 = Some w5 ∧
         countdown (hooks w5) = 0 ∧
         now (browser w5) = now (browser w) + 5000 ∧
         countdowns (log (browser w5)) = countdowns l ++ [5; 4; 3; 2; 1; 0] ∧
         begins (log (browser w5)) = S (begins l) ∧
         encoders_made (log (browser w5))
         = (encoders_made l + match constructor_throws p with Some _ => 0 | None => 1 end)%nat ∧
         timers (browser w5) !! id = None ∧
         ∀ p', step ts (TimerFires id p') w5 = None) ∧
  ((∀ id' t, id' ≠ id → timers (browser w) !! id' = Some t →
             now (browser w) + 5000 ≤ timer_due t) →
   on_time ts (counting_down 5 p id) w0 = true) ∧
  (∀ (n : nat) d due p',
     (n ≤ 4)%nat → d ≠ id → timers (browser w) !! d = Some (Timeout due) →
     due ≤ now (browser w) + 1000 * Z.of_nat n →
     ∃ wn w', run ts (counting_down n p id) w0 = Some wn ∧
              step ts (TimerFires d p') wn = Some w' ∧
              hooks w' = hooks wn ∧
              status (hooks w') = Countdown ∧
              log (browser w') = log (browser wn) ∧
              timers (browser w') !! id = None ∧
              ∀ p'', step ts (TimerFires id p'') w' = None).
Proof.
  intros w0 id l. subst w0 l. rewrite start_arm_eq.
  assert (Hfire : ∀ p' x, timers (browser x) !! id = None →
                          step ts (TimerFires id p') x = None).
  { intros p' x Hx. unfold step. cbn [disabled handle]. unfold fire. by rewrite Hx. }
  split_and!.
  - done.
  - done.
  - done.
  - intros n Hn.
    destruct (countdown_seconds ts s p w n Hn)
      as (wn & Hs & (Ht & Href & Hst) & Hcd & Hnw & Hnt & Hrc & Hlg).
    exists wn. fold id in Hs. split_and!; [done | done | done | done | | |].
    + rewrite Hlg, countdowns_app.
      do 5 (destruct n as [| n]; [reflexivity |]). lia.
    + rewrite Hlg, begins_app.
      do 5 (destruct n as [| n]; [cbn; lia |]). lia.
    + rewrite Hlg, encoders_made_app.
      do 5 (destruct n as [| n]; [cbn; lia |]). lia.
  - destruct (countdown_seconds ts s p w 4 ltac:(lia))
      as (w4 & Hs & HC4 & Hcd & Hnw & Hnt & Hrc & Hlg).
    fold id in Hs, HC4, Hnt.
    destruct (second_handoff ts p id s _ w4 HC4) as (w5 & H5 & Hc5 & Hn5 & Ht5 & Hl5).
    { rewrite Hnt. lia. }
    exists w5. split_and!.
    + rewrite counting_down_snoc, run_app, Hs. exact H5.
    + done.
    + rewrite Hn5, Hnw. lia.
    + rewrite Hl5, Hlg, !countdowns_app. cbn [app]. rewrite <- app_assoc. f_equal.
      by destruct (constructor_throws p).
    + rewrite Hl5, Hlg, !begins_app. destruct (constructor_throws p); cbn; lia.
    + rewrite Hl5, Hlg, !encoders_made_app. destruct (constructor_throws p); cbn; lia.
    + done.
    + intros p'. by apply Hfire.
  - intros Hall. apply (counting_on_time ts p id s (timers (browser w)) 5 5); [done | lia |].
    intros id' t Hl. apply lookup_delete_Some in Hl as [Hne Hl].
    cbn. specialize (Hall id' t ltac:(done) Hl). cbn. lia.
  - intros n d due p' Hn Hd Hl Hdue.
    destruct (countdown_seconds ts s p w n Hn)
      as (wn & Hs & (Ht & Href & Hst) & Hcd & Hnw & Hnt & Hrc & Hlg).
    fold id in Hs, Ht, Href.
    exists wn, (settle stop (clear_ref (Some d) wn)).
    assert (Hx : timers (browser (settle stop (clear_ref (Some d) wn))) !! id = None).
    { apply stop_cancels. by left. }
    split_and!.
    + done.
    + unfold step. cbn [disabled handle].
      apply (fire_timeout_eq p' d due).
      * rewrite Ht. by rewrite lookup_insert_ne.
      * lia.
    + by rewrite stop_hooks.
    + by rewrite stop_hooks.
    + by rewrite stop_log, clear_ref_log.
    + done.
    + intros p''. by apply Hfire.
Qed.

Lemma C4_countdown_witness :
  let again := [ClickOpen camera; ClickStart camera] ++ ticking 1
               ++ [TimePasses 58000; RecorderEnds 0%nat; RecorderStopped 0%nat;
                   ClickStart camera] in
  let w := settle start_enter ended_early_world in
  run plain_toString again (mount 0) = Some (settle (start_arm 0%nat) w) ∧
  on_time plain_toString (again ++ counting_down 2 chrome 3) (mount 0) = true ∧
  begins (log (browser w)) = 1%nat ∧
  ∃ wn w', run plain_toString (counting_down 2 chrome 3) (settle (start_arm 0%nat) w) = Some wn ∧
           countdown (hooks wn) = 3 ∧
           begins (log (browser wn)) = 1%nat ∧
           step plain_toString (TimerFires 2 chrome) wn = Some w' ∧
           hooks w' = hooks wn ∧
           status (hooks w') = Countdown ∧
           log (browser w') = log (browser wn) ∧
           timers (browser w') !! 3%positive = None ∧
           ∀ p, step plain_toString (TimerFires 3 p) w' = None.
Proof.
  intros again w.
  destruct (C4_countdown plain_toString 0%nat chrome w) as (_ & _ & _ & _ & H).
  destruct (H 2%nat 2%positive 65000 chrome) as (wn & w' & Hr & Hs & Hh & Hst & Hl & Ht & Hf).
  - lia.
  - vm_compute. discriminate.
  - vm_compute. reflexivity.
  - vm_compute. discriminate.
  - split_and!; [vm_compute; reflexivity.. |].
    exists wn, w'. split_and!; try done.
    + revert Hr. vm_compute. by intros [= <-].
    + revert Hr. vm_compute. by intros [= <-].
Defined.

(** * The deadline *)

Lemma halt_encoder_recording r w :
  recorderRef (refs w) = Some r → recorder_state r w = recording →
  halt_encoder w
  = put_stopping (stopping (browser w) ++ [r])
      (put_recorder_state r inactive (from_option rec_startedAt 0 (recorder r w)) w).
Proof. intros Href Hrec. unfold halt_encoder. by rewrite Href, decide_True. Qed.

(** C5.  [stop] and [cleanup] take the timers that [countdownTimerRef] and
    [stopTimerRef] name out of the timer table.  [beginRecording] arms the
    deadline sixty seconds on and keeps it in [stopTimerRef]; fired while
    the recorder of [recorderRef] is recording, it stops that recorder and
    queues its stop event.  But [onstop] leaves the deadline pending, and
    [stop] asks only whether the recorder of [recorderRef] is recording:
    a deadline that fires when it is not touches no recorder and no state
    of the component, yet it clears the timers the two refs name at that
    moment, the interval of a countdown started in the meantime among
    them. *)
Theorem C5_stale_deadline ts (w : World) :
  (∀ id b, countdownTimerRef (refs w) = Some id ∨ stopTimerRef (refs w) = Some id →
     timers (browser (settle stop w)) !! id = None ∧
     timers (browser (settle (cleanup b) w)) !! id = None) ∧
  (∀ p s, constructor_throws p = None → start_throws p = None →
     let w' := settle (beginRecording p s) w in
     let r := length (recorders (browser w)) in
     recorderRef (refs w') = Some r ∧
     recorder_state r w' = recording ∧
     stopTimerRef (refs w') = Some (nextTimer (browser w)) ∧
     timers (browser w') !! nextTimer (browser w)
     = Some (Timeout (now (browser w) + 60000))) ∧
  (∀ id due p r,
     timers (browser w) !! id = Some (Timeout due) → due ≤ now (browser w) →
     recorderRef (refs w) = Some r → recorder_state r w = recording →
     ∃ w', step ts (TimerFires id p) w = Some w' ∧
           recorder_state r w' = inactive ∧
           stopping (browser w') = stopping (browser w) ++ [r] ∧
           timers (browser w') !! id = None) ∧
  (∀ r w', step ts (RecorderStopped r) w = Some w' →
     status (hooks w') = Finished ∧
     timers (browser w') = timers (browser w) ∧
     stopTimerRef (refs w') = stopTimerRef (refs w)) ∧
  (∀ id due p,
     timers (browser w) !! id = Some (Timeout due) → due ≤ now (browser w) →
     (∀ r, recorderRef (refs w) = Some r → recorder_state r w ≠ recording) →
     ∃ w', step ts (TimerFires id p) w = Some w' ∧
           hooks w' = hooks w ∧ refs w' = refs w ∧
           recorders (browser w') = recorders (browser w) ∧
           stopping (browser w') = stopping (browser w) ∧
           log (browser w') = log (browser w) ∧
           ∀ c, countdownTimerRef (refs w) = Some c →
                timers (browser w') !! c = None ∧
                ∀ p', step ts (TimerFires c p') w' = None).
Proof.
  split_and!.
  - intros id b H. split; [by apply stop_cancels |].
    rewrite cleanup_eq, release_timers. by apply stop_cancels.
  - intros p s Hc Hs w' r. subst w' r. rewrite beginRecording_eq, Hc, Hs.
    split_and!.
    + reflexivity.
    + unfold recorder_state. rewrite recorder_capturing, decide_True by done. done.
    + reflexivity.
    + cbn. apply lookup_insert_eq.
  - intros id due p r Hid Hdue Href Hrec.
    unfold step, disabled, handle. rewrite (fire_timeout_eq p id due w Hid Hdue).
    eexists. split; [reflexivity |]. rewrite stop_eq.
    set (w2 := clear_ref (Some id) w).
    destruct (clear_ref_frame (Some id) w) as (Hh2 & Hr2 & Hrc2 & Hq2 & _).
    fold w2 in Hh2, Hr2, Hrc2, Hq2.
    assert (Hrec2 : recorder_state r w2 = recording)
      by (by rewrite (recorder_state_ext r w w2)).
    rewrite (halt_encoder_recording r w2) by congruence.
    set (w3 := put_stopping _ _).
    destruct (clear_refs_frame None (countdownTimerRef (refs w2)) (stopTimerRef (refs w2)) w3)
      as (_ & _ & Hrc & Hq & _). cbn [clear_ref] in Hrc, Hq.
    split_and!.
    + rewrite (recorder_state_ext r w3) by done. subst w3.
      rewrite (recorder_state_ext r (put_recorder_state r inactive
                 (from_option rec_startedAt 0 (recorder r w2)) w2)) by reflexivity.
      rewrite recorder_state_put_recorder_state, decide_True by done.
      by destruct (recorder r w2).
    + rewrite Hq. subst w3 w2. reflexivity.
    + destruct (timers (browser (clear_ref (countdownTimerRef (refs w2))
                  (clear_ref (stopTimerRef (refs w2)) w3))) !! id) eqn:E; [exfalso | done].
      apply clear_ref_timers in E as [E _]. apply clear_ref_timers in E as [E _].
      subst w3 w2. cbn in E. by rewrite lookup_delete_eq in E.
  - intros r w'. unfold step, disabled, handle.
    destruct (stopping (browser w)) as [| r' rest]; [done |].
    case_decide; [| done]. intros [= <-]. mrun. cbn. done.
  - intros id due p Hid Hdue Hidle.
    unfold step at 1. cbn [disabled handle]. rewrite (fire_timeout_eq p id due w Hid Hdue).
    eexists. split; [reflexivity |].
    assert (Href : refs (clear_ref (Some id) w) = refs w) by reflexivity.
    split_and!.
    + by rewrite stop_hooks.
    + rewrite stop_eq. rewrite halt_encoder_idle.
      * apply (clear_refs_frame _ _ (Some id) w).
      * intros r Hr. rewrite (recorder_state_ext r w) by done. apply Hidle. by rewrite <- Href.
    + rewrite stop_eq. rewrite halt_encoder_idle.
      * apply (clear_refs_frame _ _ (Some id) w).
      * intros r Hr. rewrite (recorder_state_ext r w) by done. apply Hidle. by rewrite <- Href.
    + rewrite stop_eq. rewrite halt_encoder_idle.
      * apply (clear_refs_frame _ _ (Some id) w).
      * intros r Hr. rewrite (recorder_state_ext r w) by done. apply Hidle. by rewrite <- Href.
    + by rewrite stop_log, clear_ref_log.
    + intros c Hc.
      assert (Hx : timers (browser (settle stop (clear_ref (Some id) w))) !! c = None).
      { apply stop_cancels. left. by rewrite Href. }
      split; [done |]. intros p'. unfold step. cbn [disabled handle]. unfold fire.
      by rewrite Hx.
Qed.

Lemma C5_stale_deadline_witness :
  status (hooks stale_world) = Countdown ∧
  countdownTimerRef (refs stale_world) = Some 3%positive ∧
  timers (browser stale_world) !! 3%positive = Some (Interval 65000 4 0%nat) ∧
  ∃ w', step plain_toString (TimerFires 2 chrome) stale_world = Some w' ∧
        hooks w' = hooks stale_world ∧
        timers (browser w') !! 3%positive = None ∧
        ∀ p, step plain_toString (TimerFires 3 p) w' = None.
Proof.
  destruct (C5_stale_deadline plain_toString stale_world) as (_ & _ & _ & _ & H).
  destruct (H 2%positive 65000 chrome) as (w' & Hs & Hh & _ & _ & _ & _ & Hc).
  - vm_compute. reflexivity.
  - vm_compute. discriminate.
  - intros r [= <-]. vm_compute. discriminate.
  - destruct (Hc 3%positive) as [Ht Hf]; [vm_compute; reflexivity |].
    split_and!; [vm_compute; reflexivity.. |].
    by exists w'.
Defined.

(** * Sessions in which nothing overtakes a promise *)

Section AtRest.
Variable ts : number → string.

Lemma unhurried_between hs w w' :
  drive ts hs (at_rest w) = Some (at_rest w') → unhurried ts hs (at_rest w) = true →
  ∃ evs, run ts evs w = Some w'.
Proof.
  intros Hd Hu.
  destruct (unhurried_run ts hs (at_rest w) (at_rest w')) as (_ & evs & Hr);
    [cbn; lia | done | done |].
  by exists evs.
Qed.

Lemma happen_disabled ev p : disabled ev (world p) = true → happen ts (Does ev) p = None.
Proof. intros H. unfold happen. by rewrite H. Qed.

End AtRest.

(** X1.  In a session in which nothing overtakes a promise, once the
    status is "error" it stays "error": whatever the user and the browser
    do next, no handler sets another status, no recorder records, no
    countdown runs, and Open Camera, Start and Stop are disabled. *)
Theorem error_is_final ts (t0 : Z) (hs hs' : list Happening) (w w' : World) :
  drive ts hs (at_rest (mount t0)) = Some (at_rest w) →
  unhurried ts hs (at_rest (mount t0)) = true →
  status (hooks w) = Error →
  drive ts hs' (at_rest w) = Some (at_rest w') →
  unhurried ts hs' (at_rest w) = true →
  status (hooks w') = Error ∧
  idle_encoders w' ∧ no_interval w' ∧
  ∀ acq, happen ts (Does (ClickOpen acq)) (at_rest w') = None ∧
         happen ts (Does (ClickStart acq)) (at_rest w') = None ∧
         happen ts (Does ClickStop) (at_rest w') = None.
Proof.
  intros Hd Hu Hst Hd' Hu'.
  pose proof (unhurried_reachable ts hs t0 w Hd Hu) as Hr.
  destruct (unhurried_between ts hs' w w' Hd' Hu') as (evs & Hrun).
  destruct (Error_final ts w w' evs Hr Hst Hrun) as (Hst' & Hi & Hn & _).
  split_and!; [done | done | done |].
  intros acq. split_and!; apply happen_disabled; unfold disabled; cbn [world at_rest];
    by rewrite Hst'.
Qed.

Lemma error_is_final_witness :
  status (hooks error_world_later) = Error ∧
  happen plain_toString (Does (ClickStart camera)) (at_rest error_world_later) = None.
Proof.
  destruct (error_is_final plain_toString 0
              (opened ++ [Does (ClickStart camera)]
               ++ (Does <$> concat (replicate 5 [TimePasses 1000; TimerFires 1 no_recorder])))
              [Does (PickFile (Some clip) (Loaded (of_Z 58))); Settles 0;
               Does ClickSendSelected; Does (TimePasses 5000)]
              error_world error_world_later)
    as (Hs & _ & _ & Hd).
  - vm_compute. reflexivity.
  - vm_compute. reflexivity.
  - reflexivity.
  - vm_compute. reflexivity.
  - vm_compute. reflexivity.
  - split; [exact Hs |]. destruct (Hd camera) as (_ & H & _). exact H.
Defined.

(** X2.  In a session in which nothing overtakes a promise, a countdown
    cancelled by Stop is a dead end: the status is "countdown" with no
    interval pending and stays so whatever happens next; no recorder is
    constructed any more, and Start and Open Camera stay disabled. *)
Theorem cancelled_countdown_is_final ts (t0 : Z) (hs hs' : list Happening)
    (w w1 w' : World) :
  drive ts hs (at_rest (mount t0)) = Some (at_rest w) →
  unhurried ts hs (at_rest (mount t0)) = true →
  status (hooks w) = Countdown →
  happen ts (Does ClickStop) (at_rest w) = Some (at_rest w1) →
  drive ts hs' (at_rest w1) = Some (at_rest w') →
  unhurried ts hs' (at_rest w1) = true →
  status (hooks w') = Countdown ∧ no_interval w' ∧
  recorders (browser w') = recorders (browser w) ∧
  ∀ acq, happen ts (Does (ClickStart acq)) (at_rest w') = None ∧
         happen ts (Does (ClickOpen acq)) (at_rest w') = None.
Proof.
  intros Hd Hu Hst Hstop Hd' Hu'.
  pose proof (unhurried_reachable ts hs t0 w Hd Hu) as Hr.
  destruct (happen_at_rest ts ClickStop w _ Hstop) as [_ Hstep].
  destruct (unhurried_between ts hs' w1 w' Hd' Hu') as (evs & Hrun).
  destruct (Cancelled_final ts w w1 w' evs Hr Hst Hstep Hrun) as (Hst' & Hn & Hrc & _).
  split_and!; [done | done | done |].
  intros acq. split; apply happen_disabled; unfold disabled; cbn [world at_rest];
    by rewrite Hst'.
Qed.

Lemma cancelled_countdown_is_final_witness :
  status (hooks cancelled_world_later) = Countdown ∧
  happen plain_toString (Does (ClickStart camera)) (at_rest cancelled_world_later) = None.
Proof.
  destruct (cancelled_countdown_is_final plain_toString 0
              (opened ++ [Does (ClickStart camera); Does (TimePasses 1000);
                          Does (TimerFires 1 chrome)])
              [Does (TimePasses 5000); Does ClickStop]
              countdown_world cancelled_world cancelled_world_later)
    as (Hs & _ & _ & Hd).
  - vm_compute. reflexivity.
  - vm_compute. reflexivity.
  - reflexivity.
  - vm_compute. reflexivity.
  - vm_compute. reflexivity.
  - vm_compute. reflexivity.
  - split; [exact Hs |]. destruct (Hd camera) as (H & _). exact H.
Defined.

(** X3.  In a session in which nothing overtakes a promise, the recorded
    artifact and its object URL are there exactly while the status is
    "finished": [onstop] sets the three together and [start] clears the
    two before it leaves "finished"; so Send Recorded is enabled only in
    that status. *)
Theorem artifact_iff_finished ts (t0 : Z) (hs : list Happening) (w : World) :
  drive ts hs (at_rest (mount t0)) = Some (at_rest w) →
  unhurried ts hs (at_rest (mount t0)) = true →
  (status (hooks w) = Finished ↔ is_Some (recordedBlob (hooks w))) ∧
  (status (hooks w) = Finished ↔ is_Some (blobUrl (hooks w))) ∧
  (disabled ClickSendRecorded w = false → status (hooks w) = Finished).
Proof.
  intros Hd Hu. apply (Tidy_artifact ts). by apply (unhurried_reachable ts hs t0).
Qed.

Lemma artifact_iff_finished_witness :
  is_Some (recordedBlob (hooks finished_world)) ∧
  is_Some (blobUrl (hooks finished_world)).
Proof.
  destruct (artifact_iff_finished plain_toString 0
              (opened ++ [Does (ClickStart camera)]
               ++ (Does <$> ticking 1
                            ++ [TimePasses 60000;
                                RecorderData 0%nat
                                  (Some {| blob_data := [7%N; 8%N];
                                           blob_type := "video/webm" |});
                                TimerFires 2 chrome; RecorderStopped 0%nat]))
              finished_world) as (Hb & Hu & _).
  - vm_compute. reflexivity.
  - vm_compute. reflexivity.
  - split; [apply Hb | apply Hu]; reflexivity.
Defined.

(** X4.  In a session in which nothing overtakes a promise, the selected
    file is one that passed the duration check: its probed duration is the
    one recorded, finite and within 3 s of 60.  No other file is handed to
    Send Uploaded. *)
Theorem selected_file_checked ts (t0 : Z) (hs : list Happening) (w : World) (f : File) :
  drive ts hs (at_rest (mount t0)) = Some (at_rest w) →
  unhurried ts hs (at_rest (mount t0)) = true →
  selectedFile (hooks w) = Some f →
  ∃ d, selectedDuration (hooks w) = Some d ∧
       isFinite d = true ∧
       gt (abs (sub d (of_Z 60))) (of_Z 3) = false ∧
       (wf d = true → (Qabs (to_Q d - 60) <= 3)%Q).
Proof.
  intros Hd Hu. apply (Tidy_selection ts). by apply (unhurried_reachable ts hs t0).
Qed.

Lemma selected_file_checked_witness :
  ∃ d, selectedDuration (hooks picked_world) = Some d ∧ isFinite d = true.
Proof.
  destruct (selected_file_checked plain_toString 0
              [Does (PickFile (Some clip) (Loaded (of_Z 58))); Settles 0]
              picked_world clip) as (d & Hd & Hf & _).
  - vm_compute. reflexivity.
  - vm_compute. reflexivity.
  - reflexivity.
  - exists d. split; [exact Hd | exact Hf].
Defined.

(** * The camera, call by call *)

(** X7.  [ensureStream] returns the stream it holds without asking for the
    camera.  While it holds none, every call asks, also one made while
    another waits for the camera's answer.  If [getUserMedia] rejects,
    nothing changes.  When it resolves, in whatever state the page is by
    then, the new stream is kept in [streamRef] in place of what was there
    and shown in the preview; when [play()] resolves the status becomes
    "ready", whatever it was, and when [play()] rejects nothing more
    changes.  With nothing in between, the pieces are [ensureStream] in one
    piece. *)
Theorem ensureStream_acquires ts (w : World) :
  (∀ s acq, streamRef (refs w) = Some s → ensureStream acq w = Returned s w) ∧
  (∀ acq aw, streamRef (refs w) = None → disabled (ClickOpen acq) w = false →
     happen ts (Does (ClickOpen acq)) {| world := w; awaiting := aw |}
     = Some {| world := w; awaiting := aw ++ [AwaitMedia acq ByOpen] |}) ∧
  (∀ e, resume ts (AwaitMedia (AcqRejected e) ByOpen) w = (w, [])) ∧
  (∀ n play,
     let s := length (streams (browser w)) in
     let w1 := fst (resume ts (AwaitMedia (AcqGranted n play) ByOpen) w) in
     let more := snd (resume ts (AwaitMedia (AcqGranted n play) ByOpen) w) in
     streamRef (refs w1) = Some s ∧
     streams (browser w1) = streams (browser w) ++ [replicate n true] ∧
     match videoRef (refs w) with
     | Some _ =>
         more = [AwaitPlay s play ByOpen] ∧ hooks w1 = hooks w ∧
         videoRef (refs w1) = Some {| srcObject := Some s |}
     | None => more = [] ∧ status (hooks w1) = Ready
     end) ∧
  (∀ s, resume ts (AwaitPlay s None ByOpen) w = (put_status Ready w, [])) ∧
  (∀ s e, resume ts (AwaitPlay s (Some e) ByOpen) w = (w, [])) ∧
  (streamRef (refs w) = None →
   ∀ acq, finish ts (AwaitMedia acq ByOpen) w = settle (ensureStream acq ;; mret tt) w).
Proof.
  split_and!.
  - intros s acq Hs. by apply ensureStream_held.
  - intros acq aw Hs Hd. unfold happen. cbn [world awaiting]. by rewrite Hd, Hs.
  - done.
  - intros n play s w1 more. subst s w1 more. cbn [resume].
    unfold ensureStream_granted.
    cbv beta iota zeta delta [mbind M_bind mret M_ret gets modify].
    cbn [refs videoRef put_streams put_streamRef with_browser with_refs].
    destruct (videoRef (refs w)); done.
  - done.
  - done.
  - intros Hs acq. by apply finish_open.
Qed.

Lemma ensureStream_acquires_witness :
  ensureStream camera (world late_ready_page) = Returned 1%nat (world late_ready_page) ∧
  status (hooks (world late_ready_page)) = Recording ∧
  status (hooks (fst (resume plain_toString (AwaitPlay 1%nat None ByOpen)
                        (world late_ready_page)))) = Ready.
Proof.
  destruct (ensureStream_acquires plain_toString (world late_ready_page))
    as (Hheld & _ & _ & _ & Hplay & _).
  split_and!.
  - apply Hheld. reflexivity.
  - reflexivity.
  - by rewrite Hplay.
Defined.

(** * Picking a file, call by call *)

(** X12.  [handleFilePick] never throws.  Up to its await it drops the
    selection, its duration and the error, and makes an object URL for the
    probe unless nothing was picked (the dialog was cancelled), in which
    case it is over.  When the probe settles, in whatever state the page is
    by then, the URL is revoked and the duration recorded; the file becomes
    the selection only if its duration passed the check, and otherwise the
    selection is left as it is and the error reports the duration.  The
    status, the sending flag and a score shown from an earlier upload are
    left as they are.  With nothing in between, the pieces are
    [handleFilePick] in one piece. *)
Theorem pick_replaces_selection ts (w : World) :
  (∀ f, ∃ o w1,
     handleFilePick_enter f w = Returned o w1 ∧
     selectedFile (hooks w1) = None ∧ selectedDuration (hooks w1) = None ∧
     error (hooks w1) = EmptyString ∧
     accuracy (hooks w1) = accuracy (hooks w) ∧
     status (hooks w1) = status (hooks w) ∧
     isSending (hooks w1) = isSending (hooks w) ∧
     match f with
     | None => o = None ∧ browser w1 = browser w
     | Some f' =>
         o = Some (f', nextUrl (browser w)) ∧
         urls (browser w1) = {[nextUrl (browser w)]} ∪ urls (browser w)
     end) ∧
  (∀ f url probe,
     let dur := probe_duration probe in
     let w' := settle (handleFilePick_resume ts f url probe) w in
     handleFilePick_resume ts f url probe w = Returned tt w' ∧
     selectedDuration (hooks w') = Some dur ∧
     selectedFile (hooks w') = (if rejects dur then selectedFile (hooks w) else Some f) ∧
     error (hooks w')
     = (if rejects dur then duration_message ts dur else error (hooks w)) ∧
     urls (browser w') = urls (browser w) ∖ {[url]} ∧
     accuracy (hooks w') = accuracy (hooks w) ∧
     status (hooks w') = status (hooks w) ∧
     isSending (hooks w') = isSending (hooks w)) ∧
  (∀ f probe,
     match handleFilePick_enter f w with
     | Returned (Some (f', url)) w1 =>
         f = Some f' ∧
         finish ts (AwaitProbe f' url probe) w1 = settle (handleFilePick ts f probe) w
     | Returned None w1 => f = None ∧ w1 = settle (handleFilePick ts f probe) w
     | Thrown _ _ => False
     end).
Proof.
  split_and!.
  - intros [f |]; eexists _, _; (split; [reflexivity |]); cbn; done.
  - intros f url probe dur w'. subst dur w'. unfold settle, handleFilePick_resume.
    cbv beta iota zeta delta
      [mbind M_bind mret M_ret gets modify setSelectedDuration setError setSelectedFile
       revokeObjectURL].
    destruct (rejects (probe_duration probe)); cbn; done.
  - intros f probe. apply finish_pick.
Qed.
